(** * KnuthElevator: the elevator simulation of TAOCP 2.2.5 (cxx14.cpp)

    A shallow embedding of the C++14 simulator, default build (none of
    USE_KNUTH_DATA, EXERCISE_SIX, PRINT_STATISTICS defined, assertions live),
    and the properties of its scheduler, its two state machines and its
    decision subroutine.

    Conventions of the embedding.
    - [int] values ([Floor], [Time], [Duration], resume points) are [Z].  Every
      time the program computes is [now + d] for a duration [d <= 1200] and a
      [now] below the deadline, so no addition leaves the range of [int] for
      deadlines up to [2^31 - 1201]; signed overflow beyond that is undefined
      in C++ and outside this model.
    - A [std::shared_ptr<Task>] is a handle of type [Task]; the fields of the
      pointed-to objects ([nextinst_], [nexttime_], [in_], [out_]) live in the
      state, indexed by handle, so that two handles to one task alias.
    - A transition is a computation in a state-and-failure monad: a failed
      [assert] aborts the run, and so does an index outside a 5-cell array. *)

From Stdlib Require Import ZArith List Bool Lia String Ascii DecimalString.
Import ListNotations.
Local Open Scope Z_scope.

(** ** Data model *)

(** [Time] and [Duration] are [int] in the source (lines 24-25) and the
    unbounded [Z] here, where a sum [now + d] never wraps.  The two agree on
    the runs whose sums stay in the range of [int]: by [times_fit_int] these
    are the runs to a deadline of at most [INT_MAX - 1200]. *)
Definition Floor := Z.
Definition Time := Z.
Definition Duration := Z.

Inductive Direction := GoingUp | GoingDown | Neutral.

Definition Direction_eqb (a b : Direction) : bool :=
  match a, b with
  | GoingUp, GoingUp | GoingDown, GoingDown | Neutral, Neutral => true
  | _, _ => false
  end.

(** Handles of the tasks: the three members [elevatortask_], [e5task_],
    [e9task_] of the simulation, and the [UserTask]s, numbered in the order
    [std::make_shared<UserTask>()] creates them. *)
Inductive Task := elevatortask | e5task | e9task | usertask (id : nat).

Definition Task_eqb (p q : Task) : bool :=
  match p, q with
  | elevatortask, elevatortask | e5task, e5task | e9task, e9task => true
  | usertask a, usertask b => Nat.eqb a b
  | _, _ => false
  end.

(** The pseudo-random generator [xoshiro256ss] of xoshiro256ss.h, kept
    abstract: the sequence of the values its [operator()] returns, and how
    many of them were drawn. *)
Record xoshiro256ss := { outputs : nat -> Z; drawn : nat }.

(** [rand_()]: a [uint64_t]. *)
Definition rand_call (g : xoshiro256ss) : Z * xoshiro256ss :=
  (outputs g (drawn g) mod 2 ^ 64, {| outputs := outputs g; drawn := S (drawn g) |}).

(** [struct ElevatorSimulation], together with the fields of the task objects
    its pointers lead to. *)
Record Sim := {
  rand_ : xoshiro256ss;
  floor_ : Floor;
  d1_ : bool;   (* doors open AND people are getting in or out *)
  d2_ : bool;   (* active within the last 30 seconds *)
  d3_ : bool;   (* doors open BUT nobody is getting in or out *)
  state_ : Direction;
  callup_ : Z -> bool;      (* cells 0..4 *)
  calldown_ : Z -> bool;    (* cells 0..4 *)
  callcar_ : Z -> bool;     (* cells 0..4 *)
  wait_ : list Task;
  queue_ : Z -> list nat;   (* cells 0..4, UserTask handles *)
  elevator_ : list nat;
  nextinst_ : Task -> Z;    (* Task::nextinst_ of each object *)
  nexttime_ : Task -> Z;    (* Task::nexttime_ of each object *)
  in_ : nat -> Floor;       (* UserTask::in_ *)
  out_ : nat -> Floor;      (* UserTask::out_ *)
  users_ : nat              (* UserTask objects created so far *)
}.

Definition upd {A} (f : Z -> A) (i : Z) (v : A) : Z -> A :=
  fun j => if j =? i then v else f j.
Definition updT {A} (f : Task -> A) (t : Task) (v : A) : Task -> A :=
  fun q => if Task_eqb q t then v else f q.
Definition updN {A} (f : nat -> A) (i : nat) (v : A) : nat -> A :=
  fun j => if Nat.eqb j i then v else f j.

Definition set_rand v s := {| rand_ := v; floor_ := floor_ s; d1_ := d1_ s; d2_ := d2_ s; d3_ := d3_ s; state_ := state_ s; callup_ := callup_ s; calldown_ := calldown_ s; callcar_ := callcar_ s; wait_ := wait_ s; queue_ := queue_ s; elevator_ := elevator_ s; nextinst_ := nextinst_ s; nexttime_ := nexttime_ s; in_ := in_ s; out_ := out_ s; users_ := users_ s |}.
Definition set_floor v s := {| rand_ := rand_ s; floor_ := v; d1_ := d1_ s; d2_ := d2_ s; d3_ := d3_ s; state_ := state_ s; callup_ := callup_ s; calldown_ := calldown_ s; callcar_ := callcar_ s; wait_ := wait_ s; queue_ := queue_ s; elevator_ := elevator_ s; nextinst_ := nextinst_ s; nexttime_ := nexttime_ s; in_ := in_ s; out_ := out_ s; users_ := users_ s |}.
Definition set_d1 v s := {| rand_ := rand_ s; floor_ := floor_ s; d1_ := v; d2_ := d2_ s; d3_ := d3_ s; state_ := state_ s; callup_ := callup_ s; calldown_ := calldown_ s; callcar_ := callcar_ s; wait_ := wait_ s; queue_ := queue_ s; elevator_ := elevator_ s; nextinst_ := nextinst_ s; nexttime_ := nexttime_ s; in_ := in_ s; out_ := out_ s; users_ := users_ s |}.
Definition set_d2 v s := {| rand_ := rand_ s; floor_ := floor_ s; d1_ := d1_ s; d2_ := v; d3_ := d3_ s; state_ := state_ s; callup_ := callup_ s; calldown_ := calldown_ s; callcar_ := callcar_ s; wait_ := wait_ s; queue_ := queue_ s; elevator_ := elevator_ s; nextinst_ := nextinst_ s; nexttime_ := nexttime_ s; in_ := in_ s; out_ := out_ s; users_ := users_ s |}.
Definition set_d3 v s := {| rand_ := rand_ s; floor_ := floor_ s; d1_ := d1_ s; d2_ := d2_ s; d3_ := v; state_ := state_ s; callup_ := callup_ s; calldown_ := calldown_ s; callcar_ := callcar_ s; wait_ := wait_ s; queue_ := queue_ s; elevator_ := elevator_ s; nextinst_ := nextinst_ s; nexttime_ := nexttime_ s; in_ := in_ s; out_ := out_ s; users_ := users_ s |}.
Definition set_state v s := {| rand_ := rand_ s; floor_ := floor_ s; d1_ := d1_ s; d2_ := d2_ s; d3_ := d3_ s; state_ := v; callup_ := callup_ s; calldown_ := calldown_ s; callcar_ := callcar_ s; wait_ := wait_ s; queue_ := queue_ s; elevator_ := elevator_ s; nextinst_ := nextinst_ s; nexttime_ := nexttime_ s; in_ := in_ s; out_ := out_ s; users_ := users_ s |}.
Definition set_callup v s := {| rand_ := rand_ s; floor_ := floor_ s; d1_ := d1_ s; d2_ := d2_ s; d3_ := d3_ s; state_ := state_ s; callup_ := v; calldown_ := calldown_ s; callcar_ := callcar_ s; wait_ := wait_ s; queue_ := queue_ s; elevator_ := elevator_ s; nextinst_ := nextinst_ s; nexttime_ := nexttime_ s; in_ := in_ s; out_ := out_ s; users_ := users_ s |}.
Definition set_calldown v s := {| rand_ := rand_ s; floor_ := floor_ s; d1_ := d1_ s; d2_ := d2_ s; d3_ := d3_ s; state_ := state_ s; callup_ := callup_ s; calldown_ := v; callcar_ := callcar_ s; wait_ := wait_ s; queue_ := queue_ s; elevator_ := elevator_ s; nextinst_ := nextinst_ s; nexttime_ := nexttime_ s; in_ := in_ s; out_ := out_ s; users_ := users_ s |}.
Definition set_callcar v s := {| rand_ := rand_ s; floor_ := floor_ s; d1_ := d1_ s; d2_ := d2_ s; d3_ := d3_ s; state_ := state_ s; callup_ := callup_ s; calldown_ := calldown_ s; callcar_ := v; wait_ := wait_ s; queue_ := queue_ s; elevator_ := elevator_ s; nextinst_ := nextinst_ s; nexttime_ := nexttime_ s; in_ := in_ s; out_ := out_ s; users_ := users_ s |}.
Definition set_wait v s := {| rand_ := rand_ s; floor_ := floor_ s; d1_ := d1_ s; d2_ := d2_ s; d3_ := d3_ s; state_ := state_ s; callup_ := callup_ s; calldown_ := calldown_ s; callcar_ := callcar_ s; wait_ := v; queue_ := queue_ s; elevator_ := elevator_ s; nextinst_ := nextinst_ s; nexttime_ := nexttime_ s; in_ := in_ s; out_ := out_ s; users_ := users_ s |}.
Definition set_queue v s := {| rand_ := rand_ s; floor_ := floor_ s; d1_ := d1_ s; d2_ := d2_ s; d3_ := d3_ s; state_ := state_ s; callup_ := callup_ s; calldown_ := calldown_ s; callcar_ := callcar_ s; wait_ := wait_ s; queue_ := v; elevator_ := elevator_ s; nextinst_ := nextinst_ s; nexttime_ := nexttime_ s; in_ := in_ s; out_ := out_ s; users_ := users_ s |}.
Definition set_elevator v s := {| rand_ := rand_ s; floor_ := floor_ s; d1_ := d1_ s; d2_ := d2_ s; d3_ := d3_ s; state_ := state_ s; callup_ := callup_ s; calldown_ := calldown_ s; callcar_ := callcar_ s; wait_ := wait_ s; queue_ := queue_ s; elevator_ := v; nextinst_ := nextinst_ s; nexttime_ := nexttime_ s; in_ := in_ s; out_ := out_ s; users_ := users_ s |}.
Definition set_nextinst v s := {| rand_ := rand_ s; floor_ := floor_ s; d1_ := d1_ s; d2_ := d2_ s; d3_ := d3_ s; state_ := state_ s; callup_ := callup_ s; calldown_ := calldown_ s; callcar_ := callcar_ s; wait_ := wait_ s; queue_ := queue_ s; elevator_ := elevator_ s; nextinst_ := v; nexttime_ := nexttime_ s; in_ := in_ s; out_ := out_ s; users_ := users_ s |}.
Definition set_nexttime v s := {| rand_ := rand_ s; floor_ := floor_ s; d1_ := d1_ s; d2_ := d2_ s; d3_ := d3_ s; state_ := state_ s; callup_ := callup_ s; calldown_ := calldown_ s; callcar_ := callcar_ s; wait_ := wait_ s; queue_ := queue_ s; elevator_ := elevator_ s; nextinst_ := nextinst_ s; nexttime_ := v; in_ := in_ s; out_ := out_ s; users_ := users_ s |}.
Definition set_in v s := {| rand_ := rand_ s; floor_ := floor_ s; d1_ := d1_ s; d2_ := d2_ s; d3_ := d3_ s; state_ := state_ s; callup_ := callup_ s; calldown_ := calldown_ s; callcar_ := callcar_ s; wait_ := wait_ s; queue_ := queue_ s; elevator_ := elevator_ s; nextinst_ := nextinst_ s; nexttime_ := nexttime_ s; in_ := v; out_ := out_ s; users_ := users_ s |}.
Definition set_out v s := {| rand_ := rand_ s; floor_ := floor_ s; d1_ := d1_ s; d2_ := d2_ s; d3_ := d3_ s; state_ := state_ s; callup_ := callup_ s; calldown_ := calldown_ s; callcar_ := callcar_ s; wait_ := wait_ s; queue_ := queue_ s; elevator_ := elevator_ s; nextinst_ := nextinst_ s; nexttime_ := nexttime_ s; in_ := in_ s; out_ := v; users_ := users_ s |}.
Definition set_users v s := {| rand_ := rand_ s; floor_ := floor_ s; d1_ := d1_ s; d2_ := d2_ s; d3_ := d3_ s; state_ := state_ s; callup_ := callup_ s; calldown_ := calldown_ s; callcar_ := callcar_ s; wait_ := wait_ s; queue_ := queue_ s; elevator_ := elevator_ s; nextinst_ := nextinst_ s; nexttime_ := nexttime_ s; in_ := in_ s; out_ := out_ s; users_ := v |}.

(** The durations, data members with default initialisers that nothing
    changes. *)
Definition durationBeforeRapidDoorClose : Duration := 25.
Definition durationBeforeInactivity : Duration := 300.
Definition durationBeforeDoorClose : Duration := 76.
Definition durationOfDoorOpen : Duration := 20.
Definition durationOfLeaving : Duration := 25.
Definition durationOfEntering : Duration := 25.
Definition delayAfterDoorFlutter : Duration := 40.
Definition durationOfDoorClose : Duration := 20.
Definition durationOfUpwardAcceleration : Duration := 15.
Definition durationOfDownwardAcceleration : Duration := 15.
Definition durationOfDoorOpenFromDecisionSubroutine : Duration := 20.
Definition delayBeforeHoming : Duration := 20.
Definition durationOfUpwardTravel : Duration := 51.
Definition durationOfUpwardDeceleration : Duration := 14.
Definition durationOfDownwardTravel : Duration := 61.
Definition durationOfDownwardDeceleration : Duration := 23.

(** ** The monad of transitions *)

Inductive Failure :=
| AssertionFailed (line : Z)   (* [assert] at that line of the source *)
| OutOfBounds.                 (* index outside 0..4 *)

Inductive Res (A : Type) := Ok (a : A) | Abort (f : Failure).
Arguments Ok {A} a.
Arguments Abort {A} f.

Definition M (A : Type) := Sim -> Res (A * Sim).

Definition ret {A} (a : A) : M A := fun s => Ok (a, s).
Definition bind {A B} (m : M A) (k : A -> M B) : M B :=
  fun s => match m s with
           | Ok (a, s') => k a s'
           | Abort f => Abort f
           end.

Declare Scope sim_scope.
Delimit Scope sim_scope with sim.
Notation "x <- m ;; k" := (bind m (fun x => k))
  (at level 61, m at next level, right associativity) : sim_scope.
Notation "m ;; k" := (bind m (fun _ => k))
  (at level 61, right associativity) : sim_scope.
Local Open Scope sim_scope.

Definition get {A} (f : Sim -> A) : M A := fun s => Ok (f s, s).
Definition modify (f : Sim -> Sim) : M unit := fun s => Ok (tt, f s).
Definition assert (line : Z) (b : bool) : M unit :=
  fun s => if b then Ok (tt, s) else Abort (AssertionFailed line).
Definition check_index (i : Z) : M unit :=
  fun s => if (0 <=? i) && (i <? 5) then Ok (tt, s) else Abort OutOfBounds.
Definition when (b : bool) (m : M unit) : M unit := if b then m else ret tt.

(** ** Event scheduler *)

Section Containers.
Context {A : Type} (eqb : A -> A -> bool).

(** [std::count] *)
Fixpoint std_count (ctr : list A) (value : A) : Z :=
  match ctr with
  | [] => 0
  | x :: l => (if eqb x value then 1 else 0) + std_count l value
  end.

(** [ctr.erase(std::find(ctr.begin(), ctr.end(), value))]: the first
    occurrence goes, if there is one. *)
Fixpoint erase_first (ctr : list A) (value : A) : list A :=
  match ctr with
  | [] => []
  | x :: l => if eqb x value then l else x :: erase_first l value
  end.

(** [std_erase], lines 11-19. *)
Definition std_erase (ctr : list A) (value : A) : Res (list A) :=
  if std_count ctr value <=? 1 then Ok (erase_first ctr value)
  else Abort (AssertionFailed 14).

(** [std::stable_sort] with a strict comparison [lt]: the sorted
    arrangement in which equivalent elements keep their order.  Each
    element is put in front of the first one that is not smaller. *)
Fixpoint stable_insert (lt : A -> A -> bool) (x : A) (l : list A) : list A :=
  match l with
  | [] => [x]
  | y :: l' => if lt y x then y :: stable_insert lt x l' else x :: y :: l'
  end.

Fixpoint stable_sort (lt : A -> A -> bool) (l : list A) : list A :=
  match l with
  | [] => []
  | x :: l' => stable_insert lt x (stable_sort lt l')
  end.

(** [std::is_sorted]: no element is smaller than its predecessor. *)
Fixpoint is_sorted (lt : A -> A -> bool) (l : list A) : bool :=
  match l with
  | [] => true
  | x :: l' =>
      match l' with
      | [] => true
      | y :: _ => negb (lt y x) && is_sorted lt l'
      end
  end.
End Containers.

(** [Task::ByNextTime] *)
Definition ByNextTime (sim : Sim) (p q : Task) : bool :=
  nexttime_ sim p <? nexttime_ sim q.

(** [std_erase(wait_, t)] *)
Definition erase_wait (t : Task) : M unit :=
  fun s => match std_erase Task_eqb (wait_ s) t with
           | Ok w => Ok (tt, set_wait w s)
           | Abort f => Abort f
           end.

(** [schedule], lines 190-196. *)
Definition schedule (t : Task) (step : Z) (when_ : Time) : M unit :=
  modify (fun s => set_nextinst (updT (nextinst_ s) t step) s) ;;
  modify (fun s => set_nexttime (updT (nexttime_ s) t when_) s) ;;
  erase_wait t ;;
  modify (fun s => set_wait (wait_ s ++ [t]) s) ;;
  modify (fun s => set_wait (stable_sort (ByNextTime s) (wait_ s)) s).

(** [schedule_immediately], lines 198-204. *)
Definition schedule_immediately (t : Task) (step : Z) (when_ : Time) : M unit :=
  modify (fun s => set_nextinst (updT (nextinst_ s) t step) s) ;;
  modify (fun s => set_nexttime (updT (nexttime_ s) t when_) s) ;;
  erase_wait t ;;
  modify (fun s => set_wait (t :: wait_ s) s) ;;
  sim <- get (fun s => s) ;;
  assert 203 (is_sorted (ByNextTime sim) (wait_ sim)).

(** [cancel], lines 206-208. *)
Definition cancel (t : Task) : M unit := erase_wait t.

(** ** Arrival generator *)

Module NewUserInfo.
Record t := {
  in_ : Floor;            (* floor on which this user enters *)
  out_ : Floor;           (* this user's destination floor *)
  giveuptime_ : Duration; (* amount of time this user will wait *)
  intertime_ : Duration   (* amount of time before next user arrives *)
}.
End NewUserInfo.

(** The lambda [random_between] of [createNewUser]. *)
Definition random_between (lo hi : Z) : M Z :=
  fun s => let (r, g) := rand_call (rand_ s) in
           Ok (lo + r mod (1 + hi - lo), set_rand g s).

(** [createNewUser], lines 162-188. *)
Definition createNewUser : M NewUserInfo.t :=
  i <- random_between 0 4 ;;
  r <- random_between 1 4 ;;
  let o := (i + r) mod 5 in
  giveup <- random_between 300 1200 ;;
  intertime <- random_between 10 900 ;;
  ret {| NewUserInfo.in_ := i; NewUserInfo.out_ := o;
         NewUserInfo.giveuptime_ := giveup; NewUserInfo.intertime_ := intertime |}.

(** [std::make_shared<UserTask>()]: a new object, value-initialised, with
    [nextinst_ = 1] and [nexttime_ = -1] from the member initialisers. *)
Definition make_shared_UserTask : M nat :=
  fun s =>
    let u := users_ s in
    Ok (u, set_users (S u)
             (set_out (updN (out_ s) u 0)
             (set_in (updN (in_ s) u 0)
             (set_nexttime (updT (nexttime_ s) (usertask u) (-1))
             (set_nextinst (updT (nextinst_ s) (usertask u) 1) s))))).

(** ** Decision subroutine *)

Definition any_call (sim : Sim) (j : Z) : bool :=
  callup_ sim j || calldown_ sim j || callcar_ sim j.

(** The loop of step D3 over the floors [js] still to visit. *)
Fixpoint D3_loop (sim : Sim) (js : list Z) (jj : Z) : Z :=
  match js with
  | [] => jj
  | j :: js' =>
      if j =? floor_ sim then D3_loop sim js' jj
      else if any_call sim j then j
      else D3_loop sim js' jj
  end.

Definition floors : list Z := [0; 1; 2; 3; 4].

(** [decision], lines 210-239. *)
Definition decision (now : Time) (fromE6 : bool) : M unit :=
  fun sim =>
    (* D1. Decision necessary? *)
    if negb (Direction_eqb (state_ sim) Neutral) then ret tt sim
    (* D2. Should doors open? *)
    else if (nextinst_ sim elevatortask =? 1) && any_call sim 2 then
      schedule elevatortask 3 (now + durationOfDoorOpenFromDecisionSubroutine) sim
    else
      (* D3. Any calls? *)
      let jj := D3_loop sim floors (if fromE6 then 2 else -1) in
      if negb (jj =? -1) then
        (* D4. Set STATE. *)
        (modify (set_state (if jj <? floor_ sim then GoingDown
                            else if jj >? floor_ sim then GoingUp else Neutral)) ;;
         (* D5. Elevator dormant? *)
         when ((nextinst_ sim elevatortask =? 1) && negb (jj =? 2))
              (schedule elevatortask 6 (now + delayBeforeHoming))) sim
      else ret tt sim.

(** ** Rider state machine *)

(** The lambda [elevator_is_available] of the default build. *)
Definition elevator_is_available (sim : Sim) (i o : Floor) : bool :=
  floor_ sim =? i.

(** Step U2 of [UserTask::resume], lines 261-278: signal and wait. *)
Definition U2 (now : Time) (i o : Floor) : M unit :=
  assert 262 (negb (i =? o)) ;;
  sim <- get (fun s => s) ;;
  if elevator_is_available sim i o && (nextinst_ sim elevatortask =? 6) then
    schedule_immediately elevatortask 3 now
  else if elevator_is_available sim i o && d3_ sim then
    modify (set_d3 false) ;;
    modify (set_d1 true) ;;
    schedule_immediately elevatortask 4 now
  else
    check_index i ;;
    (if i <? o then modify (fun s => set_callup (upd (callup_ s) i true) s)
     else modify (fun s => set_calldown (upd (calldown_ s) i true) s)) ;;
    when (negb (d2_ sim) || (nextinst_ sim elevatortask =? 1))
         (decision now false).

(** Step U3, lines 279-287: enter queue. *)
Definition U3 (me : nat) (now : Time) (i o : Floor) (giveuptime : Duration) : M unit :=
  modify (fun s => set_in (updN (in_ s) me i) s) ;;
  modify (fun s => set_out (updN (out_ s) me o) s) ;;
  check_index i ;;
  modify (fun s => set_queue (upd (queue_ s) i (queue_ s i ++ [me])) s) ;;
  schedule (usertask me) 4 (now + giveuptime).

(** Step U1, lines 257-260 (enter, prepare for successor), which runs
    into U2 and U3. *)
Definition U1 (me : nat) (now : Time) : M unit :=
  info <- createNewUser ;;
  t <- make_shared_UserTask ;;
  schedule (usertask t) 1 (now + NewUserInfo.intertime_ info) ;;
  U2 now (NewUserInfo.in_ info) (NewUserInfo.out_ info) ;;
  U3 me now (NewUserInfo.in_ info) (NewUserInfo.out_ info)
     (NewUserInfo.giveuptime_ info).

(** [std_erase(sim.queue_[f], me)] *)
Definition erase_queue (f : Floor) (me : nat) : M unit :=
  check_index f ;;
  fun s => match std_erase Nat.eqb (queue_ s f) me with
           | Ok q => Ok (tt, set_queue (upd (queue_ s) f q) s)
           | Abort e => Abort e
           end.

(** [std_erase(sim.elevator_, me)] *)
Definition erase_elevator (me : nat) : M unit :=
  fun s => match std_erase Nat.eqb (elevator_ s) me with
           | Ok l => Ok (tt, set_elevator l s)
           | Abort e => Abort e
           end.

(** Step U4, lines 289-299. *)
Definition U4 (me : nat) : M unit :=
  sim <- get (fun s => s) ;;
  when (negb (elevator_is_available sim (in_ sim me) (out_ sim me)) || negb (d1_ sim))
       (erase_queue (in_ sim me) me).

(** Step U5, lines 300-316. *)
Definition U5 (me : nat) (now : Time) : M unit :=
  sim <- get (fun s => s) ;;
  erase_queue (in_ sim me) me ;;
  modify (fun s => set_elevator (me :: elevator_ s) s) ;;
  check_index (out_ sim me) ;;
  modify (fun s => set_callcar (upd (callcar_ s) (out_ sim me) true) s) ;;
  when (Direction_eqb (state_ sim) Neutral)
       (modify (set_state (if in_ sim me <? out_ sim me then GoingUp else GoingDown)) ;;
        schedule e5task 5 (now + durationBeforeRapidDoorClose)).

(** Step U6, lines 317-331. *)
Definition U6 (me : nat) : M unit := erase_elevator me.

(** [UserTask::resume], lines 243-333: a [switch] without [default]. *)
Definition UserTask_resume (me : nat) : M unit :=
  now <- get (fun s => nexttime_ s (usertask me)) ;;
  inst <- get (fun s => nextinst_ s (usertask me)) ;;
  if inst =? 1 then U1 me now
  else if inst =? 4 then U4 me
  else if inst =? 5 then U5 me now
  else if inst =? 6 then U6 me
  else ret tt.

(** ** Elevator state machine *)

(** The four flags the loops of E2, E7 and E8 compute. *)
Record Wants := {
  passenger_wants_up : bool;
  passenger_wants_down : bool;
  waiter_wants_up : bool;
  waiter_wants_down : bool
}.

(** One turn of the loop [for (int j=0; j < 5; ++j)] of lines 351-360
    (the same loop is at 450-459 and 484-493). *)
Definition wants_step (sim : Sim) (w : Wants) (j : Z) : Wants :=
  if negb (j =? floor_ sim) then
    let w1 :=
      if callcar_ sim j then
        if j >? floor_ sim
        then {| passenger_wants_up := true; passenger_wants_down := passenger_wants_down w;
                waiter_wants_up := waiter_wants_up w; waiter_wants_down := waiter_wants_down w |}
        else {| passenger_wants_up := passenger_wants_up w; passenger_wants_down := true;
                waiter_wants_up := waiter_wants_up w; waiter_wants_down := waiter_wants_down w |}
      else w in
    if callup_ sim j || calldown_ sim j then
      if j >? floor_ sim
      then {| passenger_wants_up := passenger_wants_up w1; passenger_wants_down := passenger_wants_down w1;
              waiter_wants_up := true; waiter_wants_down := waiter_wants_down w1 |}
      else {| passenger_wants_up := passenger_wants_up w1; passenger_wants_down := passenger_wants_down w1;
              waiter_wants_up := waiter_wants_up w1; waiter_wants_down := true |}
    else w1
  else w.

Definition no_wants : Wants :=
  {| passenger_wants_up := false; passenger_wants_down := false;
     waiter_wants_up := false; waiter_wants_down := false |}.

Definition scan_calls (sim : Sim) : Wants :=
  fold_left (wants_step sim) floors no_wants.

(** Step E2 up to its [goto caseE3], lines 345-366: the new [state_]. *)
Definition E2_state (sim : Sim) : Direction :=
  let w := scan_calls sim in
  if Direction_eqb (state_ sim) GoingUp
     && negb (passenger_wants_up w || waiter_wants_up w) then
    if passenger_wants_down w then GoingDown else Neutral
  else if Direction_eqb (state_ sim) GoingDown
          && negb (passenger_wants_down w || waiter_wants_down w) then
    if passenger_wants_up w then GoingUp else Neutral
  else state_ sim.

(** Step E3, lines 368-381. *)
Definition E3 (now : Time) : M unit :=
  modify (set_d1 true) ;;
  modify (set_d2 true) ;;
  schedule e9task 9 (now + durationBeforeInactivity) ;;
  schedule e5task 5 (now + durationBeforeDoorClose) ;;
  schedule elevatortask 4 (now + durationOfDoorOpen).

(** Step E2, which runs into E3. *)
Definition E2 (now : Time) : M unit :=
  modify (fun s => set_state (E2_state s) s) ;;
  E3 now.

(** Step E4, lines 382-408.  The predicate of the search for [enterer] is
    constantly true in the default build. *)
Definition E4 (now : Time) : M unit :=
  sim <- get (fun s => s) ;;
  assert 384 (d1_ sim) ;;
  let leaver := find (fun p => out_ sim p =? floor_ sim) (elevator_ sim) in
  check_index (floor_ sim) ;;
  let enterer := find (fun _ => true) (queue_ sim (floor_ sim)) in
  match leaver with
  | Some p =>
      schedule_immediately (usertask p) 6 now ;;
      schedule elevatortask 4 (now + durationOfLeaving)
  | None =>
      match enterer with
      | Some p =>
          assert 400 (nextinst_ sim (usertask p) =? 4) ;;
          schedule_immediately (usertask p) 5 now ;;
          schedule elevatortask 4 (now + durationOfEntering)
      | None =>
          modify (set_d1 false) ;;
          modify (set_d3 true)
      end
  end.

(** Step E6, lines 409-435. *)
Definition E6 (now : Time) : M unit :=
  sim <- get (fun s => s) ;;
  assert 411 (negb (d1_ sim)) ;;
  check_index (floor_ sim) ;;
  modify (fun s => set_callcar (upd (callcar_ s) (floor_ s) false) s) ;;
  when (negb (Direction_eqb (state_ sim) GoingDown))
       (modify (fun s => set_callup (upd (callup_ s) (floor_ s) false) s)) ;;
  when (negb (Direction_eqb (state_ sim) GoingUp))
       (modify (fun s => set_calldown (upd (calldown_ s) (floor_ s) false) s)) ;;
  decision now true ;;
  sim <- get (fun s => s) ;;
  if Direction_eqb (state_ sim) Neutral then
    assert 421 (floor_ sim =? 2) ;;
    assert 422 (negb (existsb (Task_eqb elevatortask) (wait_ sim))) ;;
    schedule_immediately elevatortask 1 now
  else
    when (d2_ sim) (cancel e9task) ;;
    if Direction_eqb (state_ sim) GoingUp then
      schedule elevatortask 7 (now + durationOfUpwardAcceleration)
    else
      schedule elevatortask 8 (now + durationOfDownwardAcceleration).

(** Step E7, lines 436-443. *)
Definition E7 (now : Time) : M unit :=
  sim <- get (fun s => s) ;;
  assert 438 (negb (d1_ sim)) ;;
  assert 439 (floor_ sim <? 4) ;;
  modify (fun s => set_floor (floor_ s + 1) s) ;;
  schedule elevatortask 71 (now + durationOfUpwardTravel).

(** Step E7 continued, lines 444-469. *)
Definition E71 (now : Time) : M unit :=
  sim <- get (fun s => s) ;;
  let w := scan_calls sim in
  check_index (floor_ sim) ;;
  let should_stop_here :=
    callcar_ sim (floor_ sim) || callup_ sim (floor_ sim)
    || (((floor_ sim =? 2) || calldown_ sim (floor_ sim))
        && negb (passenger_wants_up w || waiter_wants_up w)) in
  if should_stop_here then
    schedule elevatortask 2 (now + durationOfUpwardDeceleration)
  else
    schedule_immediately elevatortask 7 now.

(** Step E8, lines 470-477. *)
Definition E8 (now : Time) : M unit :=
  sim <- get (fun s => s) ;;
  assert 472 (negb (d1_ sim)) ;;
  assert 473 (floor_ sim >? 0) ;;
  modify (fun s => set_floor (floor_ s - 1) s) ;;
  schedule elevatortask 81 (now + durationOfDownwardTravel).

(** Step E8 continued, lines 478-503. *)
Definition E81 (now : Time) : M unit :=
  sim <- get (fun s => s) ;;
  let w := scan_calls sim in
  check_index (floor_ sim) ;;
  let should_stop_here :=
    callcar_ sim (floor_ sim) || calldown_ sim (floor_ sim)
    || (((floor_ sim =? 2) || callup_ sim (floor_ sim))
        && negb (passenger_wants_down w || waiter_wants_down w)) in
  if should_stop_here then
    schedule elevatortask 2 (now + durationOfDownwardDeceleration)
  else
    schedule_immediately elevatortask 8 now.

(** [ElevatorTask::resume], lines 335-508.  Its first assertion,
    [me == sim.elevatortask_], holds by the dispatch on the handle. *)
Definition ElevatorTask_resume : M unit :=
  now <- get (fun s => nexttime_ s elevatortask) ;;
  inst <- get (fun s => nextinst_ s elevatortask) ;;
  if inst =? 1 then
    (* E1. Wait for call. *)
    sim <- get (fun s => s) ;;
    assert 342 (floor_ sim =? 2)
  else if inst =? 2 then E2 now
  else if inst =? 3 then E3 now
  else if inst =? 4 then E4 now
  else if inst =? 6 then E6 now
  else if inst =? 7 then E7 now
  else if inst =? 71 then E71 now
  else if inst =? 8 then E8 now
  else if inst =? 81 then E81 now
  else assert 505 false.

(** [E5Task::resume], lines 510-523. *)
Definition E5Task_resume : M unit :=
  now <- get (fun s => nexttime_ s e5task) ;;
  inst <- get (fun s => nextinst_ s e5task) ;;
  assert 514 (inst =? 5) ;;
  (* E5. Close doors. *)
  sim <- get (fun s => s) ;;
  if d1_ sim then
    schedule e5task 5 (now + delayAfterDoorFlutter)
  else
    modify (set_d3 false) ;;
    schedule elevatortask 6 (now + durationOfDoorClose).

(** [E9Task::resume], lines 525-534. *)
Definition E9Task_resume : M unit :=
  now <- get (fun s => nexttime_ s e9task) ;;
  inst <- get (fun s => nextinst_ s e9task) ;;
  assert 529 (inst =? 9) ;;
  (* E9. Set inaction indicator. *)
  modify (set_d2 false) ;;
  decision now false.

(** The virtual call of [resume] through the handle [t]. *)
Definition resume (t : Task) : M unit :=
  match t with
  | elevatortask => ElevatorTask_resume
  | e5task => E5Task_resume
  | e9task => E9Task_resume
  | usertask me => UserTask_resume me
  end.

(** ** Simulation driver *)

(** A line of the event log: what the [printf] of [runUntil] is given. *)
Record LogLine := {
  log_time : Time;
  log_state : Direction;
  log_floor : Floor;
  log_d1 : bool;
  log_d2 : bool;
  log_d3 : bool;
  log_task : Task;
  log_inst : Z
}.

(** The members as their default initialisers leave them, before the body of
    the constructor runs. *)
Definition members_default (g : xoshiro256ss) : Sim :=
  {| rand_ := g; floor_ := 2; d1_ := false; d2_ := false; d3_ := false;
     state_ := Neutral;
     callup_ := fun _ => false; calldown_ := fun _ => false; callcar_ := fun _ => false;
     wait_ := []; queue_ := fun _ => []; elevator_ := [];
     nextinst_ := fun _ => 1; nexttime_ := fun _ => -1;
     in_ := fun _ => 0; out_ := fun _ => 0; users_ := 0 |}.

(** The constructor, lines 122-126. *)
Definition ElevatorSimulation_ctor : M unit :=
  t <- make_shared_UserTask ;;
  let time_zero := 0 in
  schedule (usertask t) 1 time_zero.

(** One turn of the loop of [runUntil], lines 129-152: [None] when the
    function returns, the line printed otherwise. *)
Definition runUntil_turn (deadline : Time) : M (option LogLine) :=
  sim <- get (fun s => s) ;;
  assert 130 (negb (match wait_ sim with [] => true | _ => false end)) ;;
  match wait_ sim with
  | [] => ret None
  | t :: rest =>
      if nexttime_ sim t >=? deadline then ret None
      else
        modify (set_wait rest) ;;
        let line := {| log_time := nexttime_ sim t; log_state := state_ sim;
                       log_floor := floor_ sim; log_d1 := d1_ sim;
                       log_d2 := d2_ sim; log_d3 := d3_ sim;
                       log_task := t; log_inst := nextinst_ sim t |} in
        resume t ;;
        ret (Some line)
  end.

(** [runUntil]: the loop, for at most [fuel] turns.  [None] when the turns
    are used up before the function returns. *)
Fixpoint runUntil (fuel : nat) (deadline : Time) (log : list LogLine)
  : Sim -> option (Res (list LogLine * Sim)) :=
  fun s =>
    match fuel with
    | O => None
    | S fuel' =>
        match runUntil_turn deadline s with
        | Abort f => Some (Abort f)
        | Ok (None, s') => Some (Ok (log, s'))
        | Ok (Some line, s') => runUntil fuel' deadline (log ++ [line]) s'
        end
    end.

(** ** Program entry *)

Definition is_space (c : ascii) : bool :=
  let n := nat_of_ascii c in
  (Nat.eqb n 32 || (Nat.leb 9 n && Nat.leb n 13))%bool.

Definition digit_of (c : ascii) : option Z :=
  let n := nat_of_ascii c in
  if (Nat.leb 48 n && Nat.leb n 57)%bool then Some (Z.of_nat n - 48) else None.

Fixpoint skip_spaces (s : string) : string :=
  match s with
  | String c s' => if is_space c then skip_spaces s' else s
  | EmptyString => s
  end.

Fixpoint digits_value (acc : Z) (s : string) : Z :=
  match s with
  | String c s' =>
      match digit_of c with
      | Some d => digits_value (10 * acc + d) s'
      | None => acc
      end
  | EmptyString => acc
  end.

(** [atoi] of the C library: blanks, an optional sign, then the longest run
    of decimal digits; 0 when there is none.  The value is the mathematical
    one: the C function has a defined result only when it is a value of
    [int]. *)
Definition atoi (s : string) : Z :=
  match skip_spaces s with
  | String "-" s' => - digits_value 0 s'
  | String "+" s' => digits_value 0 s'
  | s' => digits_value 0 s'
  end.

(** What a run of the program leaves behind: the exit status and the lines
    written, or the abort of a failed assertion. *)
Inductive Exit :=
| Exited (status : Z) (log : list LogLine)
| Aborted (f : Failure).

(** [main], lines 537-542, on the arguments [argv] (the program name
    first), with [fuel] turns of the driver's loop. *)
Definition main (g : xoshiro256ss) (fuel : nat) (argv : list string) : option Exit :=
  match ElevatorSimulation_ctor (members_default g) with
  | Abort f => Some (Aborted f)
  | Ok (_, sim) =>
      let deadline :=
        if (2 <=? Z.of_nat (List.length argv)) then atoi (nth 1%nat argv EmptyString)
        else 36000 in
      match runUntil fuel deadline [] sim with
      | None => None
      | Some (Abort f) => Some (Aborted f)
      | Some (Ok (log, _)) => Some (Exited 0 log)
      end
  end.

(** ** The printed line *)

(** [std::to_string(int)]: the decimal digits, after a minus sign for a
    negative number. *)
Definition to_string (z : Z) : string := NilZero.string_of_int (Z.to_int z).

(** [stateStr] of the four classes of tasks, lines 43-79. *)
Definition stateStr (t : Task) (nextinst : Z) : string :=
  match t with
  | elevatortask => String.append "E" (to_string nextinst)
  | e5task => "E5"
  | e9task => "E9"
  | usertask _ => String.append "U" (to_string nextinst)
  end.

Fixpoint zeros (n : nat) : string :=
  match n with
  | O => EmptyString
  | S n' => String "0" (zeros n')
  end.

(** The conversion [%04d] of [printf]: at least four characters, zeros
    between the sign and the digits. *)
Definition print_04d (z : Z) : string :=
  let digits := to_string (Z.abs z) in
  let sign := if z <? 0 then String "-" EmptyString else EmptyString in
  String.append sign
    (String.append
       (zeros (4 - String.length sign - String.length digits)) digits).

Definition state_char (d : Direction) : ascii :=
  match d with
  | Neutral => "N"
  | GoingUp => "U"
  | GoingDown => "D"
  end%char.

(** ["0X"[int(b)]] *)
Definition flag_char (b : bool) : ascii := if b then "X"%char else "0"%char.

(** The [printf] of [runUntil], lines 136-138, with the format
    [%04d %c %d %c %c %c %s] and a newline. *)
Definition print_line (l : LogLine) : string :=
  String.append (print_04d (log_time l))
    (String " " (String (state_char (log_state l))
    (String " " (String.append (to_string (log_floor l))
    (String " " (String (flag_char (log_d1 l))
    (String " " (String (flag_char (log_d2 l))
    (String " " (String (flag_char (log_d3 l))
    (String " " (String.append (stateStr (log_task l) (log_inst l))
    (String "010" EmptyString))))))))))))).

(** * Vocabulary of the statements *)

(** A sequence in the order of a key [tm]: every element's key is at most
    the keys of the elements after it. *)
Fixpoint sorted {A} (tm : A -> Z) (l : list A) : Prop :=
  match l with
  | [] => True
  | x :: l' => Forall (fun y => tm x <= tm y) l' /\ sorted tm l'
  end.

Definition wp {A} (m : M A) (Q : A -> Sim -> Prop) (s : Sim) : Prop :=
  match m s with
  | Ok (a, s') => Q a s'
  | Abort _ => False
  end.

(** The pending sequence after [schedule]: the old entry of [t] erased, [t]
    appended, the whole sorted by the times [tm]. *)
Definition sched_wait (tm : Task -> Z) (t : Task) (w : list Task) : list Task :=
  stable_sort (fun p q => tm p <? tm q) (erase_first Task_eqb w t ++ [t]).

Definition after_schedule (t : Task) (step : Z) (when_ : Time) (s : Sim) : Sim :=
  set_wait (sched_wait (updT (nexttime_ s) t when_) t (wait_ s))
    (set_nexttime (updT (nexttime_ s) t when_)
       (set_nextinst (updT (nextinst_ s) t step) s)).

Definition after_immediately (t : Task) (step : Z) (when_ : Time) (s : Sim) : Sim :=
  set_wait (t :: erase_first Task_eqb (wait_ s) t)
    (set_nexttime (updT (nexttime_ s) t when_)
       (set_nextinst (updT (nextinst_ s) t step) s)).

Definition after_cancel (t : Task) (s : Sim) : Sim :=
  set_wait (erase_first Task_eqb (wait_ s) t) s.

(** What the scheduler needs of the pending sequence [w] under the times
    [tm], while the task that fired at [now] runs: no task twice, ordered by
    time, nothing due before [now]. *)
Definition WQ (now : Time) (tm : Task -> Z) (w : list Task) : Prop :=
  NoDup w /\ sorted tm w /\ Forall (fun y => now <= tm y) w.

Definition call_above (s : Sim) (f : Z) : Prop :=
  exists j, 0 <= j <= 4 /\ f < j /\ any_call s j = true.
Definition call_below (s : Sim) (f : Z) : Prop :=
  exists j, 0 <= j <= 4 /\ j < f /\ any_call s j = true.

(** The resume point of the car. *)
Definition ei (s : Sim) : Z := nextinst_ s elevatortask.

(** There is a reason to go up (down) from where the car is: a call further
    on, or the home floor 2. *)
Definition up_ok (s : Sim) : Prop := call_above s (floor_ s) \/ floor_ s < 2.
Definition down_ok (s : Sim) : Prop := call_below s (floor_ s) \/ 2 < floor_ s.

(** The car, its doors and the two monitors. *)
Record Car (s : Sim) : Prop := {
  car_ei : In (ei s) [1; 2; 3; 4; 6; 7; 71; 8; 81];
  car_e5 : In e5task (wait_ s) -> nextinst_ s e5task = 5 /\ ei s = 4;
  car_e9 : In e9task (wait_ s) -> nextinst_ s e9task = 9;
  car_floor : 0 <= floor_ s <= 4;
  car_idle : ei s = 1 -> floor_ s = 2;
  car_E7 : ei s = 7 -> up_ok s;
  car_E71 : ei s = 71 -> call_above s (floor_ s - 1) \/ floor_ s <= 2;
  car_E8 : ei s = 8 -> down_ok s;
  car_E81 : ei s = 81 -> call_below s (floor_ s + 1) \/ 2 <= floor_ s;
  car_dir : ei s = 3 \/ ei s = 4 \/ ei s = 6 ->
            (state_ s = GoingUp -> up_ok s) /\ (state_ s = GoingDown -> down_ok s);
  car_d1 : d1_ s = true <-> ei s = 4 /\ In elevatortask (wait_ s);
  car_d3 : d3_ s = true -> ei s = 4 /\ d1_ s = false
}.

(** The riders while a task other than a boarding or leaving rider runs:
    the pending ones are the next arrival, not yet entered, and riders
    waiting on a floor. *)
Record RidersMid (s : Sim) : Prop := {
  mid_pending : forall u, In (usertask u) (wait_ s) ->
      (S u = users_ s /\ nextinst_ s (usertask u) = 1)
      \/ ((S u < users_ s)%nat /\ nextinst_ s (usertask u) = 4);
  mid_queue : forall f u, In u (queue_ s f) ->
      (S u < users_ s)%nat /\ in_ s u = f /\ nextinst_ s (usertask u) = 4;
  mid_elevator : forall u, In u (elevator_ s) ->
      (S u < users_ s)%nat /\ forall f, ~ In u (queue_ s f);
  mid_fields : forall u, (S u < users_ s)%nat ->
      0 <= in_ s u <= 4 /\ 0 <= out_ s u <= 4 /\ in_ s u <> out_ s u;
  mid_nodup_queue : forall f, NoDup (queue_ s f);
  mid_nodup_elevator : NoDup (elevator_ s)
}.

(** The riders between two firings: a rider the car has just told to get in
    (5) or out (6) is next to run. *)
Record Riders (s : Sim) : Prop := {
  rid_arrival : exists n, users_ s = S n /\ In (usertask n) (wait_ s);
  rid_pending : forall u, In (usertask u) (wait_ s) ->
      (S u = users_ s /\ nextinst_ s (usertask u) = 1)
      \/ ((S u < users_ s)%nat
          /\ (nextinst_ s (usertask u) = 4
              \/ (nextinst_ s (usertask u) = 5
                  /\ hd_error (wait_ s) = Some (usertask u)
                  /\ In u (queue_ s (floor_ s)) /\ ei s = 4)
              \/ (nextinst_ s (usertask u) = 6
                  /\ hd_error (wait_ s) = Some (usertask u))));
  rid_queue : forall f u, In u (queue_ s f) ->
      (S u < users_ s)%nat /\ in_ s u = f
      /\ (nextinst_ s (usertask u) = 4
          \/ (nextinst_ s (usertask u) = 5 /\ hd_error (wait_ s) = Some (usertask u)));
  rid_elevator : forall u, In u (elevator_ s) ->
      (S u < users_ s)%nat /\ forall f, ~ In u (queue_ s f);
  rid_fields : forall u, (S u < users_ s)%nat ->
      0 <= in_ s u <= 4 /\ 0 <= out_ s u <= 4 /\ in_ s u <> out_ s u;
  rid_nodup_queue : forall f, NoDup (queue_ s f);
  rid_nodup_elevator : NoDup (elevator_ s)
}.

Record Inv (s : Sim) : Prop := {
  inv_nodup : NoDup (wait_ s);
  inv_sorted : sorted (nexttime_ s) (wait_ s);
  inv_car : Car s;
  inv_riders : Riders s
}.

Record CarFrame (s s' : Sim) : Prop := {
  cf_floor : floor_ s' = floor_ s;
  cf_d1 : d1_ s' = d1_ s;
  cf_d3 : d3_ s' = d3_ s;
  cf_state : state_ s' = state_ s;
  cf_calls : forall j, any_call s j = true -> any_call s' j = true;
  cf_ei : nextinst_ s' elevatortask = nextinst_ s elevatortask;
  cf_e5i : nextinst_ s' e5task = nextinst_ s e5task;
  cf_e9i : nextinst_ s' e9task = nextinst_ s e9task;
  cf_elev : In elevatortask (wait_ s') <-> In elevatortask (wait_ s);
  cf_e5 : In e5task (wait_ s') -> In e5task (wait_ s);
  cf_e9 : In e9task (wait_ s') -> In e9task (wait_ s)
}.

Record RiderFrame (s s' : Sim) : Prop := {
  rf_users : users_ s' = users_ s;
  rf_queue : queue_ s' = queue_ s;
  rf_elevator : elevator_ s' = elevator_ s;
  rf_in : in_ s' = in_ s;
  rf_out : out_ s' = out_ s;
  rf_inst : forall u, nextinst_ s' (usertask u) = nextinst_ s (usertask u);
  rf_wait : forall u, In (usertask u) (wait_ s') <-> In (usertask u) (wait_ s)
}.

(** The decision subroutine called from step E6, where the car is not
    dormant: only step D4 can act. *)
Definition decided (s : Sim) : Sim :=
  match state_ s with
  | Neutral =>
      let jj := D3_loop s floors 2 in
      set_state (if jj <? floor_ s then GoingDown
                 else if jj >? floor_ s then GoingUp else Neutral) s
  | _ => s
  end.

(** The riders once the arriving rider [me] has prepared for its successor
    and before it enters the queue of its floor. *)
Record AfterSuccessor (me : nat) (s : Sim) : Prop := {
  as_users : users_ s = S (S me);
  as_arrival : In (usertask (S me)) (wait_ s);
  as_pending : forall u, In (usertask u) (wait_ s) ->
      (u = S me /\ nextinst_ s (usertask u) = 1)
      \/ ((u < me)%nat /\ nextinst_ s (usertask u) = 4);
  as_queue : forall f u, In u (queue_ s f) ->
      (u < me)%nat /\ in_ s u = f /\ nextinst_ s (usertask u) = 4;
  as_elevator : forall u, In u (elevator_ s) ->
      (u < me)%nat /\ forall f, ~ In u (queue_ s f);
  as_fields : forall u, (u < me)%nat ->
      0 <= in_ s u <= 4 /\ 0 <= out_ s u <= 4 /\ in_ s u <> out_ s u;
  as_nodup_queue : forall f, NoDup (queue_ s f);
  as_nodup_elevator : NoDup (elevator_ s)
}.

(** The states of a run with generator [g] up to [deadline]: the one the
    constructor builds, and those at the top of the loop of [runUntil]. *)
Inductive reachable (g : xoshiro256ss) (deadline : Time) : Sim -> Prop :=
| reach_ctor s0 :
    ElevatorSimulation_ctor (members_default g) = Ok (tt, s0) ->
    reachable g deadline s0
| reach_turn s line s' :
    reachable g deadline s ->
    runUntil_turn deadline s = Ok (Some line, s') ->
    reachable g deadline s'.

(** The state the constructor builds. *)
Definition ctor_state (g : xoshiro256ss) : Sim :=
  after_schedule (usertask 0) 1 0
    (set_users 1
       (set_out (updN (fun _ => 0) 0%nat 0)
          (set_in (updN (fun _ => 0) 0%nat 0)
             (set_nexttime (updT (fun _ => -1) (usertask 0) (-1))
                (set_nextinst (updT (fun _ => 1) (usertask 0) 1) (members_default g)))))).

(** A generator whose first rider enters on floor 0 for floor 1, waits 300,
    and is followed by the next rider after 110. *)
Definition gen_example : xoshiro256ss :=
  {| outputs := fun n => match n with 3%nat => 100 | _ => 0 end; drawn := 0 |}.

(** The line printed by a turn of the driver that fires the task [t]. *)
Definition log_line (s : Sim) (t : Task) : LogLine :=
  {| log_time := nexttime_ s t; log_state := state_ s; log_floor := floor_ s;
     log_d1 := d1_ s; log_d2 := d2_ s; log_d3 := d3_ s;
     log_task := t; log_inst := nextinst_ s t |}.

(** The state after the first turn of a run with [gen_example]: the rider
    has pressed the button on floor 0 and the dormant car is due at E6. *)
Definition after_first_turn : Sim :=
  match runUntil_turn 1000 (ctor_state gen_example) with
  | Ok (_, s) => s
  | Abort _ => ctor_state gen_example
  end.

(** A pending sequence of three tasks, for the examples: the inactivity
    monitor due at 50, the door monitor and a rider at 70. *)
Definition three_pending : Sim :=
  set_wait [e9task; e5task; usertask 0]
    (set_nexttime (fun t => match t with e9task => 50 | _ => 70 end)
       (members_default gen_example)).

(** A car going up on floor 2 with the up button of floor 0 pressed and no
    other call. *)
Definition button_below : Sim :=
  set_callup (upd (fun _ => false) 0 true)
    (set_state GoingUp (members_default gen_example)).

(** Whether [atoi] finds a number in its argument: a digit after the
    blanks and the optional sign. *)
Definition starts_number (s : string) : bool :=
  let first_is_digit s' :=
    match s' with
    | String c _ => match digit_of c with Some _ => true | None => false end
    | EmptyString => false
    end in
  match skip_spaces s with
  | String "-" s' => first_is_digit s'
  | String "+" s' => first_is_digit s'
  | s' => first_is_digit s'
  end.

(** A generator for a run in which the second rider gives up: the first
    rider goes from floor 4 to floor 3; the second comes to floor 0 at time
    10, for floor 1, and waits 300; the third comes at 910. *)
Definition gen_walk : xoshiro256ss :=
  {| outputs := fun n => match n with
                         | 0%nat => 4 | 1%nat => 3 | 7%nat => 890 | _ => 0
                         end;
     drawn := 0 |}.

(** The state of that run in which [runUntil 652] returns. *)
Definition doors_open_for_nobody : Sim :=
  match runUntil 40 652 [] (ctor_state gen_walk) with
  | Some (Ok (_, s)) => s
  | _ => ctor_state gen_walk
  end.

(** A rider on the roster of floor 0 while the car is on floor 2. *)
Definition rider_waiting : Sim :=
  set_queue (upd (fun _ => []) 0 [0%nat])
    (set_callup (upd (fun _ => false) 0 true)
       (set_out (fun _ => 1)
          (set_nextinst (fun _ => 4) (members_default gen_example)))).

(** A dormant car on floor 2 with the buttons of floors 0 and 4 pressed. *)
Definition calls_both_sides : Sim :=
  set_callup (upd (upd (fun _ => false) 0 true) 4 true) (members_default gen_example).

Definition growth : Z := 16.

(** The rank of a resume point: one more than the longest chain of firings
    at one instant that starts from it. *)
Definition rank (t : Task) (inst : Z) : Z :=
  match t with
  | elevatortask =>
      if (inst =? 4) || (inst =? 6) || (inst =? 71) || (inst =? 81) then 2 else 1
  | usertask _ => if inst =? 1 then 3 else 1
  | _ => 1
  end.

Definition work (T when_ : Time) (t : Task) (inst : Z) : Z :=
  if when_ <? T then rank t inst * growth ^ (T - when_) else 0.

Fixpoint sumZ (l : list Z) : Z :=
  match l with
  | [] => 0
  | x :: l' => x + sumZ l'
  end.

(** The work left before the deadline [T]. *)
Definition potential (T : Time) (s : Sim) : Z :=
  sumZ (map (fun t => work T (nexttime_ s t) t (nextinst_ s t)) (wait_ s)).

(** Nothing is pending for a time before [now]. *)
Definition not_before (now : Time) (s : Sim) : Prop :=
  Forall (fun t => now <= nexttime_ s t) (wait_ s).

(** What a computation that starts at [s] and ends at [s'] has done: the
    floor has changed by [df]; it has added at most [z] units of work for
    the time [now] and [d] units for later times. *)
Record Step (now T : Time) (z d df : Z) (s s' : Sim) : Prop := {
  st_floor : floor_ s' = floor_ s + df;
  st_clock : not_before now s -> not_before now s';
  st_potential :
    potential T s' <= potential T s + z * growth ^ (T - now) + d * growth ^ (T - now - 1)
}.

Definition does {A} (now T : Time) (z d df : Z) (m : M A) : Prop :=
  forall s a s', m s = Ok (a, s') -> Step now T z d df s s'.

(** The change of floor of a firing, by task and resume point. *)
Definition floor_change (t : Task) (inst : Z) : Z :=
  match t with
  | elevatortask => if inst =? 7 then 1 else if inst =? 8 then -1 else 0
  | _ => 0
  end.

Definition four_wide (n : nat) : bool :=
  Nat.eqb (String.length (print_04d (Z.of_nat n))) 4.

(** A line whose time is the four characters [c1] to [c4] and whose floor
    is the character [cf]. *)
Definition line_layout (c1 c2 c3 c4 cf : ascii) (l : LogLine) : string :=
  String.append
    (string_of_list_ascii
       [c1; c2; c3; c4; " "; state_char (log_state l); " "; cf; " ";
        flag_char (log_d1 l); " "; flag_char (log_d2 l); " ";
        flag_char (log_d3 l); " "]%char)
    (String.append (stateStr (log_task l) (log_inst l)) (String "010" EmptyString)).

(** The state after step U5. *)
Definition after_U5 (me : nat) (now : Time) (s : Sim) : Sim :=
  let s4 :=
    set_callcar (upd (callcar_ s) (out_ s me) true)
      (set_elevator (me :: elevator_ s)
         (set_queue (upd (queue_ s) (in_ s me)
                       (erase_first Nat.eqb (queue_ s (in_ s me)) me)) s)) in
  if Direction_eqb (state_ s) Neutral then
    after_schedule e5task 5 (now + durationBeforeRapidDoorClose)
      (set_state (if in_ s me <? out_ s me then GoingUp else GoingDown) s4)
  else s4.

(** A state of the run of [gen_walk] in which the first rider is about to
    get in. *)
Definition first_rider_at_door : Sim :=
  match runUntil 40 171 [] (ctor_state gen_walk) with
  | Some (Ok (_, s)) =>
      match runUntil_turn 700 s with
      | Ok (Some _, s1) => s1
      | _ => s
      end
  | _ => ctor_state gen_walk
  end.

(** A state of the run of [gen_walk] in which the first rider is about to
    get out. *)
Definition first_rider_leaving : Sim :=
  match runUntil 40 335 [] (ctor_state gen_walk) with
  | Some (Ok (_, s)) =>
      match runUntil_turn 700 s with
      | Ok (Some _, s1) => s1
      | _ => s
      end
  | _ => ctor_state gen_walk
  end.


(** The state after [std::make_shared<UserTask>()]. *)
Definition after_make_shared (s : Sim) : Sim :=
  set_users (S (users_ s))
    (set_out (updN (out_ s) (users_ s) 0)
       (set_in (updN (in_ s) (users_ s) 0)
          (set_nexttime (updT (nexttime_ s) (usertask (users_ s)) (-1))
             (set_nextinst (updT (nextinst_ s) (usertask (users_ s)) 1) s)))).



(** The stop rule of step E7. *)
Definition stops_going_up (s : Sim) : Prop :=
  callcar_ s (floor_ s) = true \/ callup_ s (floor_ s) = true
  \/ ((floor_ s = 2 \/ calldown_ s (floor_ s) = true) /\ ~ call_above s (floor_ s)).

(** The stop rule of step E8. *)
Definition stops_going_down (s : Sim) : Prop :=
  callcar_ s (floor_ s) = true \/ calldown_ s (floor_ s) = true
  \/ ((floor_ s = 2 \/ callup_ s (floor_ s) = true) /\ ~ call_below s (floor_ s)).

(** The states of the run of [gen_walk] in which the car has just gone up
    to floor 3, and has just come down to it. *)
Definition car_came_up : Sim :=
  match runUntil 40 86 [] (ctor_state gen_walk) with
  | Some (Ok (_, s)) => s
  | _ => ctor_state gen_walk
  end.

Definition car_came_down : Sim :=
  match runUntil 40 292 [] (ctor_state gen_walk) with
  | Some (Ok (_, s)) => s
  | _ => ctor_state gen_walk
  end.

(** The state after the buttons of the floor are cleared in step E6. *)
Definition after_E6_clear (s : Sim) : Sim :=
  let s1 := set_callcar (upd (callcar_ s) (floor_ s) false) s in
  let s2 := if negb (Direction_eqb (state_ s) GoingDown)
            then set_callup (upd (callup_ s1) (floor_ s1) false) s1 else s1 in
  if negb (Direction_eqb (state_ s) GoingUp)
  then set_calldown (upd (calldown_ s2) (floor_ s2) false) s2 else s2.

(** The state after step E6, when the decision subroutine leaves [d]. *)
Definition after_E6 (now : Time) (d : Direction) (s : Sim) : Sim :=
  let s4 := set_state d (after_E6_clear s) in
  if Direction_eqb d Neutral then after_immediately elevatortask 1 now s4
  else
    let s5 := if d2_ s then after_cancel e9task s4 else s4 in
    if Direction_eqb d GoingUp
    then after_schedule elevatortask 7 (now + durationOfUpwardAcceleration) s5
    else after_schedule elevatortask 8 (now + durationOfDownwardAcceleration) s5.

(** The state of the run of [gen_walk] in which the car, called from its
    home floor, is about to leave it. *)
Definition car_about_to_leave : Sim :=
  match runUntil 40 20 [] (ctor_state gen_walk) with
  | Some (Ok (_, s)) => s
  | _ => ctor_state gen_walk
  end.

(** A generator with which the second rider comes 900 after the first, who
    goes from floor 0 to floor 1. *)
Definition gen_sparse : xoshiro256ss :=
  {| outputs := fun n => match n with 3%nat => 890 | _ => 0 end; drawn := 0 |}.

(** The state of that run in which the car, back on floor 2 with nothing to
    do, has closed its doors and is about to fire at step E6. *)
Definition car_back_home : Sim :=
  match runUntil 40 597 [] (ctor_state gen_sparse) with
  | Some (Ok (_, s)) => s
  | _ => ctor_state gen_sparse
  end.

(** [Time] and [Duration] are [int] in the source, and [Z] here.  The two
    agree as long as no sum of a time and a duration leaves the range of
    [int]; this section shows that none does when the deadline leaves room
    for the longest delay of the simulation, the patience of a rider. *)
Definition INT_MAX : Z := 2147483647.
Definition INT_MIN : Z := -2147483648.

Definition fits_int (z : Z) : Prop := INT_MIN <= z <= INT_MAX.

(** The deadlines that are values of [int] and leave room for a delay of
    1200, the largest [giveuptime_]. *)
Definition deadline_fits (deadline : Time) : Prop :=
  INT_MIN <= deadline <= INT_MAX - 1200.

(** The times of all the tasks, pending or not, lie between -1, the time of
    a handle not yet scheduled, and [hi]. *)
Definition times_within (hi : Time) (s : Sim) : Prop :=
  forall t, -1 <= nexttime_ s t <= hi.

(** A computation that leaves the times of the tasks within [hi]. *)
Definition keeps_times (hi : Time) {A} (m : M A) : Prop :=
  forall s a s', m s = Ok (a, s') -> times_within hi s -> times_within hi s'.

(** The deadline [main] passes to [runUntil], line 540. *)
Definition main_deadline (argv : list string) : Time :=
  if 2 <=? Z.of_nat (List.length argv) then atoi (nth 1%nat argv EmptyString)
  else 36000.

(** * Properties *)

(** ** Task handles *)

Lemma Task_eqb_spec p q : reflect (p = q) (Task_eqb p q).
Proof.
  destruct p, q; simpl; try (constructor; congruence).
  destruct (Nat.eqb_spec id id0); constructor; congruence.
Qed.

Lemma Task_eq_dec (p q : Task) : {p = q} + {p <> q}.
Proof. destruct (Task_eqb_spec p q); [left | right]; assumption. Defined.

Lemma Task_eqb_refl p : Task_eqb p p = true.
Proof. destruct (Task_eqb_spec p p); congruence. Qed.

Lemma Task_eqb_neq p q : p <> q -> Task_eqb p q = false.
Proof. destruct (Task_eqb_spec p q); congruence. Qed.

(** ** Containers: erasing, sorting *)

Section ContainerFacts.
Context {A : Type} (eqb : A -> A -> bool).
Hypothesis eqb_spec : forall x y, reflect (x = y) (eqb x y).

Lemma std_count_nonneg (l : list A) v : 0 <= std_count eqb l v.
Proof. induction l as [|x l IH]; simpl; [lia | destruct (eqb x v); lia]. Qed.

Lemma std_count_notin (l : list A) v : ~ In v l -> std_count eqb l v = 0.
Proof.
  induction l as [|x l IH]; simpl; intros H; [reflexivity|].
  destruct (eqb_spec x v) as [E|E]; [tauto | rewrite IH; tauto].
Qed.

Lemma std_count_pos (l : list A) v : In v l -> 1 <= std_count eqb l v.
Proof.
  induction l as [|x l IH]; simpl; [tauto|].
  intros [E|H].
  - subst. destruct (eqb_spec v v); [|congruence].
    pose proof (std_count_nonneg l v). lia.
  - specialize (IH H). destruct (eqb x v); lia.
Qed.

Lemma std_count_NoDup (l : list A) v : NoDup l -> std_count eqb l v <= 1.
Proof.
  induction 1 as [|x l Hx Hl IH]; simpl; [lia|].
  destruct (eqb_spec x v) as [E|E]; [|lia].
  subst. rewrite std_count_notin by assumption. lia.
Qed.

Lemma NoDup_std_count (l : list A) : (forall v, std_count eqb l v <= 1) -> NoDup l.
Proof.
  induction l as [|x l IH]; intros H; constructor.
  - intros Hin. specialize (H x). simpl in H.
    destruct (eqb_spec x x); [|congruence].
    pose proof (std_count_pos l x Hin). lia.
  - apply IH. intros v. specialize (H v). simpl in H.
    destruct (eqb x v); lia.
Qed.

Lemma std_erase_ok (l : list A) v :
  NoDup l -> std_erase eqb l v = Ok (erase_first eqb l v).
Proof.
  intros H. unfold std_erase.
  pose proof (std_count_NoDup l v H).
  destruct (Z.leb_spec (std_count eqb l v) 1); [reflexivity | lia].
Qed.

Lemma erase_first_notin (l : list A) v : ~ In v l -> erase_first eqb l v = l.
Proof.
  induction l as [|x l IH]; simpl; intros H; [reflexivity|].
  destruct (eqb_spec x v); [tauto | f_equal; tauto].
Qed.

Lemma In_erase_first (l : list A) v x : In x (erase_first eqb l v) -> In x l.
Proof.
  induction l as [|y l IH]; simpl; [tauto|].
  destruct (eqb y v); simpl; tauto.
Qed.

Lemma In_erase_first_neq (l : list A) v x :
  x <> v -> In x l -> In x (erase_first eqb l v).
Proof.
  intros Hx. induction l as [|y l IH]; simpl; [tauto|].
  destruct (eqb_spec y v); simpl; intuition congruence.
Qed.

Lemma NoDup_erase_first (l : list A) v : NoDup l -> NoDup (erase_first eqb l v).
Proof.
  induction 1 as [|x l Hx Hl IH]; simpl; [constructor|].
  destruct (eqb x v); [assumption|].
  constructor; [|assumption]. intros H. apply Hx. eapply In_erase_first; eauto.
Qed.

Lemma notin_erase_first (l : list A) v : NoDup l -> ~ In v (erase_first eqb l v).
Proof.
  induction 1 as [|x l Hx Hl IH]; simpl; [tauto|].
  destruct (eqb_spec x v); [congruence|]. simpl. tauto.
Qed.

Lemma In_erase_first_iff (l : list A) v x :
  NoDup l -> (In x (erase_first eqb l v) <-> x <> v /\ In x l).
Proof.
  intros H. split.
  - intros Hx. split; [|eapply In_erase_first; eauto].
    intros ->. eapply notin_erase_first; eauto.
  - intros [? ?]. apply In_erase_first_neq; assumption.
Qed.

Lemma Forall_erase_first (P : A -> Prop) (l : list A) v :
  Forall P l -> Forall P (erase_first eqb l v).
Proof.
  rewrite !Forall_forall. intros H x Hx. apply H. eapply In_erase_first; eauto.
Qed.

Lemma erase_first_app_notin (l1 l2 : list A) v :
  ~ In v l1 -> erase_first eqb (l1 ++ l2) v = l1 ++ erase_first eqb l2 v.
Proof.
  induction l1 as [|x l1 IH]; simpl; intros H; [reflexivity|].
  destruct (eqb_spec x v); [tauto | f_equal; tauto].
Qed.

(** *** Order by a key *)

Variable tm : A -> Z.
Local Abbreviation lt := (fun p q : A => tm p <? tm q).

Lemma sorted_erase_first (l : list A) v : sorted tm l -> sorted tm (erase_first eqb l v).
Proof.
  induction l as [|x l IH]; simpl; [tauto|].
  intros [H1 H2]. destruct (eqb x v); [assumption|].
  simpl. split; [apply Forall_erase_first; assumption | tauto].
Qed.

Lemma In_stable_insert x (l : list A) y :
  In y (stable_insert lt x l) <-> y = x \/ In y l.
Proof.
  induction l as [|z l IH]; simpl; [intuition|].
  destruct (lt z x); simpl; rewrite ?IH; intuition.
Qed.

Lemma In_stable_sort (l : list A) y : In y (stable_sort lt l) <-> In y l.
Proof.
  induction l as [|z l IH]; simpl; [tauto|].
  rewrite In_stable_insert, IH. intuition.
Qed.

Lemma NoDup_stable_insert x (l : list A) :
  ~ In x l -> NoDup l -> NoDup (stable_insert lt x l).
Proof.
  induction l as [|z l IH]; simpl; intros Hx Hl.
  - constructor; [tauto | constructor].
  - inversion Hl; subst. destruct (lt z x).
    + constructor; [rewrite In_stable_insert; intuition | apply IH; tauto].
    + constructor; [simpl; tauto | assumption].
Qed.

Lemma NoDup_stable_sort (l : list A) : NoDup l -> NoDup (stable_sort lt l).
Proof.
  induction 1 as [|x l Hx Hl IH]; simpl; [constructor|].
  apply NoDup_stable_insert; [rewrite In_stable_sort|]; assumption.
Qed.

Lemma sorted_stable_insert x (l : list A) : sorted tm l -> sorted tm (stable_insert lt x l).
Proof.
  induction l as [|z l IH]; simpl; [auto|].
  intros [H1 H2]. cbv beta. destruct (Z.ltb_spec (tm z) (tm x)); simpl.
  - split; [|tauto]. rewrite Forall_forall in *. intros y Hy.
    apply In_stable_insert in Hy. destruct Hy as [->|Hy]; [lia | auto].
  - repeat split; try assumption. constructor; [assumption|].
    rewrite Forall_forall in *. intros y Hy. specialize (H1 y Hy). lia.
Qed.

Lemma sorted_stable_sort (l : list A) : sorted tm (stable_sort lt l).
Proof. induction l; simpl; [exact I | apply sorted_stable_insert; assumption]. Qed.

Lemma stable_insert_head x (l : list A) :
  Forall (fun y => tm x <= tm y) l -> stable_insert lt x l = x :: l.
Proof.
  destruct l as [|z l]; simpl; [reflexivity|].
  intros H. inversion H; subst. cbv beta.
  destruct (Z.ltb_spec (tm z) (tm x)); [lia | reflexivity].
Qed.

Lemma stable_sort_sorted (l : list A) : sorted tm l -> stable_sort lt l = l.
Proof.
  induction l as [|x l IH]; simpl; [reflexivity|].
  intros [H1 H2]. rewrite IH by assumption. apply stable_insert_head; assumption.
Qed.

(** Stability: the elements of any one key keep their order. *)
Lemma filter_stable_insert v x (l : list A) :
  filter (fun y => tm y =? v) (stable_insert lt x l)
  = filter (fun y => tm y =? v) (x :: l).
Proof.
  induction l as [|z l IH]; [reflexivity|].
  simpl stable_insert. cbv beta.
  destruct (Z.ltb_spec (tm z) (tm x)); [|reflexivity].
  simpl filter at 1. rewrite IH. simpl.
  destruct (Z.eqb_spec (tm z) v), (Z.eqb_spec (tm x) v); try reflexivity. lia.
Qed.

Lemma filter_stable_sort v (l : list A) :
  filter (fun y => tm y =? v) (stable_sort lt l) = filter (fun y => tm y =? v) l.
Proof.
  induction l as [|x l IH]; [reflexivity|].
  simpl stable_sort. rewrite filter_stable_insert. simpl. rewrite IH. reflexivity.
Qed.

Lemma sorted_is_sorted (l : list A) : sorted tm l -> is_sorted lt l = true.
Proof.
  induction l as [|x l IH]; simpl; [reflexivity|].
  intros [H1 H2]. destruct l as [|y l]; [reflexivity|].
  rewrite IH by assumption. inversion H1; subst. cbv beta.
  destruct (Z.ltb_spec (tm y) (tm x)); [lia | reflexivity].
Qed.

Lemma is_sorted_sorted (l : list A) : is_sorted lt l = true -> sorted tm l.
Proof.
  induction l as [|x l IH]; simpl; [tauto|].
  destruct l as [|y l]; [intros _; split; [constructor | exact I]|].
  intros H. apply andb_prop in H. destruct H as [H1 H2].
  specialize (IH H2). split; [|assumption].
  cbv beta in H1. destruct (Z.ltb_spec (tm y) (tm x)); [discriminate|].
  destruct IH as [IH1 IH2]. constructor; [assumption|].
  rewrite Forall_forall in *. intros z Hz. specialize (IH1 z Hz). lia.
Qed.

Lemma sorted_app_inv (l1 l2 : list A) : sorted tm (l1 ++ l2) -> sorted tm l1 /\ sorted tm l2.
Proof.
  induction l1 as [|x l1 IH]; simpl; [tauto|].
  intros [H1 H2]. apply Forall_app in H1. tauto.
Qed.
End ContainerFacts.

Lemma sorted_ext {A} (tm tm' : A -> Z) (l : list A) :
  (forall x, In x l -> tm x = tm' x) -> sorted tm l -> sorted tm' l.
Proof.
  induction l as [|x l IH]; simpl; [tauto|].
  intros E [H1 H2]. split; [|apply IH; auto].
  rewrite Forall_forall in *. intros y Hy.
  rewrite <- (E x), <- (E y) by auto. auto.
Qed.

Lemma Forall_ext_in {A} (P Q : A -> Prop) (l : list A) :
  (forall x, In x l -> P x -> Q x) -> Forall P l -> Forall Q l.
Proof. rewrite !Forall_forall. intros E H x Hx. auto. Qed.

Lemma updT_same {A} (f : Task -> A) t v : updT f t v t = v.
Proof. unfold updT. rewrite Task_eqb_refl. reflexivity. Qed.

Lemma updT_other {A} (f : Task -> A) t v q : q <> t -> updT f t v q = f q.
Proof. intros H. unfold updT. rewrite Task_eqb_neq by assumption. reflexivity. Qed.

Lemma updN_same {A} (f : nat -> A) i v : updN f i v i = v.
Proof. unfold updN. rewrite Nat.eqb_refl. reflexivity. Qed.

Lemma updN_other {A} (f : nat -> A) i v j : j <> i -> updN f i v j = f j.
Proof.
  intros H. unfold updN. destruct (Nat.eqb_spec j i); [congruence | reflexivity].
Qed.

Lemma upd_same {A} (f : Z -> A) i v : upd f i v i = v.
Proof. unfold upd. rewrite Z.eqb_refl. reflexivity. Qed.

Lemma upd_other {A} (f : Z -> A) i v j : j <> i -> upd f i v j = f j.
Proof.
  intros H. unfold upd. destruct (Z.eqb_spec j i); [congruence | reflexivity].
Qed.

(** ** Weakest preconditions of transitions

    [wp m Q s]: from [s], the computation [m] does not abort, and its result
    and final state satisfy [Q]. *)

Lemma wp_ok {A} (m : M A) Q s : wp m Q s -> exists a s', m s = Ok (a, s') /\ Q a s'.
Proof. unfold wp. destruct (m s) as [[a s']|]; [eauto | tauto]. Qed.

Lemma wp_conseq {A} (m : M A) (Q Q' : A -> Sim -> Prop) s :
  (forall a s', Q a s' -> Q' a s') -> wp m Q s -> wp m Q' s.
Proof. unfold wp. destruct (m s) as [[a s']|]; auto. Qed.

Lemma wp_ret {A} (a : A) Q s : Q a s -> wp (ret a) Q s.
Proof. exact (fun H => H). Qed.

Lemma wp_bind {A B} (m : M A) (k : A -> M B) Q s :
  wp m (fun a s' => wp (k a) Q s') s -> wp (bind m k) Q s.
Proof. unfold wp, bind. destruct (m s) as [[a s']|]; auto. Qed.

Lemma wp_get {A} (f : Sim -> A) Q s : Q (f s) s -> wp (get f) Q s.
Proof. exact (fun H => H). Qed.

Lemma wp_modify f Q s : Q tt (f s) -> wp (modify f) Q s.
Proof. exact (fun H => H). Qed.

Lemma wp_assert line b Q s : b = true -> Q tt s -> wp (assert line b) Q s.
Proof. intros -> H. exact H. Qed.

Lemma wp_check_index i Q s : 0 <= i <= 4 -> Q tt s -> wp (check_index i) Q s.
Proof.
  intros Hi H. unfold wp, check_index.
  destruct (Z.leb_spec 0 i), (Z.ltb_spec i 5); simpl; try lia. exact H.
Qed.

Lemma wp_when (b : bool) m Q s :
  (b = true -> wp m Q s) -> (b = false -> Q tt s) -> wp (when b m) Q s.
Proof.
  destruct b; simpl; intros H1 H2; [apply H1 | apply wp_ret, H2]; reflexivity.
Qed.

(** ** The scheduler's operations as state transformers *)

Lemma schedule_ok t step when_ s :
  NoDup (wait_ s) -> schedule t step when_ s = Ok (tt, after_schedule t step when_ s).
Proof.
  intros H. unfold schedule, bind, modify, erase_wait. simpl.
  rewrite (std_erase_ok _ Task_eqb_spec) by assumption. reflexivity.
Qed.

Lemma cancel_ok t s : NoDup (wait_ s) -> cancel t s = Ok (tt, after_cancel t s).
Proof.
  intros H. unfold cancel, erase_wait.
  rewrite (std_erase_ok _ Task_eqb_spec) by assumption. reflexivity.
Qed.

Lemma WQ_NoDup now tm w : WQ now tm w -> NoDup w.
Proof. intros H; apply H. Qed.

Lemma schedule_immediately_eq t step when_ s :
  NoDup (wait_ s) ->
  schedule_immediately t step when_ s
  = if is_sorted (fun p q => updT (nexttime_ s) t when_ p <? updT (nexttime_ s) t when_ q)
         (t :: erase_first Task_eqb (wait_ s) t)
    then Ok (tt, after_immediately t step when_ s)
    else Abort (AssertionFailed 203).
Proof.
  intros H. unfold schedule_immediately, bind, modify, erase_wait, get, assert.
  cbv beta. rewrite (std_erase_ok _ Task_eqb_spec) by assumption. reflexivity.
Qed.

Lemma schedule_immediately_ok t step now s :
  WQ now (nexttime_ s) (wait_ s) ->
  schedule_immediately t step now s = Ok (tt, after_immediately t step now s).
Proof.
  intros (Hnd & Hs & Hlb).
  rewrite schedule_immediately_eq by assumption.
  rewrite sorted_is_sorted; [reflexivity|].
  simpl. split.
  - apply (Forall_erase_first Task_eqb).
    apply Forall_ext_in with (P := fun y => now <= nexttime_ s y); [|assumption].
    intros x Hx Hle. rewrite updT_same.
    unfold updT. destruct (Task_eqb x t); lia.
  - apply sorted_ext with (tm := nexttime_ s).
    + intros x Hx. symmetry. apply updT_other. intros ->.
      eapply (notin_erase_first _ Task_eqb_spec); eauto.
    + apply sorted_erase_first. assumption.
Qed.

Lemma In_sched_wait tm t w x : In x (sched_wait tm t w) <-> x = t \/ In x w.
Proof.
  unfold sched_wait. rewrite In_stable_sort, in_app_iff. simpl.
  destruct (Task_eq_dec x t) as [->|Hx]; [tauto|].
  split.
  - intros [H|[H|[]]]; [right; eapply In_erase_first; eauto | congruence].
  - intros [H|H]; [congruence | left; apply (In_erase_first_neq _ Task_eqb_spec); auto].
Qed.

Lemma In_imm_wait t w x : In x (t :: erase_first Task_eqb w t) <-> x = t \/ In x w.
Proof.
  simpl. destruct (Task_eq_dec x t) as [->|Hx]; [tauto|].
  split.
  - intros [H|H]; [congruence | right; eapply In_erase_first; eauto].
  - intros [H|H]; [congruence | right; apply (In_erase_first_neq _ Task_eqb_spec); auto].
Qed.

Lemma In_cancel_wait t w x :
  NoDup w -> (In x (erase_first Task_eqb w t) <-> x <> t /\ In x w).
Proof. apply (In_erase_first_iff _ Task_eqb_spec). Qed.

Lemma WQ_sched now tm w t when_ :
  WQ now tm w -> now <= when_ ->
  WQ now (updT tm t when_) (sched_wait (updT tm t when_) t w).
Proof.
  intros (Hnd & Hs & Hlb) Hle. repeat split.
  - unfold sched_wait. apply NoDup_stable_sort.
    apply NoDup_app.
    + apply (NoDup_erase_first Task_eqb); assumption.
    + constructor; [simpl; tauto | constructor].
    + intros x Hx [<-|[]]. eapply (notin_erase_first _ Task_eqb_spec); eauto.
  - apply sorted_stable_sort.
  - rewrite Forall_forall in *. intros x Hx. apply In_sched_wait in Hx.
    unfold updT. destruct (Task_eqb_spec x t); [lia|].
    destruct Hx; [congruence | auto].
Qed.

Lemma WQ_imm now tm w t :
  WQ now tm w -> WQ now (updT tm t now) (t :: erase_first Task_eqb w t).
Proof.
  intros (Hnd & Hs & Hlb).
  assert (Hlb' : Forall (fun y => now <= updT tm t now y) (erase_first Task_eqb w t)).
  { apply (Forall_erase_first Task_eqb).
    apply Forall_ext_in with (P := fun y => now <= tm y); [|assumption].
    intros x Hx Hle. unfold updT. destruct (Task_eqb x t); lia. }
  split; [|split].
  - constructor.
    + apply (notin_erase_first _ Task_eqb_spec); assumption.
    + apply (NoDup_erase_first Task_eqb); assumption.
  - simpl. split.
    + rewrite updT_same. exact Hlb'.
    + apply sorted_ext with (tm := tm).
      * intros x Hx. symmetry. apply updT_other. intros ->.
        eapply (notin_erase_first _ Task_eqb_spec); eauto.
      * apply sorted_erase_first. assumption.
  - constructor; [rewrite updT_same; lia | exact Hlb'].
Qed.

Lemma WQ_cancel now tm w t : WQ now tm w -> WQ now tm (erase_first Task_eqb w t).
Proof.
  intros (Hnd & Hs & Hlb). repeat split.
  - apply (NoDup_erase_first Task_eqb); assumption.
  - apply sorted_erase_first; assumption.
  - apply (Forall_erase_first Task_eqb); assumption.
Qed.

(** A time set for a task that is not pending changes nothing. *)
Lemma WQ_updT_fresh now tm w t v : ~ In t w -> WQ now tm w -> WQ now (updT tm t v) w.
Proof.
  intros Ht (Hnd & Hs & Hlb).
  assert (E : forall x, In x w -> tm x = updT tm t v x).
  { intros x Hx. symmetry. apply updT_other. intros ->. tauto. }
  repeat split; [assumption | eapply sorted_ext; eauto |].
  apply Forall_ext_in with (P := fun y => now <= tm y); [|assumption].
  intros x Hx. rewrite (E x Hx). auto.
Qed.

(** The head of the pending sequence after the driver removed the task that
    fires: what is left is due no earlier. *)
Lemma WQ_pop tm t rest :
  NoDup (t :: rest) -> sorted tm (t :: rest) -> WQ (tm t) tm rest.
Proof.
  intros Hnd [H1 H2]. inversion Hnd; subst. repeat split; assumption.
Qed.

Lemma WQ_boundary now tm w : WQ now tm w -> NoDup w /\ sorted tm w.
Proof. intros (? & ? & ?); auto. Qed.

(** A task scheduled immediately stays in front when another is scheduled
    for the same instant or later. *)
Lemma sched_wait_keeps_head now tm w t h when_ :
  WQ now tm (h :: w) -> tm h = now -> h <> t -> now <= when_ ->
  exists w', sched_wait (updT tm t when_) t (h :: w) = h :: w'.
Proof.
  intros (Hnd & Hs & Hlb) Hh Hne Hle.
  unfold sched_wait. simpl erase_first.
  rewrite (Task_eqb_neq h t Hne). simpl app. simpl stable_sort.
  eexists. apply stable_insert_head.
  rewrite Forall_forall. intros y Hy.
  apply In_stable_sort in Hy. rewrite (updT_other _ _ _ h Hne), Hh.
  unfold updT. destruct (Task_eqb_spec y t); [lia|].
  apply in_app_iff in Hy. destruct Hy as [Hy|[Hy|[]]]; [|congruence].
  apply In_erase_first in Hy.
  rewrite Forall_forall in Hlb. apply Hlb. right. assumption.
Qed.

(** ** The arrival generator *)

Lemma random_between_ok lo hi s :
  lo <= hi ->
  exists v g, random_between lo hi s = Ok (v, set_rand g s) /\ lo <= v <= hi.
Proof.
  intros H. unfold random_between, rand_call. do 2 eexists.
  split; [reflexivity|].
  pose proof (Z.mod_pos_bound (outputs (rand_ s) (drawn (rand_ s)) mod 2 ^ 64)
                (1 + hi - lo) ltac:(lia)).
  lia.
Qed.

Lemma createNewUser_ok s :
  exists info g,
    createNewUser s = Ok (info, set_rand g s)
    /\ 0 <= NewUserInfo.in_ info <= 4
    /\ 0 <= NewUserInfo.out_ info <= 4
    /\ NewUserInfo.in_ info <> NewUserInfo.out_ info
    /\ 300 <= NewUserInfo.giveuptime_ info <= 1200
    /\ 10 <= NewUserInfo.intertime_ info <= 900.
Proof.
  unfold createNewUser, bind.
  destruct (random_between_ok 0 4 s ltac:(lia)) as (i & g1 & E1 & B1).
  rewrite E1. cbv beta iota.
  destruct (random_between_ok 1 4 (set_rand g1 s) ltac:(lia)) as (r & g2 & E2 & B2).
  rewrite E2. cbv beta iota.
  destruct (random_between_ok 300 1200 (set_rand g2 (set_rand g1 s)) ltac:(lia))
    as (gu & g3 & E3 & B3).
  rewrite E3. cbv beta iota.
  destruct (random_between_ok 10 900 (set_rand g3 (set_rand g2 (set_rand g1 s))) ltac:(lia))
    as (it & g4 & E4 & B4).
  rewrite E4. cbv beta iota.
  eexists. exists g4. split; [reflexivity|]. simpl.
  pose proof (Z.mod_pos_bound (i + r) 5 ltac:(lia)).
  pose proof (Z.div_mod (i + r) 5 ltac:(lia)).
  repeat split; lia.
Qed.

(** ** The loops over the floors *)

Lemma In_floors j : In j floors <-> 0 <= j <= 4.
Proof. unfold floors. simpl. lia. Qed.

Lemma call_above_mono s s' f :
  (forall j, 0 <= j <= 4 -> f < j -> any_call s j = true -> any_call s' j = true) ->
  call_above s f -> call_above s' f.
Proof. intros H (j & Hj & Hlt & Hc). exists j. auto. Qed.

Lemma call_below_mono s s' f :
  (forall j, 0 <= j <= 4 -> j < f -> any_call s j = true -> any_call s' j = true) ->
  call_below s f -> call_below s' f.
Proof. intros H (j & Hj & Hlt & Hc). exists j. auto. Qed.

Lemma scan_fold s js w :
  let r := fold_left (wants_step s) js w in
  passenger_wants_up r
    = passenger_wants_up w || existsb (fun j => (floor_ s <? j) && callcar_ s j) js
  /\ passenger_wants_down r
    = passenger_wants_down w || existsb (fun j => (j <? floor_ s) && callcar_ s j) js
  /\ waiter_wants_up r
    = waiter_wants_up w
      || existsb (fun j => (floor_ s <? j) && (callup_ s j || calldown_ s j)) js
  /\ waiter_wants_down r
    = waiter_wants_down w
      || existsb (fun j => (j <? floor_ s) && (callup_ s j || calldown_ s j)) js.
Proof.
  revert w. induction js as [|j js IH]; intros w; simpl.
  - rewrite !orb_false_r. auto.
  - specialize (IH (wants_step s w j)). simpl in IH.
    destruct IH as (E1 & E2 & E3 & E4). rewrite E1, E2, E3, E4.
    unfold wants_step.
    destruct (Z.eqb_spec j (floor_ s)) as [->|Hne]; simpl.
    + rewrite !Z.ltb_irrefl. simpl. auto.
    + destruct (Z.gtb_spec j (floor_ s)), (Z.ltb_spec (floor_ s) j),
        (Z.ltb_spec j (floor_ s)); try lia;
        destruct (callcar_ s j), (callup_ s j || calldown_ s j),
          (passenger_wants_up w), (passenger_wants_down w),
          (waiter_wants_up w), (waiter_wants_down w); simpl; auto.
Qed.

Lemma existsb_floors (p : Z -> bool) :
  existsb p floors = true <-> exists j, 0 <= j <= 4 /\ p j = true.
Proof.
  rewrite existsb_exists. split; intros (j & Hj & H); exists j;
    (split; [apply In_floors; assumption | assumption]).
Qed.

Lemma passenger_up_iff s :
  passenger_wants_up (scan_calls s) = true
  <-> exists j, 0 <= j <= 4 /\ floor_ s < j /\ callcar_ s j = true.
Proof.
  destruct (scan_fold s floors no_wants) as (E1 & _).
  unfold scan_calls. rewrite E1. simpl passenger_wants_up.
  rewrite orb_false_l, existsb_floors.
  split; intros (j & Hj & H); exists j; (split; [assumption|]);
    rewrite andb_true_iff, Z.ltb_lt in *; assumption.
Qed.

Lemma passenger_down_iff s :
  passenger_wants_down (scan_calls s) = true
  <-> exists j, 0 <= j <= 4 /\ j < floor_ s /\ callcar_ s j = true.
Proof.
  destruct (scan_fold s floors no_wants) as (_ & E2 & _).
  unfold scan_calls. rewrite E2. simpl passenger_wants_down.
  rewrite orb_false_l, existsb_floors.
  split; intros (j & Hj & H); exists j; (split; [assumption|]);
    rewrite andb_true_iff, Z.ltb_lt in *; assumption.
Qed.

Lemma waiter_up_iff s :
  waiter_wants_up (scan_calls s) = true
  <-> exists j, 0 <= j <= 4 /\ floor_ s < j /\ callup_ s j || calldown_ s j = true.
Proof.
  destruct (scan_fold s floors no_wants) as (_ & _ & E3 & _).
  unfold scan_calls. rewrite E3. simpl waiter_wants_up.
  rewrite orb_false_l, existsb_floors.
  split; intros (j & Hj & H); exists j; (split; [assumption|]);
    rewrite andb_true_iff, Z.ltb_lt in *; assumption.
Qed.

Lemma waiter_down_iff s :
  waiter_wants_down (scan_calls s) = true
  <-> exists j, 0 <= j <= 4 /\ j < floor_ s /\ callup_ s j || calldown_ s j = true.
Proof.
  destruct (scan_fold s floors no_wants) as (_ & _ & _ & E4).
  unfold scan_calls. rewrite E4. simpl waiter_wants_down.
  rewrite orb_false_l, existsb_floors.
  split; intros (j & Hj & H); exists j; (split; [assumption|]);
    rewrite andb_true_iff, Z.ltb_lt in *; assumption.
Qed.

Lemma wants_up_iff s :
  passenger_wants_up (scan_calls s) || waiter_wants_up (scan_calls s) = true
  <-> call_above s (floor_ s).
Proof.
  rewrite orb_true_iff, passenger_up_iff, waiter_up_iff. unfold call_above, any_call.
  split.
  - intros [(j & Hj & Hlt & H)|(j & Hj & Hlt & H)]; exists j; rewrite H;
      auto using orb_true_r.
  - intros (j & Hj & Hlt & H). destruct (callcar_ s j) eqn:Ec.
    + left. eauto.
    + right. rewrite orb_false_r in H. eauto.
Qed.

Lemma wants_down_iff s :
  passenger_wants_down (scan_calls s) || waiter_wants_down (scan_calls s) = true
  <-> call_below s (floor_ s).
Proof.
  rewrite orb_true_iff, passenger_down_iff, waiter_down_iff. unfold call_below, any_call.
  split.
  - intros [(j & Hj & Hlt & H)|(j & Hj & Hlt & H)]; exists j; rewrite H;
      auto using orb_true_r.
  - intros (j & Hj & Hlt & H). destruct (callcar_ s j) eqn:Ec.
    + left. eauto.
    + right. rewrite orb_false_r in H. eauto.
Qed.

Lemma passenger_up_above s :
  passenger_wants_up (scan_calls s) = true -> call_above s (floor_ s).
Proof.
  intros H. apply wants_up_iff. rewrite H. reflexivity.
Qed.

Lemma passenger_down_below s :
  passenger_wants_down (scan_calls s) = true -> call_below s (floor_ s).
Proof.
  intros H. apply wants_down_iff. rewrite H. reflexivity.
Qed.

(** The search of step D3: the start value when no other floor has a call,
    the first other floor with a call otherwise. *)
Lemma D3_loop_spec s js jj :
  (D3_loop s js jj = jj
   /\ forall j, In j js -> j <> floor_ s -> any_call s j = false)
  \/ (In (D3_loop s js jj) js
      /\ D3_loop s js jj <> floor_ s
      /\ any_call s (D3_loop s js jj) = true).
Proof.
  induction js as [|j js IH]; simpl.
  - left. split; [reflexivity | tauto].
  - destruct (Z.eqb_spec j (floor_ s)) as [E|E].
    + destruct IH as [[H1 H2]|(H1 & H2 & H3)]; [left | right; tauto].
      split; [assumption|]. intros k [<-|Hk] Hne; [congruence | auto].
    + destruct (any_call s j) eqn:Ec; [right; tauto|].
      destruct IH as [[H1 H2]|(H1 & H2 & H3)]; [left | right; tauto].
      split; [assumption|]. intros k [<-|Hk] Hne; auto.
Qed.

(** ** The invariant of a run *)

(** *** Tactics *)

Lemma wp_schedule now t step when_ Q s :
  WQ now (nexttime_ s) (wait_ s) ->
  Q tt (after_schedule t step when_ s) ->
  wp (schedule t step when_) Q s.
Proof.
  intros H HQ. unfold wp. rewrite schedule_ok by (apply H). exact HQ.
Qed.

Lemma wp_schedule_immediately now t step Q s :
  WQ now (nexttime_ s) (wait_ s) ->
  Q tt (after_immediately t step now s) ->
  wp (schedule_immediately t step now) Q s.
Proof.
  intros H HQ. unfold wp. rewrite schedule_immediately_ok by assumption. exact HQ.
Qed.

Lemma wp_cancel now t Q s :
  WQ now (nexttime_ s) (wait_ s) ->
  Q tt (after_cancel t s) ->
  wp (cancel t) Q s.
Proof.
  intros H HQ. unfold wp. rewrite cancel_ok by (apply H). exact HQ.
Qed.

Arguments sched_wait : simpl never.
Arguments erase_first : simpl never.
Arguments upd : simpl never.
Arguments scan_calls : simpl never.
Arguments D3_loop : simpl never.
Arguments E2_state : simpl never.

Ltac sim_cbn :=
  cbn [after_schedule after_immediately after_cancel
       set_rand set_floor set_d1 set_d2 set_d3 set_state set_callup set_calldown
       set_callcar set_wait set_queue set_elevator set_nextinst set_nexttime
       set_in set_out set_users
       rand_ floor_ d1_ d2_ d3_ state_ callup_ calldown_ callcar_ wait_ queue_
       elevator_ nextinst_ nexttime_ in_ out_ users_] in *.

(** Proves [WQ now (nexttime_ X) (wait_ X)] for a state [X] built from
    scheduler operations and field updates over a state known to satisfy it. *)
Ltac solve_wq :=
  sim_cbn;
  repeat first
    [ eassumption
    | apply WQ_sched; [|unfold
        durationBeforeRapidDoorClose, durationBeforeInactivity,
        durationBeforeDoorClose, durationOfDoorOpen, durationOfLeaving,
        durationOfEntering, delayAfterDoorFlutter, durationOfDoorClose,
        durationOfUpwardAcceleration, durationOfDownwardAcceleration,
        durationOfDoorOpenFromDecisionSubroutine, delayBeforeHoming,
        durationOfUpwardTravel, durationOfUpwardDeceleration,
        durationOfDownwardTravel, durationOfDownwardDeceleration; lia]
    | apply WQ_imm
    | apply WQ_cancel ].

Ltac wp_sched now := apply wp_bind; apply (wp_schedule now); [solve_wq|].
Ltac wp_sched_last now := apply (wp_schedule now); [solve_wq|].
Ltac wp_imm now := apply wp_bind; apply (wp_schedule_immediately now); [solve_wq|].
Ltac wp_imm_last now := apply (wp_schedule_immediately now); [solve_wq|].
Ltac wp_mod := apply wp_bind; apply wp_modify.
Ltac wp_read := apply wp_bind; apply wp_get.

(** Membership in the pending sequence, after scheduler operations. *)
Ltac in_wait :=
  repeat match goal with
    | H : context [In _ (sched_wait _ _ _)] |- _ => rewrite In_sched_wait in H
    | |- context [In _ (sched_wait _ _ _)] => rewrite In_sched_wait
    | H : context [In _ (_ :: erase_first Task_eqb _ _)] |- _ => rewrite In_imm_wait in H
    | |- context [In _ (_ :: erase_first Task_eqb _ _)] => rewrite In_imm_wait
    | HW : WQ _ _ ?w |- context [In _ (erase_first Task_eqb ?w _)] =>
        rewrite (In_cancel_wait _ w) by (apply HW)
    end.

(** The clause-by-clause proof of [Car X] for an updated state [X], from
    [HC : Car s]: each clause of [X] is given the same clause of [s] (the
    clauses on the doors, both), and what the context holds. *)
Ltac car_norm :=
  unfold ei, up_ok, down_ok in *; sim_cbn; cbn [updT Task_eqb In] in *; in_wait.
Ltac car_solve :=
  try solve [ intros; lia | intros; discriminate
            | intuition (try congruence; try lia) ].
Ltac car_field HC Hw proj :=
  let H := fresh "Hc" in
  pose proof (proj _ HC) as H; rewrite ?Hw in H; car_norm; car_solve.
Ltac car_doors HC Hw :=
  let H1 := fresh "Hc" in let H3 := fresh "Hc" in
  pose proof (car_d1 _ HC) as H1; pose proof (car_d3 _ HC) as H3;
  rewrite ?Hw in H1; car_norm; car_solve.
Ltac car_fields_w HC Hw :=
  constructor;
  [ car_field HC Hw car_ei | car_field HC Hw car_e5 | car_field HC Hw car_e9
  | car_field HC Hw car_floor | car_field HC Hw car_idle
  | car_field HC Hw car_E7 | car_field HC Hw car_E71
  | car_field HC Hw car_E8 | car_field HC Hw car_E81
  | car_field HC Hw car_dir | car_doors HC Hw | car_doors HC Hw ].
Ltac car_fields HC := car_fields_w HC (eq_refl 0).
Ltac easy_field := solve [cbn [In] in *; intuition (try congruence; try lia)].

(** *** Changes the car does not see, changes the riders do not see *)

Lemma Car_frame s s' : CarFrame s s' -> Car s -> Car s'.
Proof.
  intros [Ef E1 E3 Es Ec Ei E5i E9i Pe P5 P9] HC.
  assert (Ha : forall f, call_above s f -> call_above s' f).
  { intros f. apply call_above_mono. auto. }
  assert (Hb : forall f, call_below s f -> call_below s' f).
  { intros f. apply call_below_mono. auto. }
  constructor; unfold ei, up_ok, down_ok in *;
    rewrite ?Ef, ?E1, ?E3, ?Es, ?Ei, ?E5i, ?E9i.
  - apply (car_ei _ HC).
  - intros H. apply (car_e5 _ HC). auto.
  - intros H. apply (car_e9 _ HC). auto.
  - apply (car_floor _ HC).
  - apply (car_idle _ HC).
  - intros H. destruct (car_E7 _ HC H); auto.
  - intros H. destruct (car_E71 _ HC H); auto.
  - intros H. destruct (car_E8 _ HC H); auto.
  - intros H. destruct (car_E81 _ HC H); auto.
  - intros H. destruct (car_dir _ HC H) as [H1 H2]. split; intros Hs.
    + destruct (H1 Hs); auto.
    + destruct (H2 Hs); auto.
  - rewrite Pe. apply (car_d1 _ HC).
  - apply (car_d3 _ HC).
Qed.

Ltac car_frame :=
  constructor; unfold any_call; sim_cbn; cbn [updT Task_eqb]; try reflexivity;
  intros; in_wait; try solve [simpl; intuition (try congruence)].

Lemma RidersMid_frame s s' : RiderFrame s s' -> RidersMid s -> RidersMid s'.
Proof.
  intros [Eu Eq Ee Ei Eo En Ew] HM.
  constructor; rewrite ?Eu, ?Eq, ?Ee, ?Ei, ?Eo.
  - intros u Hu. rewrite En. apply (mid_pending _ HM). apply Ew. assumption.
  - intros f u Hu. rewrite En. apply (mid_queue _ HM). assumption.
  - apply (mid_elevator _ HM).
  - apply (mid_fields _ HM).
  - apply (mid_nodup_queue _ HM).
  - apply (mid_nodup_elevator _ HM).
Qed.

Lemma RiderFrame_refl s : RiderFrame s s.
Proof. constructor; tauto. Qed.

Lemma RiderFrame_trans s1 s2 s3 : RiderFrame s1 s2 -> RiderFrame s2 s3 -> RiderFrame s1 s3.
Proof.
  intros [a1 a2 a3 a4 a5 a6 a7] [b1 b2 b3 b4 b5 b6 b7].
  constructor; try (etransitivity; eassumption).
  - intros u. rewrite b6. auto.
  - intros u. rewrite b7. auto.
Qed.

Ltac rider_frame :=
  constructor; sim_cbn; cbn [updT Task_eqb]; try reflexivity;
  intros; in_wait; try solve [simpl; intuition (try congruence)].

(** After the driver took the task that fires off the pending sequence. *)
Lemma RidersMid_pop s t rest :
  Riders s -> NoDup (wait_ s) -> wait_ s = t :: rest ->
  (forall u, t = usertask u -> nextinst_ s t <> 5) ->
  RidersMid (set_wait rest s).
Proof.
  intros HR Hnd Hw Ht.
  pose proof (rid_pending _ HR) as Hp. pose proof (rid_queue _ HR) as Hq.
  rewrite Hw in *. inversion Hnd; subst.
  constructor; sim_cbn.
  - intros u Hu. destruct (Hp u (or_intror Hu)) as [Ha|[Hb [Hc|[Hc|Hc]]]]; auto.
    + destruct Hc as (_ & Hc & _). simpl in Hc. congruence.
    + destruct Hc as (_ & Hc). simpl in Hc. congruence.
  - intros f u Hu. destruct (Hq f u Hu) as (Ha & Hb & [Hc|[Hc Hd]]); auto.
    simpl in Hd. injection Hd as ->. exfalso. eapply Ht; eauto.
  - apply (rid_elevator _ HR).
  - apply (rid_fields _ HR).
  - apply (rid_nodup_queue _ HR).
  - apply (rid_nodup_elevator _ HR).
Qed.

Lemma Riders_of_mid s :
  RidersMid s -> (exists n, users_ s = S n /\ In (usertask n) (wait_ s)) -> Riders s.
Proof.
  intros HM Ha. constructor.
  - assumption.
  - intros u Hu. destruct (mid_pending _ HM u Hu); [left | right]; tauto.
  - intros f u Hu. destruct (mid_queue _ HM f u Hu) as (? & ? & ?). tauto.
  - apply (mid_elevator _ HM).
  - apply (mid_fields _ HM).
  - apply (mid_nodup_queue _ HM).
  - apply (mid_nodup_elevator _ HM).
Qed.

Lemma Car_pop s t rest :
  Car s -> NoDup (wait_ s) -> wait_ s = t :: rest -> t <> elevatortask ->
  Car (set_wait rest s).
Proof.
  intros HC Hnd Hw Ht. eapply Car_frame; [|exact HC].
  constructor; sim_cbn; rewrite ?Hw; simpl; tauto.
Qed.

(** *** The decision subroutine, called by a rider or by the inactivity
    monitor *)

Lemma wp_decision now Q s :
  WQ now (nexttime_ s) (wait_ s) -> Car s ->
  (forall s', WQ now (nexttime_ s') (wait_ s') -> Car s' -> RiderFrame s s' -> Q tt s') ->
  wp (decision now false) Q s.
Proof.
  intros HWQ HC HQ.
  assert (Hret : wp (ret tt) Q s).
  { apply wp_ret, HQ; [assumption | assumption | apply RiderFrame_refl]. }
  pose proof (D3_loop_spec s floors (-1)) as Hjj.
  unfold wp, decision. cbv beta iota.
  set (jj := D3_loop s floors (-1)) in *.
  destruct (state_ s) eqn:Est; cbn [negb Direction_eqb]; cbv iota; try exact Hret.
  destruct ((nextinst_ s elevatortask =? 1) && any_call s 2) eqn:ED2.
  - apply andb_prop in ED2. destruct ED2 as [E1 E2]. apply Z.eqb_eq in E1.
    apply (wp_schedule now); [solve_wq|].
    apply HQ; [solve_wq | | rider_frame].
    car_fields HC.
  - destruct (Z.eqb_spec jj (-1)) as [Ejj|Ejj]; cbn [negb]; cbv iota.
    + exact Hret.
    + destruct Hjj as [[Hjj _]|(Hin & Hne & Hcall)]; [congruence|].
      apply In_floors in Hin.
      apply wp_bind, wp_modify.
      assert (Hdir : forall s1,
                       (forall j, any_call s1 j = any_call s j) ->
                       ((if jj <? floor_ s then GoingDown
                         else if jj >? floor_ s then GoingUp else Neutral) = GoingUp
                        -> call_above s1 (floor_ s) \/ floor_ s < 2)
                       /\ ((if jj <? floor_ s then GoingDown
                            else if jj >? floor_ s then GoingUp else Neutral) = GoingDown
                           -> call_below s1 (floor_ s) \/ 2 < floor_ s)).
      { intros s1 Ec. unfold call_above, call_below.
        destruct (Z.ltb_spec jj (floor_ s)); [|destruct (Z.gtb_spec jj (floor_ s))];
          split; intros Hd; try discriminate; left; exists jj; rewrite Ec; auto. }
      apply wp_when; intros Ew.
      * apply (wp_schedule now); [solve_wq|].
        apply HQ; [solve_wq | | rider_frame].
        apply andb_prop in Ew. destruct Ew as [E1 E2]. apply Z.eqb_eq in E1.
        car_fields HC.
        intros _. apply Hdir; reflexivity.
      * apply HQ; [solve_wq | | rider_frame].
        car_fields HC.
        intros _. apply Hdir; reflexivity.
Qed.

(** *** Putting the invariant together after a step *)

Lemma Inv_intro now s0 X :
  WQ now (nexttime_ X) (wait_ X) -> Car X ->
  RidersMid s0 -> RiderFrame s0 X ->
  (exists n, users_ s0 = S n /\ In (usertask n) (wait_ s0)) ->
  Inv X.
Proof.
  intros HWQ HC HM HF (n & Hn & Hin).
  destruct (WQ_boundary _ _ _ HWQ) as [Hnd Hso].
  constructor; try assumption.
  apply Riders_of_mid; [eapply RidersMid_frame; eauto|].
  exists n. destruct HF as [Eu _ _ _ _ _ Ew]. rewrite Eu, Ew. auto.
Qed.

(** What is known when the driver has taken [t] off the pending sequence. *)
Lemma pop_facts s t rest :
  Inv s -> wait_ s = t :: rest ->
  WQ (nexttime_ s t) (nexttime_ s) rest /\ ~ In t rest.
Proof.
  intros [Hnd Hso _ _] Hw. rewrite Hw in *. split.
  - apply WQ_pop; assumption.
  - inversion Hnd; assumption.
Qed.

Lemma pop_riders s t rest :
  Inv s -> wait_ s = t :: rest -> (forall u, t <> usertask u) ->
  RidersMid (set_wait rest s)
  /\ exists n, users_ s = S n /\ In (usertask n) rest.
Proof.
  intros [Hnd Hso _ HR] Hw Ht. split.
  - eapply RidersMid_pop; eauto. intros u E. destruct (Ht u E).
  - destruct (rid_arrival _ HR) as (n & Hn & Hin). exists n. split; [assumption|].
    rewrite Hw in Hin. destruct Hin as [E|Hin]; [destruct (Ht n E) | assumption].
Qed.

Ltac wp_get_ := apply wp_bind; apply wp_get; cbv beta.
Ltac wp_assert_ := apply wp_bind; apply wp_assert.
Ltac wp_index_ := apply wp_bind; apply wp_check_index.

Lemma call_above_same s s' f :
  (forall j, any_call s' j = any_call s j) -> call_above s f -> call_above s' f.
Proof. intros E. apply call_above_mono. intros j _ _. rewrite E. auto. Qed.

Lemma call_below_same s s' f :
  (forall j, any_call s' j = any_call s j) -> call_below s f -> call_below s' f.
Proof. intros E. apply call_below_mono. intros j _ _. rewrite E. auto. Qed.

Ltac same_calls :=
  first [ eapply call_above_same; [intros; reflexivity | eassumption]
        | eapply call_below_same; [intros; reflexivity | eassumption] ].

(** The start of every step of the car: the driver has removed the car's
    task, whose resume point is [k]. *)
Ltac elevator_prelude HI Hw He :=
  let HWQ := fresh "HWQ" in let Hnotin := fresh "Hnotin" in
  let HM := fresh "HM" in let Harr := fresh "Harr" in
  destruct (pop_facts _ _ _ HI Hw) as [HWQ Hnotin];
  destruct (pop_riders _ _ _ HI Hw ltac:(discriminate)) as [HM Harr];
  let HC := fresh "HC" in
  pose proof (inv_car _ HI) as HC;
  unfold ei in He;
  unfold ElevatorTask_resume; wp_get_; wp_get_; sim_cbn;
  rewrite He; cbn [Z.eqb Pos.eqb]; cbv iota.

Lemma car_not_busy s : Car s -> ei s <> 4 -> d1_ s = false.
Proof.
  intros HC He. destruct (d1_ s) eqn:E; [|reflexivity].
  apply (car_d1 _ HC) in E. tauto.
Qed.

Lemma car_busy s : Car s -> ei s = 4 -> In elevatortask (wait_ s) -> d1_ s = true.
Proof. intros HC He Hin. apply (car_d1 _ HC). auto. Qed.

(** *** The steps of the car *)

Lemma step_E1 s rest :
  Inv s -> wait_ s = elevatortask :: rest -> ei s = 1 ->
  wp ElevatorTask_resume (fun _ s' => Inv s') (set_wait rest s).
Proof.
  intros HI Hw He. elevator_prelude HI Hw He.
  wp_get_. apply wp_assert.
  - sim_cbn. apply Z.eqb_eq. apply (car_idle _ HC He).
  - apply (Inv_intro (nexttime_ s elevatortask) (set_wait rest s));
      [solve_wq | | assumption | apply RiderFrame_refl | assumption].
    car_fields_w HC Hw.
Qed.

Lemma step_E3 s rest :
  Inv s -> wait_ s = elevatortask :: rest -> ei s = 3 ->
  wp ElevatorTask_resume (fun _ s' => Inv s') (set_wait rest s).
Proof.
  intros HI Hw He. elevator_prelude HI Hw He.
  set (now := nexttime_ s elevatortask) in *.
  unfold E3. wp_mod. wp_mod. wp_sched now. wp_sched now. wp_sched_last now.
  apply (Inv_intro now (set_wait rest s));
    [solve_wq | | assumption | rider_frame | assumption].
  car_fields_w HC Hw.
Qed.

Lemma E2_state_dir s :
  (E2_state s = GoingUp -> call_above s (floor_ s))
  /\ (E2_state s = GoingDown -> call_below s (floor_ s)).
Proof.
  unfold E2_state.
  pose proof (wants_up_iff s) as Hu. pose proof (wants_down_iff s) as Hd.
  pose proof (passenger_up_above s) as Pu. pose proof (passenger_down_below s) as Pd.
  destruct (state_ s); cbn [Direction_eqb andb];
    destruct (passenger_wants_up (scan_calls s) || waiter_wants_up (scan_calls s));
    destruct (passenger_wants_down (scan_calls s) || waiter_wants_down (scan_calls s));
    destruct (passenger_wants_up (scan_calls s));
    destruct (passenger_wants_down (scan_calls s));
    cbn [negb]; split; intros E; try discriminate; intuition auto.
Qed.

Lemma step_E2 s rest :
  Inv s -> wait_ s = elevatortask :: rest -> ei s = 2 ->
  wp ElevatorTask_resume (fun _ s' => Inv s') (set_wait rest s).
Proof.
  intros HI Hw He. elevator_prelude HI Hw He.
  set (now := nexttime_ s elevatortask) in *.
  unfold E2, E3. wp_mod. wp_mod. wp_mod. wp_sched now. wp_sched now. wp_sched_last now.
  apply (Inv_intro now (set_wait rest s));
    [solve_wq | | assumption | rider_frame | assumption].
  destruct (E2_state_dir (set_wait rest s)) as [Hup Hdown]. sim_cbn.
  car_fields_w HC Hw.
Qed.

Lemma step_E7 s rest :
  Inv s -> wait_ s = elevatortask :: rest -> ei s = 7 ->
  wp ElevatorTask_resume (fun _ s' => Inv s') (set_wait rest s).
Proof.
  intros HI Hw He. elevator_prelude HI Hw He.
  set (now := nexttime_ s elevatortask) in *.
  pose proof (car_E7 _ HC He) as Hup. unfold up_ok in Hup.
  assert (Hlt : floor_ s < 4).
  { destruct Hup as [(j & ? & ? & _)|?]; lia. }
  assert (Hd1 : d1_ s = false) by (apply car_not_busy; [assumption | unfold ei; lia]).
  unfold E7. wp_get_. sim_cbn.
  wp_assert_; [rewrite Hd1; reflexivity|].
  wp_assert_; [apply Z.ltb_lt; assumption|].
  wp_mod. wp_sched_last now.
  apply (Inv_intro now (set_wait rest s));
    [solve_wq | | assumption | rider_frame | assumption].
  car_fields_w HC Hw.
  intros _. rewrite Z.add_simpl_r.
  destruct Hup as [Hup|?]; [left; same_calls | right; lia].
Qed.

Lemma step_E8 s rest :
  Inv s -> wait_ s = elevatortask :: rest -> ei s = 8 ->
  wp ElevatorTask_resume (fun _ s' => Inv s') (set_wait rest s).
Proof.
  intros HI Hw He. elevator_prelude HI Hw He.
  set (now := nexttime_ s elevatortask) in *.
  pose proof (car_E8 _ HC He) as Hdn. unfold down_ok in Hdn.
  assert (Hlt : 0 < floor_ s).
  { destruct Hdn as [(j & ? & ? & _)|?]; lia. }
  assert (Hd1 : d1_ s = false) by (apply car_not_busy; [assumption | unfold ei; lia]).
  unfold E8. wp_get_. sim_cbn.
  wp_assert_; [rewrite Hd1; reflexivity|].
  wp_assert_; [apply Z.gtb_lt; assumption|].
  wp_mod. wp_sched_last now.
  apply (Inv_intro now (set_wait rest s));
    [solve_wq | | assumption | rider_frame | assumption].
  car_fields_w HC Hw.
  intros _. rewrite Z.sub_add.
  destruct Hdn as [Hdn|?]; [left; same_calls | right; lia].
Qed.

Lemma step_E71 s rest :
  Inv s -> wait_ s = elevatortask :: rest -> ei s = 71 ->
  wp ElevatorTask_resume (fun _ s' => Inv s') (set_wait rest s).
Proof.
  intros HI Hw He. elevator_prelude HI Hw He.
  set (now := nexttime_ s elevatortask) in *.
  pose proof (car_E71 _ HC He) as Hup.
  pose proof (wants_up_iff (set_wait rest s)) as Hwu.
  unfold E71. wp_get_. wp_index_; [sim_cbn; apply (car_floor _ HC)|].
  match goal with |- wp (if ?b then _ else _) _ _ => destruct b eqn:Estop end.
  - wp_sched_last now.
    apply (Inv_intro now (set_wait rest s));
      [solve_wq | | assumption | rider_frame | assumption].
    car_fields_w HC Hw.
  - wp_imm_last now.
    apply (Inv_intro now (set_wait rest s));
      [solve_wq | | assumption | rider_frame | assumption].
    assert (Hgo : call_above s (floor_ s) \/ floor_ s < 2).
    { sim_cbn.
      apply orb_false_elim in Estop. destruct Estop as [Estop E3].
      apply orb_false_elim in Estop. destruct Estop as [E1 E2].
      assert (Habove : passenger_wants_up (scan_calls (set_wait rest s))
                       || waiter_wants_up (scan_calls (set_wait rest s)) = true ->
                       call_above s (floor_ s)).
      { intros E. apply Hwu in E. same_calls. }
      destruct (passenger_wants_up (scan_calls (set_wait rest s))
                || waiter_wants_up (scan_calls (set_wait rest s))); [auto|].
      cbn [negb] in E3. rewrite andb_true_r in E3.
      apply orb_false_elim in E3. destruct E3 as [E3 E4].
      apply Z.eqb_neq in E3.
      destruct Hup as [(j & Hj & Hlt & Hc)|Hle]; [|right; lia].
      left. exists j. repeat split; try lia; try assumption.
      destruct (Z.eq_dec j (floor_ s)) as [->|]; [|lia].
      unfold any_call in Hc. rewrite E1, E2, E4 in Hc. discriminate. }
    car_fields_w HC Hw.
Qed.

Lemma step_E81 s rest :
  Inv s -> wait_ s = elevatortask :: rest -> ei s = 81 ->
  wp ElevatorTask_resume (fun _ s' => Inv s') (set_wait rest s).
Proof.
  intros HI Hw He. elevator_prelude HI Hw He.
  set (now := nexttime_ s elevatortask) in *.
  pose proof (car_E81 _ HC He) as Hdn.
  pose proof (wants_down_iff (set_wait rest s)) as Hwd.
  unfold E81. wp_get_. wp_index_; [sim_cbn; apply (car_floor _ HC)|].
  match goal with |- wp (if ?b then _ else _) _ _ => destruct b eqn:Estop end.
  - wp_sched_last now.
    apply (Inv_intro now (set_wait rest s));
      [solve_wq | | assumption | rider_frame | assumption].
    car_fields_w HC Hw.
  - wp_imm_last now.
    apply (Inv_intro now (set_wait rest s));
      [solve_wq | | assumption | rider_frame | assumption].
    assert (Hgo : call_below s (floor_ s) \/ 2 < floor_ s).
    { sim_cbn.
      apply orb_false_elim in Estop. destruct Estop as [Estop E3].
      apply orb_false_elim in Estop. destruct Estop as [E1 E2].
      assert (Hbelow : passenger_wants_down (scan_calls (set_wait rest s))
                       || waiter_wants_down (scan_calls (set_wait rest s)) = true ->
                       call_below s (floor_ s)).
      { intros E. apply Hwd in E. same_calls. }
      destruct (passenger_wants_down (scan_calls (set_wait rest s))
                || waiter_wants_down (scan_calls (set_wait rest s))); [auto|].
      cbn [negb] in E3. rewrite andb_true_r in E3.
      apply orb_false_elim in E3. destruct E3 as [E3 E4].
      apply Z.eqb_neq in E3.
      destruct Hdn as [(j & Hj & Hlt & Hc)|Hle]; [|right; lia].
      left. exists j. repeat split; try lia; try assumption.
      destruct (Z.eq_dec j (floor_ s)) as [->|]; [|lia].
      unfold any_call in Hc. rewrite E1, E2, E4 in Hc. discriminate. }
    car_fields_w HC Hw.
Qed.

Lemma decision_fromE6 now s :
  nextinst_ s elevatortask <> 1 -> decision now true s = Ok (tt, decided s).
Proof.
  intros He. unfold decision, decided.
  destruct (state_ s); cbn [negb Direction_eqb]; cbv iota; try reflexivity.
  apply Z.eqb_neq in He. rewrite He. cbn [andb]. cbv iota.
  set (jj := D3_loop s floors 2).
  assert (Hjj : jj <> -1).
  { destruct (D3_loop_spec s floors 2) as [[E _]|(Hin & _)]; fold jj in E || fold jj in Hin.
    - lia.
    - apply In_floors in Hin. lia. }
  apply Z.eqb_neq in Hjj. rewrite Hjj. cbn [negb andb]. cbv iota.
  unfold bind, modify, when, ret. reflexivity.
Qed.

Lemma wp_decision_E6 now Q s :
  nextinst_ s elevatortask <> 1 -> Q tt (decided s) -> wp (decision now true) Q s.
Proof. intros He HQ. unfold wp. rewrite decision_fromE6 by assumption. exact HQ. Qed.

Lemma call_above_clear s s' f :
  (forall j, j <> f -> any_call s' j = any_call s j) ->
  call_above s f -> call_above s' f.
Proof. intros E. apply call_above_mono. intros j _ Hj. rewrite E by lia. auto. Qed.

Lemma call_below_clear s s' f :
  (forall j, j <> f -> any_call s' j = any_call s j) ->
  call_below s f -> call_below s' f.
Proof. intros E. apply call_below_mono. intros j _ Hj. rewrite E by lia. auto. Qed.

Ltac cleared_calls :=
  first [ eapply call_above_clear; [|eassumption]
        | eapply call_below_clear; [|eassumption] ];
  let j := fresh "j" in let Hj := fresh "Hj" in
  intros j Hj; unfold any_call; sim_cbn; rewrite ?upd_other by assumption; reflexivity.

Lemma existsb_Task_eqb_notin t w : ~ In t w -> existsb (Task_eqb t) w = false.
Proof.
  intros H. destruct (existsb (Task_eqb t) w) eqn:E; [|reflexivity].
  apply existsb_exists in E. destruct E as (x & Hx & E).
  destruct (Task_eqb_spec t x); [subst; tauto | discriminate].
Qed.

Ltac norm_state Est :=
  repeat (progress (sim_cbn; rewrite ?Est; cbn [Direction_eqb negb]; cbv beta iota)).

(** Step E6 keeps the invariant, and leaves the car without direction
    only on floor 2, its task in front of the pending sequence, to resume at
    E1 at once. *)
Lemma step_E6_home s rest :
  Inv s -> wait_ s = elevatortask :: rest -> ei s = 6 ->
  wp ElevatorTask_resume
     (fun _ s' => Inv s' /\
        (state_ s' = Neutral ->
         floor_ s = 2 /\ floor_ s' = 2 /\ wait_ s' = elevatortask :: rest
         /\ nextinst_ s' elevatortask = 1
         /\ nexttime_ s' elevatortask = nexttime_ s elevatortask))
     (set_wait rest s).
Proof.
  intros HI Hw He. elevator_prelude HI Hw He.
  set (now := nexttime_ s elevatortask) in *.
  assert (Hd1 : d1_ s = false) by (apply car_not_busy; [assumption | unfold ei; lia]).
  assert (Hdir : (state_ s = GoingUp -> up_ok s) /\ (state_ s = GoingDown -> down_ok s))
    by (apply (car_dir _ HC); unfold ei; auto).
  unfold up_ok, down_ok in Hdir. destruct Hdir as [Hup Hdn].
  unfold E6. wp_get_. sim_cbn.
  wp_assert_; [rewrite Hd1; reflexivity|].
  wp_index_; [apply (car_floor _ HC)|].
  wp_mod. sim_cbn.
  destruct (state_ s) eqn:Est; cbn [Direction_eqb negb when].
  - (* GoingUp *)
    wp_mod. apply wp_bind, wp_ret. sim_cbn.
    apply wp_bind, wp_decision_E6; [sim_cbn; lia|].
    wp_get_. unfold decided. norm_state Est.
    apply wp_bind.
    assert (Hgo : call_above s (floor_ s) \/ floor_ s < 2) by auto.
    apply wp_when; intros Ed2; [apply (wp_cancel now); [solve_wq|] |]; wp_sched_last now;
      (split; [|intros E; sim_cbn; try rewrite Est in E; discriminate E]);
      (apply (Inv_intro now (set_wait rest s));
       [solve_wq | | assumption | rider_frame | assumption]).
    + car_fields_w HC Hw.
      intros _. destruct Hgo as [Hgo|?]; [left; cleared_calls | right; lia].
    + car_fields_w HC Hw.
      intros _. destruct Hgo as [Hgo|?]; [left; cleared_calls | right; lia].
  - (* GoingDown *)
    apply wp_bind, wp_ret. wp_mod. sim_cbn.
    apply wp_bind, wp_decision_E6; [sim_cbn; lia|].
    wp_get_. unfold decided. norm_state Est.
    apply wp_bind.
    assert (Hgo : call_below s (floor_ s) \/ 2 < floor_ s) by auto.
    apply wp_when; intros Ed2; [apply (wp_cancel now); [solve_wq|] |]; wp_sched_last now;
      (split; [|intros E; sim_cbn; try rewrite Est in E; discriminate E]);
      (apply (Inv_intro now (set_wait rest s));
       [solve_wq | | assumption | rider_frame | assumption]).
    + car_fields_w HC Hw.
      intros _. destruct Hgo as [Hgo|?]; [left; cleared_calls | right; lia].
    + car_fields_w HC Hw.
      intros _. destruct Hgo as [Hgo|?]; [left; cleared_calls | right; lia].
  - (* Neutral *)
    wp_mod. wp_mod. sim_cbn.
    apply wp_bind, wp_decision_E6; [sim_cbn; lia|].
    match goal with |- wp _ _ (decided ?s1) =>
      pose proof (D3_loop_spec s1 floors 2) as Hjj;
      unfold decided; sim_cbn; rewrite Est; cbv zeta;
      set (jj := D3_loop s1 floors 2) in *
    end.
    sim_cbn.
    wp_get_. sim_cbn.
    destruct (Z.ltb_spec jj (floor_ s)) as [Hlt|Hge];
      [|destruct (Z.gtb_spec jj (floor_ s)) as [Hgt|Hle]];
      cbn [Direction_eqb]; cbv iota.
    + (* towards a lower floor *)
      assert (Hgo : forall s', (forall j, any_call s' j =
                      any_call (set_calldown (upd (calldown_ s) (floor_ s) false)
                                  (set_callup (upd (callup_ s) (floor_ s) false)
                                     (set_callcar (upd (callcar_ s) (floor_ s) false)
                                        (set_wait rest s)))) j) ->
                    call_below s' (floor_ s) \/ 2 < floor_ s).
      { intros s' E. destruct Hjj as [[E2 _]|(Hin & Hne & Hc)]; [right; lia|].
        left. exists jj. apply In_floors in Hin. rewrite E. auto. }
      apply wp_bind.
      apply wp_when; intros Ed2; [apply (wp_cancel now); [solve_wq|] |]; wp_sched_last now;
        (split; [|intros E; sim_cbn; discriminate E]);
        (apply (Inv_intro now (set_wait rest s));
         [solve_wq | | assumption | rider_frame | assumption]).
      * car_fields_w HC Hw.
        intros _. apply Hgo. reflexivity.
      * car_fields_w HC Hw.
        intros _. apply Hgo. reflexivity.
    + (* towards a higher floor *)
      assert (Hgo : forall s', (forall j, any_call s' j =
                      any_call (set_calldown (upd (calldown_ s) (floor_ s) false)
                                  (set_callup (upd (callup_ s) (floor_ s) false)
                                     (set_callcar (upd (callcar_ s) (floor_ s) false)
                                        (set_wait rest s)))) j) ->
                    call_above s' (floor_ s) \/ floor_ s < 2).
      { intros s' E. destruct Hjj as [[E2 _]|(Hin & Hne & Hc)]; [right; lia|].
        left. exists jj. apply In_floors in Hin. rewrite E. auto. }
      apply wp_bind.
      apply wp_when; intros Ed2; [apply (wp_cancel now); [solve_wq|] |]; wp_sched_last now;
        (split; [|intros E; sim_cbn; discriminate E]);
        (apply (Inv_intro now (set_wait rest s));
         [solve_wq | | assumption | rider_frame | assumption]).
      * car_fields_w HC Hw.
        intros _. apply Hgo. reflexivity.
      * car_fields_w HC Hw.
        intros _. apply Hgo. reflexivity.
    + (* nowhere to go: back to E1 *)
      assert (Ef : floor_ s = 2).
      { destruct Hjj as [[E2 _]|(_ & Hne & _)]; sim_cbn; lia. }
      wp_assert_; [apply Z.eqb_eq; assumption|].
      wp_assert_; [rewrite existsb_Task_eqb_notin by assumption; reflexivity|].
      wp_imm_last now.
      split.
      * apply (Inv_intro now (set_wait rest s));
          [solve_wq | | assumption | rider_frame | assumption].
        car_fields_w HC Hw.
      * intros _. sim_cbn. cbn [updT Task_eqb].
        rewrite (erase_first_notin _ Task_eqb_spec) by assumption. auto.
Qed.

Lemma step_E6 s rest :
  Inv s -> wait_ s = elevatortask :: rest -> ei s = 6 ->
  wp ElevatorTask_resume (fun _ s' => Inv s') (set_wait rest s).
Proof.
  intros HI Hw He. eapply wp_conseq; [|apply step_E6_home; eassumption].
  cbv beta. tauto.
Qed.

(** Step E4 hands the front of the pending sequence to a rider. *)
Lemma handed_rider_in_front now s rest p step d :
  WQ now (nexttime_ s) rest -> 0 <= d ->
  exists w',
    wait_ (after_schedule elevatortask 4 (now + d)
             (after_immediately (usertask p) step now (set_wait rest s)))
    = usertask p :: w'.
Proof.
  intros HWQ Hd. sim_cbn.
  eapply sched_wait_keeps_head with (now := now).
  - apply WQ_imm. eassumption.
  - apply updT_same.
  - discriminate.
  - lia.
Qed.

Lemma step_E4 s rest :
  Inv s -> wait_ s = elevatortask :: rest -> ei s = 4 ->
  wp ElevatorTask_resume (fun _ s' => Inv s') (set_wait rest s).
Proof.
  intros HI Hw He. elevator_prelude HI Hw He.
  set (now := nexttime_ s elevatortask) in *.
  assert (Hd1 : d1_ s = true).
  { apply car_busy; [assumption | assumption | rewrite Hw; simpl; auto]. }
  destruct Harr as (n & Hn & Hnin).
  unfold E4. wp_get_. sim_cbn.
  wp_assert_; [assumption|].
  wp_index_; [apply (car_floor _ HC)|].
  destruct (find (fun p => out_ s p =? floor_ s) (elevator_ s)) as [p|] eqn:El.
  - (* somebody leaves *)
    apply find_some in El. destruct El as [Hp _].
    destruct (mid_elevator _ HM p Hp) as [Hpu Hpq]. sim_cbn.
    wp_imm now. wp_sched_last now.
    destruct (handed_rider_in_front now s rest p 6 durationOfLeaving HWQ ltac:(discriminate))
      as (w' & Hhead).
    assert (HWQ' : WQ now
              (nexttime_ (after_schedule elevatortask 4 (now + durationOfLeaving)
                 (after_immediately (usertask p) 6 now (set_wait rest s))))
              (wait_ (after_schedule elevatortask 4 (now + durationOfLeaving)
                 (after_immediately (usertask p) 6 now (set_wait rest s)))))
      by solve_wq.
    destruct (WQ_boundary _ _ _ HWQ') as [Hnd' Hso'].
    constructor; [assumption | assumption | |].
    + clear Hhead HWQ' Hnd' Hso'. car_fields_w HC Hw.
    + constructor.
      * exists n. split; [assumption|]. clear Hhead. sim_cbn. in_wait. auto.
      * intros u Hu. rewrite Hhead. clear Hhead HWQ' Hnd' Hso'.
        sim_cbn. in_wait. unfold updT. cbn [Task_eqb].
        destruct (Nat.eqb_spec u p) as [->|Hne].
        -- right. split; [assumption|]. right. right. auto.
        -- destruct Hu as [Hu|[Hu|Hu]]; [discriminate | congruence |].
           destruct (mid_pending _ HM u Hu) as [?|[? ?]]; [left | right]; tauto.
      * intros f u Hu. clear Hhead HWQ' Hnd' Hso'.
        destruct (mid_queue _ HM f u Hu) as (? & ? & ?).
        sim_cbn. unfold updT. cbn [Task_eqb].
        destruct (Nat.eqb_spec u p) as [->|Hne]; [destruct (Hpq f Hu) | tauto].
      * apply (mid_elevator _ HM).
      * apply (mid_fields _ HM).
      * apply (mid_nodup_queue _ HM).
      * apply (mid_nodup_elevator _ HM).
  - destruct (find (fun _ => true) (queue_ s (floor_ s))) as [p|] eqn:Eq.
    + (* somebody enters *)
      apply find_some in Eq. destruct Eq as [Hp _].
      destruct (mid_queue _ HM _ p Hp) as (Hpu & Hpin & Hp4). sim_cbn.
      wp_assert_; [apply Z.eqb_eq; assumption|].
      wp_imm now. wp_sched_last now.
      destruct (handed_rider_in_front now s rest p 5 durationOfEntering HWQ ltac:(discriminate))
        as (w' & Hhead).
      assert (HWQ' : WQ now
                (nexttime_ (after_schedule elevatortask 4 (now + durationOfEntering)
                   (after_immediately (usertask p) 5 now (set_wait rest s))))
                (wait_ (after_schedule elevatortask 4 (now + durationOfEntering)
                   (after_immediately (usertask p) 5 now (set_wait rest s)))))
        by solve_wq.
      destruct (WQ_boundary _ _ _ HWQ') as [Hnd' Hso'].
      constructor; [assumption | assumption | |].
      * clear Hhead HWQ' Hnd' Hso'. car_fields_w HC Hw.
      * constructor.
        -- exists n. split; [assumption|]. clear Hhead. sim_cbn. in_wait. auto.
        -- intros u Hu. rewrite Hhead. clear Hhead HWQ' Hnd' Hso'.
           unfold ei. sim_cbn. in_wait. unfold updT. cbn [Task_eqb].
           destruct (Nat.eqb_spec u p) as [->|Hne].
           ++ right. split; [assumption|]. right. left. auto.
           ++ destruct Hu as [Hu|[Hu|Hu]]; [discriminate | congruence |].
              destruct (mid_pending _ HM u Hu) as [?|[? ?]]; [left | right]; tauto.
        -- intros f u Hu. rewrite Hhead. clear Hhead HWQ' Hnd' Hso'.
           destruct (mid_queue _ HM f u Hu) as (? & ? & ?).
           sim_cbn. unfold updT. cbn [Task_eqb].
           destruct (Nat.eqb_spec u p) as [->|Hne]; tauto.
        -- apply (mid_elevator _ HM).
        -- apply (mid_fields _ HM).
        -- apply (mid_nodup_queue _ HM).
        -- apply (mid_nodup_elevator _ HM).
    + (* nobody: the doors stay open *)
      wp_mod. apply wp_modify.
      apply (Inv_intro now (set_wait rest s));
        [solve_wq | | assumption | rider_frame | exists n; auto].
      car_fields_w HC Hw.
Qed.

(** *** The two monitors *)

Lemma step_E5 s rest :
  Inv s -> wait_ s = e5task :: rest ->
  wp E5Task_resume (fun _ s' => Inv s') (set_wait rest s).
Proof.
  intros HI Hw.
  destruct (pop_facts _ _ _ HI Hw) as [HWQ Hnotin].
  destruct (pop_riders _ _ _ HI Hw ltac:(discriminate)) as [HM Harr].
  pose proof (inv_car _ HI) as HC.
  set (now := nexttime_ s e5task) in *.
  assert (H5 : nextinst_ s e5task = 5 /\ ei s = 4).
  { apply (car_e5 _ HC). rewrite Hw. simpl. auto. }
  destruct H5 as [H5 H4]. unfold ei in H4.
  unfold E5Task_resume. wp_get_. wp_get_. sim_cbn.
  wp_assert_; [apply Z.eqb_eq; assumption|].
  wp_get_. sim_cbn.
  destruct (d1_ s) eqn:Ed1.
  - wp_sched_last now.
    apply (Inv_intro now (set_wait rest s));
      [solve_wq | | assumption | rider_frame | assumption].
    car_fields_w HC Hw.
  - wp_mod. wp_sched_last now.
    apply (Inv_intro now (set_wait rest s));
      [solve_wq | | assumption | rider_frame | assumption].
    car_fields_w HC Hw.
Qed.

Lemma step_E9 s rest :
  Inv s -> wait_ s = e9task :: rest ->
  wp E9Task_resume (fun _ s' => Inv s') (set_wait rest s).
Proof.
  intros HI Hw.
  destruct (pop_facts _ _ _ HI Hw) as [HWQ Hnotin].
  destruct (pop_riders _ _ _ HI Hw ltac:(discriminate)) as [HM Harr].
  pose proof (inv_car _ HI) as HC.
  assert (HC0 : Car (set_wait rest s)).
  { eapply Car_pop; eauto. apply (inv_nodup _ HI). discriminate. }
  assert (H9 : nextinst_ s e9task = 9).
  { apply (car_e9 _ HC). rewrite Hw. simpl. auto. }
  set (now := nexttime_ s e9task) in *.
  unfold E9Task_resume. wp_get_. wp_get_. sim_cbn.
  wp_assert_; [apply Z.eqb_eq; assumption|].
  wp_mod.
  apply (wp_decision now); [solve_wq | |].
  - eapply Car_frame; [|exact HC0]. car_frame.
  - intros s' HWQ' HC' HF.
    apply (Inv_intro now (set_wait rest s)); try assumption.
    eapply RiderFrame_trans; [|exact HF]. rider_frame.
Qed.

(** Whatever its resume point, a step of the car keeps the invariant. *)
Lemma step_elevator s rest :
  Inv s -> wait_ s = elevatortask :: rest ->
  wp ElevatorTask_resume (fun _ s' => Inv s') (set_wait rest s).
Proof.
  intros HI Hw.
  pose proof (car_ei _ (inv_car _ HI)) as He. simpl in He.
  destruct He as [He|[He|[He|[He|[He|[He|[He|[He|[He|[]]]]]]]]]]; symmetry in He.
  - apply step_E1; assumption.
  - apply step_E2; assumption.
  - apply step_E3; assumption.
  - apply step_E4; assumption.
  - apply step_E6; assumption.
  - apply step_E7; assumption.
  - apply step_E71; assumption.
  - apply step_E8; assumption.
  - apply step_E81; assumption.
Qed.

(** *** The steps of a rider *)

Lemma wp_erase_queue f me Q s :
  0 <= f <= 4 -> NoDup (queue_ s f) ->
  Q tt (set_queue (upd (queue_ s) f (erase_first Nat.eqb (queue_ s f) me)) s) ->
  wp (erase_queue f me) Q s.
Proof.
  intros Hf Hnd HQ. unfold erase_queue.
  apply wp_bind, wp_check_index; [assumption|].
  unfold wp. rewrite (std_erase_ok _ Nat.eqb_spec) by assumption. exact HQ.
Qed.

Lemma wp_erase_elevator me Q s :
  NoDup (elevator_ s) ->
  Q tt (set_elevator (erase_first Nat.eqb (elevator_ s) me) s) ->
  wp (erase_elevator me) Q s.
Proof.
  intros Hnd HQ. unfold wp, erase_elevator.
  rewrite (std_erase_ok _ Nat.eqb_spec) by assumption. exact HQ.
Qed.

Lemma In_queue_erased (q : Z -> list nat) f me g u :
  In u (upd q f (erase_first Nat.eqb (q f) me) g) -> In u (q g).
Proof.
  unfold upd. destruct (Z.eqb_spec g f) as [->|]; [|auto].
  apply In_erase_first.
Qed.

Lemma NoDup_queue_erased (q : Z -> list nat) f me g :
  (forall h, NoDup (q h)) -> NoDup (upd q f (erase_first Nat.eqb (q f) me) g).
Proof.
  intros H. unfold upd. destruct (Z.eqb_spec g f) as [->|]; [|auto].
  apply NoDup_erase_first. auto.
Qed.

Lemma notin_queue_erased (q : Z -> list nat) f me g :
  (forall h, NoDup (q h)) -> (forall h, In me (q h) -> h = f) ->
  ~ In me (upd q f (erase_first Nat.eqb (q f) me) g).
Proof.
  intros Hnd Hf. unfold upd. destruct (Z.eqb_spec g f) as [->|Hne].
  - apply (notin_erase_first _ Nat.eqb_spec). auto.
  - intros H. apply Hne. auto.
Qed.

(** What is known when the rider [me] fires. *)
Lemma rider_cases s me rest :
  Inv s -> wait_ s = usertask me :: rest ->
  (S me = users_ s /\ nextinst_ s (usertask me) = 1)
  \/ ((S me < users_ s)%nat
      /\ (nextinst_ s (usertask me) = 4
          \/ (nextinst_ s (usertask me) = 5
              /\ In me (queue_ s (floor_ s)) /\ ei s = 4)
          \/ nextinst_ s (usertask me) = 6)).
Proof.
  intros HI Hw.
  assert (Hin : In (usertask me) (wait_ s)) by (rewrite Hw; simpl; auto).
  destruct (rid_pending _ (inv_riders _ HI) me Hin) as [H|[H1 H]].
  - auto.
  - right. split; [assumption|]. tauto.
Qed.

Lemma pop_rider s me rest :
  Inv s -> wait_ s = usertask me :: rest -> (S me < users_ s)%nat ->
  nextinst_ s (usertask me) <> 5 ->
  RidersMid (set_wait rest s)
  /\ exists n, users_ s = S n /\ In (usertask n) rest.
Proof.
  intros HI Hw Hme H5. split.
  - eapply RidersMid_pop; eauto using inv_riders, inv_nodup.
  - destruct (rid_arrival _ (inv_riders _ HI)) as (n & Hn & Hin).
    exists n. split; [assumption|].
    rewrite Hw in Hin. destruct Hin as [E|Hin]; [|assumption].
    injection E as <-. lia.
Qed.

Ltac rider_prelude HI Hw Hi :=
  unfold UserTask_resume; wp_get_; wp_get_; sim_cbn;
  rewrite Hi; cbn [Z.eqb Pos.eqb]; cbv iota.

Lemma step_U4 s me rest :
  Inv s -> wait_ s = usertask me :: rest -> (S me < users_ s)%nat ->
  nextinst_ s (usertask me) = 4 ->
  wp (UserTask_resume me) (fun _ s' => Inv s') (set_wait rest s).
Proof.
  intros HI Hw Hme Hi.
  destruct (pop_facts _ _ _ HI Hw) as [HWQ Hnotin].
  destruct (pop_rider _ _ _ HI Hw Hme ltac:(lia)) as [HM Harr].
  assert (HC0 : Car (set_wait rest s)).
  { eapply Car_pop; eauto using inv_car, inv_nodup. discriminate. }
  set (now := nexttime_ s (usertask me)) in *.
  rider_prelude HI Hw Hi.
  unfold U4. wp_get_. sim_cbn.
  apply wp_when; intros _.
  - apply wp_erase_queue.
    + apply (mid_fields _ HM me Hme).
    + apply (mid_nodup_queue _ HM).
    + sim_cbn. constructor.
      * apply HWQ.
      * apply HWQ.
      * eapply Car_frame; [|exact HC0]. car_frame.
      * apply Riders_of_mid; [|exact Harr].
        constructor; sim_cbn.
        -- apply (mid_pending _ HM).
        -- intros f u Hu. apply In_queue_erased in Hu. apply (mid_queue _ HM f u Hu).
        -- intros u Hu. destruct (mid_elevator _ HM u Hu) as [? Hq].
           split; [assumption|]. intros f Hf. apply In_queue_erased in Hf.
           apply (Hq f Hf).
        -- apply (mid_fields _ HM).
        -- intros f. apply NoDup_queue_erased. apply (mid_nodup_queue _ HM).
        -- apply (mid_nodup_elevator _ HM).
  - apply (Inv_intro now (set_wait rest s));
      [solve_wq | assumption | assumption | apply RiderFrame_refl | assumption].
Qed.

Lemma step_U6 s me rest :
  Inv s -> wait_ s = usertask me :: rest -> (S me < users_ s)%nat ->
  nextinst_ s (usertask me) = 6 ->
  wp (UserTask_resume me) (fun _ s' => Inv s') (set_wait rest s).
Proof.
  intros HI Hw Hme Hi.
  destruct (pop_facts _ _ _ HI Hw) as [HWQ Hnotin].
  destruct (pop_rider _ _ _ HI Hw Hme ltac:(lia)) as [HM Harr].
  assert (HC0 : Car (set_wait rest s)).
  { eapply Car_pop; eauto using inv_car, inv_nodup. discriminate. }
  rider_prelude HI Hw Hi.
  unfold U6. apply wp_erase_elevator.
  - apply (mid_nodup_elevator _ HM).
  - constructor.
    + apply HWQ.
    + apply HWQ.
    + eapply Car_frame; [|exact HC0]. car_frame.
    + apply Riders_of_mid; [|exact Harr].
      constructor; sim_cbn.
      * apply (mid_pending _ HM).
      * apply (mid_queue _ HM).
      * intros u Hu. apply In_erase_first in Hu. apply (mid_elevator _ HM u Hu).
      * apply (mid_fields _ HM).
      * apply (mid_nodup_queue _ HM).
      * apply NoDup_erase_first. apply (mid_nodup_elevator _ HM).
Qed.

Lemma step_U5 s me rest :
  Inv s -> wait_ s = usertask me :: rest -> (S me < users_ s)%nat ->
  nextinst_ s (usertask me) = 5 -> In me (queue_ s (floor_ s)) -> ei s = 4 ->
  wp (UserTask_resume me) (fun _ s' => Inv s') (set_wait rest s).
Proof.
  intros HI Hw Hme Hi Hq He.
  destruct (pop_facts _ _ _ HI Hw) as [HWQ Hnotin].
  pose proof (inv_riders _ HI) as HR.
  assert (HC0 : Car (set_wait rest s)).
  { eapply Car_pop; eauto using inv_car, inv_nodup. discriminate. }
  assert (Harr : exists n, users_ s = S n /\ In (usertask n) rest).
  { destruct (rid_arrival _ HR) as (n & Hn & Hin).
    exists n. split; [assumption|].
    rewrite Hw in Hin. destruct Hin as [E|Hin]; [|assumption].
    injection E as <-. lia. }
  destruct (rid_queue _ HR _ me Hq) as (_ & Hin & _).
  destruct (rid_fields _ HR me Hme) as (Hib & Hob & Hio).
  assert (Hqme : forall h, In me (queue_ s h) -> h = in_ s me).
  { intros h Hh. destruct (rid_queue _ HR h me Hh) as (_ & E & _). congruence. }
  assert (Hpend : forall u, In (usertask u) rest ->
            (S u = users_ s /\ nextinst_ s (usertask u) = 1)
            \/ ((S u < users_ s)%nat /\ nextinst_ s (usertask u) = 4)).
  { intros u Hu.
    assert (Hu' : In (usertask u) (wait_ s)) by (rewrite Hw; simpl; auto).
    destruct (rid_pending _ HR u Hu') as [H|[H1 [H|[H|H]]]]; auto.
    - destruct H as (_ & H & _). rewrite Hw in H. simpl in H.
      injection H as <-. tauto.
    - destruct H as (_ & H). rewrite Hw in H. simpl in H.
      injection H as <-. tauto. }
  assert (Hqueue : forall f u, In u (queue_ s f) -> u <> me ->
            (S u < users_ s)%nat /\ in_ s u = f /\ nextinst_ s (usertask u) = 4).
  { intros f u Hu Hne.
    destruct (rid_queue _ HR f u Hu) as (H1 & H2 & [H|[_ H]]); auto.
    rewrite Hw in H. simpl in H. congruence. }
  assert (Hnme : ~ In me (elevator_ s)).
  { intros H. destruct (rid_elevator _ HR me H) as [_ Hn]. apply (Hn _ Hq). }
  set (now := nexttime_ s (usertask me)) in *.
  rider_prelude HI Hw Hi.
  unfold U5. wp_get_. sim_cbn.
  apply wp_bind, wp_erase_queue; [assumption | apply (rid_nodup_queue _ HR) |].
  wp_mod. wp_index_; [assumption|]. wp_mod. sim_cbn.
  (* the riders, whatever the direction *)
  assert (HRid : forall X,
            users_ X = users_ s ->
            queue_ X = upd (queue_ s) (in_ s me)
                         (erase_first Nat.eqb (queue_ s (in_ s me)) me) ->
            elevator_ X = me :: elevator_ s ->
            in_ X = in_ s -> out_ X = out_ s ->
            (forall u, nextinst_ X (usertask u) = nextinst_ s (usertask u)) ->
            (forall u, In (usertask u) (wait_ X) <-> In (usertask u) rest) ->
            Riders X).
  { intros X Eu Eq Ee Ei Eo En Ew.
    apply Riders_of_mid.
    - constructor; rewrite ?Eu, ?Eq, ?Ee, ?Ei, ?Eo.
      + intros u Hu. rewrite En. apply Hpend. apply Ew. assumption.
      + intros f u Hu. rewrite En.
        assert (u <> me).
        { intros ->. revert Hu. apply notin_queue_erased; auto.
          apply (rid_nodup_queue _ HR). }
        apply In_queue_erased in Hu. auto.
      + intros u [<-|Hu].
        * split; [assumption|]. intros f. apply notin_queue_erased; auto.
          apply (rid_nodup_queue _ HR).
        * destruct (rid_elevator _ HR u Hu) as [? Hn]. split; [assumption|].
          intros f Hf. apply In_queue_erased in Hf. apply (Hn f Hf).
      + apply (rid_fields _ HR).
      + intros f. apply NoDup_queue_erased. apply (rid_nodup_queue _ HR).
      + constructor; [assumption | apply (rid_nodup_elevator _ HR)].
    - destruct Harr as (n & Hn & Hnin). exists n. rewrite Eu, Ew. auto. }
  assert (Hcalls : forall j, any_call (set_wait rest s) j = true ->
                     any_call (set_callcar (upd (callcar_ s) (out_ s me) true) s) j = true).
  { intros j. unfold any_call, upd. sim_cbn.
    destruct (j =? out_ s me); [rewrite orb_true_r; auto | auto]. }
  pose proof HC0 as HC0'. unfold ei in He.
  apply wp_when; intros Est.
  - (* the car was idle: the rider sets its direction *)
    destruct (state_ s) eqn:Es; try discriminate.
    wp_mod. wp_sched_last now.
    constructor.
    + eapply WQ_NoDup with (now := now). solve_wq.
    + eapply (WQ_boundary now). solve_wq.
    + car_fields HC0.
      intros _. rewrite <- Hin.
      destruct (Z.ltb_spec (in_ s me) (out_ s me)); split; intros E; try discriminate;
        left; exists (out_ s me); (repeat split; try lia);
        unfold any_call; sim_cbn; rewrite upd_same; apply orb_true_r.
    + apply HRid; sim_cbn; try reflexivity.
      intros u. in_wait. intuition congruence.
  - constructor.
    + apply HWQ.
    + apply HWQ.
    + eapply Car_frame; [|exact HC0']. car_frame.
      match goal with H : _ = true |- _ => exact (Hcalls _ H) end.
    + apply HRid; sim_cbn; reflexivity || tauto.
Qed.

(** *** The arrival of a rider *)

Lemma usertask_neq u v : u <> v -> usertask u <> usertask v.
Proof. congruence. Qed.

Lemma AfterSuccessor_frame me s s' :
  RiderFrame s s' -> AfterSuccessor me s -> AfterSuccessor me s'.
Proof.
  intros [Eu Eq Ee Ei Eo En Ew] HA.
  constructor; rewrite ?Eu, ?Eq, ?Ee, ?Ei, ?Eo.
  - apply (as_users _ _ HA).
  - apply Ew. apply (as_arrival _ _ HA).
  - intros u Hu. rewrite En. apply (as_pending _ _ HA). apply Ew. assumption.
  - intros f u Hu. rewrite En. apply (as_queue _ _ HA). assumption.
  - apply (as_elevator _ _ HA).
  - apply (as_fields _ _ HA).
  - apply (as_nodup_queue _ _ HA).
  - apply (as_nodup_elevator _ _ HA).
Qed.

Lemma U3_keeps me now i o d s :
  AfterSuccessor me s -> WQ now (nexttime_ s) (wait_ s) -> Car s ->
  0 <= i <= 4 -> 0 <= o <= 4 -> i <> o -> 0 <= d ->
  wp (U3 me now i o d) (fun _ s' => Inv s') s.
Proof.
  intros HA HWQ HC Hi Ho Hio Hd.
  pose proof (as_users _ _ HA) as Eu.
  unfold U3. wp_mod. wp_mod. wp_index_; [assumption|]. wp_mod. wp_sched_last now.
  constructor.
  - eapply WQ_NoDup with (now := now). solve_wq.
  - eapply (WQ_boundary now). solve_wq.
  - eapply Car_frame; [|exact HC]. car_frame.
  - apply Riders_of_mid.
    + constructor; sim_cbn; rewrite ?Eu.
      * intros u Hu. in_wait. unfold updT. cbn [Task_eqb].
        destruct (Nat.eqb_spec u me) as [->|Hne]; [right; split; [lia | reflexivity]|].
        destruct Hu as [Hu|Hu]; [congruence|].
        destruct (as_pending _ _ HA u Hu) as [[-> E]|[Hlt E]]; [left | right];
          (split; [lia | assumption]).
      * intros f u Hu. unfold upd in Hu.
        assert (Hcase : In u (queue_ s f) \/ (u = me /\ f = i)).
        { destruct (Z.eqb_spec f i) as [Efi|Efi]; [|auto].
          apply in_app_iff in Hu. rewrite Efi.
          destruct Hu as [Hu|[<-|[]]]; auto. }
        destruct Hcase as [Hq|[-> ->]].
        -- destruct (as_queue _ _ HA f u Hq) as (Hlt & Ein & E4).
           rewrite updN_other, updT_other by (try apply usertask_neq; lia).
           split; [lia | auto].
        -- rewrite updN_same, updT_same. split; [lia | auto].
      * intros u Hu. destruct (as_elevator _ _ HA u Hu) as [Hlt Hn].
        split; [lia|]. intros f Hf. unfold upd in Hf.
        destruct (Z.eqb_spec f i) as [Efi|Efi]; [|apply (Hn f Hf)].
        apply in_app_iff in Hf. destruct Hf as [Hf|[E|[]]]; [apply (Hn i Hf) | lia].
      * intros u Hu. unfold updN.
        destruct (Nat.eqb_spec u me) as [->|Hne]; [tauto|].
        apply (as_fields _ _ HA). lia.
      * intros f. unfold upd.
        destruct (Z.eqb_spec f i) as [Efi|Efi]; [|apply (as_nodup_queue _ _ HA)].
        apply NoDup_app.
        -- apply (as_nodup_queue _ _ HA).
        -- constructor; [simpl; tauto | constructor].
        -- intros u Hu [E|[]]. destruct (as_queue _ _ HA i u Hu). lia.
      * apply (as_nodup_elevator _ _ HA).
    + exists (S me). sim_cbn. split; [assumption|]. in_wait. right.
      apply (as_arrival _ _ HA).
Qed.

Lemma U2_keeps me now i o s :
  AfterSuccessor me s -> WQ now (nexttime_ s) (wait_ s) -> Car s ->
  0 <= i <= 4 -> i <> o ->
  wp (U2 now i o)
     (fun _ s' => AfterSuccessor me s' /\ WQ now (nexttime_ s') (wait_ s') /\ Car s') s.
Proof.
  intros HA HWQ HC Hi Hio. unfold U2.
  wp_assert_; [apply Z.eqb_neq in Hio; rewrite Hio; reflexivity|].
  wp_get_. unfold elevator_is_available.
  destruct ((floor_ s =? i) && (nextinst_ s elevatortask =? 6)) eqn:E1.
  - (* the car is about to leave this floor: its doors open again *)
    apply andb_prop in E1. destruct E1 as [Ef E6]. apply Z.eqb_eq in E6.
    wp_imm_last now. split; [|split].
    + eapply AfterSuccessor_frame; [|exact HA]. rider_frame.
    + solve_wq.
    + car_fields HC.
  - destruct ((floor_ s =? i) && d3_ s) eqn:E2.
    + (* the doors are open and idle: the transfer resumes *)
      apply andb_prop in E2. destruct E2 as [Ef E3].
      destruct (car_d3 _ HC E3) as [E4 Ed1]. unfold ei in E4.
      wp_mod. wp_mod. wp_imm_last now. split; [|split].
      * eapply AfterSuccessor_frame; [|exact HA]. rider_frame.
      * solve_wq.
      * car_fields HC.
    + (* the rider presses a button *)
      wp_index_; [assumption|].
      assert (Hpress : forall s1, RiderFrame s s1 -> CarFrame s s1 ->
                nexttime_ s1 = nexttime_ s -> wait_ s1 = wait_ s ->
                wp (when (negb (d2_ s) || (nextinst_ s elevatortask =? 1))
                      (decision now false))
                   (fun _ s' => AfterSuccessor me s' /\
                                WQ now (nexttime_ s') (wait_ s') /\ Car s') s1).
      { intros s1 HF HCF Et Ew.
        assert (HC1 : Car s1) by (eapply Car_frame; eauto).
        assert (HWQ1 : WQ now (nexttime_ s1) (wait_ s1)) by (rewrite Et, Ew; assumption).
        assert (HA1 : AfterSuccessor me s1) by (eapply AfterSuccessor_frame; eauto).
        apply wp_when; intros _; [|auto].
        apply (wp_decision now); [assumption | assumption |].
        intros s' HWQ' HC' HF'. split; [|auto].
        eapply AfterSuccessor_frame; eauto. }
      destruct (i <? o); wp_mod; apply Hpress; try reflexivity;
        try apply RiderFrame_refl; try (rider_frame; fail).
      * constructor; try reflexivity; try tauto.
        intros j. unfold any_call, upd. sim_cbn.
        destruct (j =? i); auto.
      * constructor; try reflexivity; try tauto.
        intros j. unfold any_call, upd. sim_cbn.
        destruct (j =? i); [rewrite orb_true_r; auto | auto].
Qed.

Lemma step_U1 s me rest :
  Inv s -> wait_ s = usertask me :: rest -> S me = users_ s ->
  nextinst_ s (usertask me) = 1 ->
  wp (UserTask_resume me) (fun _ s' => Inv s') (set_wait rest s).
Proof.
  intros HI Hw Hme Hi.
  destruct (pop_facts _ _ _ HI Hw) as [HWQ Hnotin].
  assert (HM : RidersMid (set_wait rest s)).
  { eapply RidersMid_pop; eauto using inv_riders, inv_nodup.
    intros u E. rewrite Hi. discriminate. }
  assert (HC0 : Car (set_wait rest s)).
  { eapply Car_pop; eauto using inv_car, inv_nodup. discriminate. }
  set (now := nexttime_ s (usertask me)) in *.
  assert (Hold : forall u, In (usertask u) rest ->
            (u < me)%nat /\ nextinst_ s (usertask u) = 4).
  { intros u Hu. destruct (mid_pending _ HM u Hu) as [[E _]|[Hlt E]]; sim_cbn.
    - exfalso. assert (u = me) by lia. subst. tauto.
    - split; [lia | assumption]. }
  assert (Hfresh : ~ In (usertask (users_ s)) rest).
  { intros H. apply Hold in H. lia. }
  rider_prelude HI Hw Hi.
  unfold U1.
  destruct (createNewUser_ok (set_wait rest s))
    as (info & g & Ecreate & Hib & Hob & Hio & Hgu & Hit).
  apply wp_bind. unfold wp at 1. rewrite Ecreate.
  apply wp_bind. unfold wp at 1, make_shared_UserTask. sim_cbn.
  assert (HWQ1 : WQ now (updT (nexttime_ s) (usertask (users_ s)) (-1)) rest).
  { apply WQ_updT_fresh; assumption. }
  wp_sched now.
  apply wp_bind.
  eapply wp_conseq; [|apply (U2_keeps me now)].
  - intros _ s3 (HA3 & HWQ3 & HC3). cbv beta.
    apply (U3_keeps me now); try assumption; lia.
  - (* the riders after the successor is scheduled *)
    constructor; sim_cbn.
    + congruence.
    + in_wait. left. congruence.
    + intros u Hu. in_wait. unfold updT. cbn [Task_eqb].
      rewrite <- Hme in *.
      destruct (Nat.eqb_spec u (S me)) as [->|Hne]; [left; auto|].
      right. destruct Hu as [Hu|Hu]; [congruence|].
      destruct (Nat.eqb_spec u (S me)); [lia|]. apply Hold. assumption.
    + intros f u Hu. destruct (mid_queue _ HM f u Hu) as (Hlt & Ein & E4). sim_cbn.
      rewrite !updN_other, !updT_other by (try apply usertask_neq; lia).
      split; [lia | auto].
    + intros u Hu. destruct (mid_elevator _ HM u Hu) as (Hlt & Hn). sim_cbn.
      split; [lia | exact Hn].
    + intros u Hu. rewrite !updN_other by lia.
      apply (mid_fields _ HM). sim_cbn. lia.
    + apply (mid_nodup_queue _ HM).
    + apply (mid_nodup_elevator _ HM).
  - solve_wq.
  - eapply Car_frame; [|exact HC0]. car_frame.
  - assumption.
  - assumption.
Qed.

(** Whatever its resume point, a step of a rider keeps the invariant. *)
Lemma step_user s me rest :
  Inv s -> wait_ s = usertask me :: rest ->
  wp (UserTask_resume me) (fun _ s' => Inv s') (set_wait rest s).
Proof.
  intros HI Hw.
  destruct (rider_cases _ _ _ HI Hw) as [[H1 H2]|[H1 [H2|[(H2 & H3 & H4)|H2]]]].
  - apply step_U1; assumption.
  - apply step_U4; assumption.
  - apply step_U5; assumption.
  - apply step_U6; assumption.
Qed.

(** ** Every firing keeps the invariant *)

Theorem resume_keeps_Inv s t rest :
  Inv s -> wait_ s = t :: rest ->
  wp (resume t) (fun _ s' => Inv s') (set_wait rest s).
Proof.
  intros HI Hw. destruct t as [| | |me]; simpl resume.
  - apply step_elevator; assumption.
  - apply step_E5; assumption.
  - apply step_E9; assumption.
  - apply step_user; assumption.
Qed.

(** ** Runs *)

Lemma ctor_Inv g : wp ElevatorSimulation_ctor (fun _ s => Inv s) (members_default g).
Proof.
  unfold ElevatorSimulation_ctor.
  apply wp_bind. unfold wp at 1, make_shared_UserTask. cbv beta iota zeta.
  assert (HWQ : WQ 0 (updT (fun _ : Task => -1) (usertask 0) (-1)) []).
  { repeat split; constructor. }
  apply (wp_schedule 0); [unfold members_default; solve_wq|].
  unfold members_default. constructor.
  - eapply WQ_NoDup with (now := 0). solve_wq.
  - eapply (WQ_boundary 0). solve_wq.
  - constructor; unfold ei, up_ok, down_ok; sim_cbn; cbn [updT Task_eqb In]; in_wait;
      try solve [intros; lia | intros; discriminate
                | cbn [In]; intuition (try congruence; try lia)].
  - constructor; sim_cbn; cbn [updT Task_eqb In]; try solve [constructor]; try tauto.
    + exists 0%nat. in_wait. auto.
    + intros u Hu. in_wait. unfold updT. cbn [Task_eqb].
      destruct Hu as [Hu|[]]. injection Hu as ->. left. auto.
    + intros u Hu. lia.
Qed.

Lemma turn_keeps_Inv deadline s :
  Inv s ->
  wp (runUntil_turn deadline)
     (fun r s' => match r with Some _ => Inv s' | None => s' = s end) s.
Proof.
  intros HI. unfold runUntil_turn. wp_get_.
  destruct (wait_ s) as [|t rest] eqn:Hw.
  - destruct (rid_arrival _ (inv_riders _ HI)) as (n & _ & Hin).
    rewrite Hw in Hin. destruct Hin.
  - wp_assert_; [reflexivity|].
    destruct (nexttime_ s t >=? deadline); [apply wp_ret; reflexivity|].
    wp_mod. apply wp_bind.
    eapply wp_conseq; [|apply resume_keeps_Inv; eassumption].
    intros a s' HI'. apply wp_ret. exact HI'.
Qed.

Lemma wp_inv {A} (m : M A) Q s a s' : wp m Q s -> m s = Ok (a, s') -> Q a s'.
Proof. unfold wp. intros H E. rewrite E in H. exact H. Qed.

Lemma wp_not_abort {A} (m : M A) Q s f : wp m Q s -> m s <> Abort f.
Proof. unfold wp. intros H E. rewrite E in H. exact H. Qed.

(** Every state of a run satisfies the invariant. *)
Lemma reachable_Inv g deadline s : reachable g deadline s -> Inv s.
Proof.
  induction 1 as [s0 E|s line s' Hr IH E].
  - exact (wp_inv _ _ _ _ _ (ctor_Inv g) E).
  - exact (wp_inv _ _ _ _ _ (turn_keeps_Inv deadline s IH) E).
Qed.

(** No turn of the driver's loop aborts. *)
Lemma turn_never_aborts deadline s :
  Inv s -> exists r s', runUntil_turn deadline s = Ok (r, s').
Proof.
  intros HI. destruct (wp_ok _ _ _ (turn_keeps_Inv deadline s HI)) as (r & s' & E & _).
  eauto.
Qed.

Lemma ctor_never_aborts g :
  exists s0, ElevatorSimulation_ctor (members_default g) = Ok (tt, s0) /\ Inv s0.
Proof.
  destruct (wp_ok _ _ _ (ctor_Inv g)) as ([] & s0 & E & HI). eauto.
Qed.

(** No run aborts, however many turns it is given. *)
Lemma runUntil_never_aborts fuel deadline log s f :
  Inv s -> runUntil fuel deadline log s <> Some (Abort f).
Proof.
  revert log s. induction fuel as [|fuel IH]; intros log s HI; [discriminate|].
  destruct (wp_ok _ _ _ (turn_keeps_Inv deadline s HI)) as (r & s' & E & HQ).
  cbn [runUntil]. rewrite E. destruct r as [line|]; [|discriminate].
  apply IH. exact HQ.
Qed.

Lemma main_never_aborts g fuel argv f : main g fuel argv <> Some (Aborted f).
Proof.
  unfold main. destruct (ctor_never_aborts g) as (s0 & E & HI). rewrite E.
  match goal with |- context [runUntil fuel ?d [] s0] =>
    pose proof (fun f' => runUntil_never_aborts fuel d [] s0 f' HI) as Hn;
    destruct (runUntil fuel d [] s0) as [[[log s']|f']|] end;
    try discriminate.
  exfalso. apply (Hn f'). reflexivity.
Qed.

(** ** Concrete runs, for the examples *)

Lemma ctor_eq g : ElevatorSimulation_ctor (members_default g) = Ok (tt, ctor_state g).
Proof.
  unfold ElevatorSimulation_ctor, bind, make_shared_UserTask.
  rewrite schedule_ok by constructor. reflexivity.
Qed.

Lemma turn_fires deadline s t rest s' :
  wait_ s = t :: rest -> nexttime_ s t < deadline ->
  resume t (set_wait rest s) = Ok (tt, s') ->
  runUntil_turn deadline s = Ok (Some (log_line s t), s').
Proof.
  intros Hw Ht E. unfold runUntil_turn, bind, get. rewrite Hw.
  unfold assert at 1. cbn [negb]. cbv iota.
  destruct (Z.geb_spec (nexttime_ s t) deadline); [lia|].
  unfold modify at 1. cbv beta iota. rewrite E. reflexivity.
Qed.

Lemma turn_returns deadline s t rest :
  wait_ s = t :: rest -> deadline <= nexttime_ s t ->
  runUntil_turn deadline s = Ok (None, s).
Proof.
  intros Hw Ht. unfold runUntil_turn, bind, get. rewrite Hw.
  unfold assert at 1. cbn [negb]. cbv iota.
  destruct (Z.geb_spec (nexttime_ s t) deadline); [reflexivity | lia].
Qed.

Lemma after_first_turn_reachable : reachable gen_example 1000 after_first_turn.
Proof.
  apply (reach_turn _ _ (ctor_state gen_example)
           (log_line (ctor_state gen_example) (usertask 0))).
  - apply reach_ctor. apply ctor_eq.
  - vm_compute. reflexivity.
Defined.

(** ** Properties of runs *)

(** C1.  In every state of a run the car's floor is within 0..4; when the
    car's resume point is E7 the floor is below 4, when it is E8 the floor
    is above 0, and the next turn of the driver does not abort: the
    assertions of E7 and E8 on the floor never fail. *)
Theorem floor_stays_in_range g deadline s :
  reachable g deadline s ->
  0 <= floor_ s <= 4
  /\ (nextinst_ s elevatortask = 7 -> floor_ s < 4)
  /\ (nextinst_ s elevatortask = 8 -> 0 < floor_ s)
  /\ exists r s', runUntil_turn deadline s = Ok (r, s').
Proof.
  intros Hr. pose proof (reachable_Inv _ _ _ Hr) as HI.
  pose proof (inv_car _ HI) as HC.
  split; [apply (car_floor _ HC)|]. split; [|split].
  - intros He. destruct (car_E7 _ HC He) as [(j & ? & ? & _)|?]; lia.
  - intros He. destruct (car_E8 _ HC He) as [(j & ? & ? & _)|?]; lia.
  - apply turn_never_aborts. assumption.
Qed.

Lemma floor_stays_in_range_witness :
  0 <= floor_ after_first_turn <= 4
  /\ (nextinst_ after_first_turn elevatortask = 7 -> floor_ after_first_turn < 4)
  /\ (nextinst_ after_first_turn elevatortask = 8 -> 0 < floor_ after_first_turn)
  /\ exists r s', runUntil_turn 1000 after_first_turn = Ok (r, s').
Proof.
  apply (floor_stays_in_range gen_example 1000). exact after_first_turn_reachable.
Defined.

(** C2.  When step E6 runs in a run, no assertion fails, and if the
    direction after the decision subroutine is Neutral then the car is on
    floor 2 and its task is in front of the pending sequence, to resume at
    E1 at the same instant. *)
Theorem E6_neutral_only_at_home g deadline s rest :
  reachable g deadline s ->
  wait_ s = elevatortask :: rest ->
  nextinst_ s elevatortask = 6 ->
  nexttime_ s elevatortask < deadline ->
  exists s',
    runUntil_turn deadline s = Ok (Some (log_line s elevatortask), s')
    /\ (state_ s' = Neutral ->
        floor_ s = 2 /\ floor_ s' = 2 /\ wait_ s' = elevatortask :: rest
        /\ nextinst_ s' elevatortask = 1
        /\ nexttime_ s' elevatortask = nexttime_ s elevatortask).
Proof.
  intros Hr Hw He Ht. pose proof (reachable_Inv _ _ _ Hr) as HI.
  destruct (wp_ok _ _ _ (step_E6_home s rest HI Hw He)) as ([] & s' & E & _ & HN).
  exists s'. split; [|assumption].
  apply (turn_fires deadline s elevatortask rest); assumption.
Qed.

(** The decision subroutine called from E6 (caller flag set, car not
    dormant) leaves the direction Neutral only on floor 2. *)
Lemma decision_fromE6_neutral now s :
  nextinst_ s elevatortask <> 1 ->
  exists s', decision now true s = Ok (tt, s')
             /\ (state_ s' = Neutral -> floor_ s = 2 /\ state_ s = Neutral).
Proof.
  intros He. exists (decided s). split; [apply decision_fromE6; assumption|].
  unfold decided. destruct (state_ s) eqn:Es; cbv iota zeta; cbn [state_ set_state];
    rewrite ?Es; try (intros Hd; discriminate Hd).
  pose proof (D3_loop_spec s floors 2) as Hjj.
  set (jj := D3_loop s floors 2) in *.
  destruct (Z.ltb_spec jj (floor_ s)); [intros Hd; discriminate Hd|].
  destruct (Z.gtb_spec jj (floor_ s)); [intros Hd; discriminate Hd|].
  intros _. split; [|reflexivity].
  destruct Hjj as [[E _]|(_ & Hne & _)]; lia.
Qed.

(** C7.  In every state of a run the two door flags [d1_] and [d3_] are not
    both set. *)
Theorem door_flags_exclusive g deadline s :
  reachable g deadline s -> ~ (d1_ s = true /\ d3_ s = true).
Proof.
  intros Hr [H1 H3]. pose proof (inv_car _ (reachable_Inv _ _ _ Hr)) as HC.
  destruct (car_d3 _ HC H3) as [_ Hf]. congruence.
Qed.

Lemma door_flags_exclusive_witness :
  reachable gen_example 1000 after_first_turn
  /\ ~ (d1_ after_first_turn = true /\ d3_ after_first_turn = true).
Proof.
  split; [exact after_first_turn_reachable|].
  apply (door_flags_exclusive gen_example 1000). exact after_first_turn_reachable.
Defined.

(** C8.  In every state of a run the pending sequence is not empty: the
    rider created last is pending at its resume point U1 (each firing of U1
    schedules the next arrival), so the driver's assertion at line 130
    holds and the turn does not abort. *)
Theorem pending_never_empty g deadline s :
  reachable g deadline s ->
  wait_ s <> []
  /\ (exists n, users_ s = S n /\ In (usertask n) (wait_ s)
                /\ nextinst_ s (usertask n) = 1)
  /\ exists r s', runUntil_turn deadline s = Ok (r, s').
Proof.
  intros Hr. pose proof (reachable_Inv _ _ _ Hr) as HI.
  destruct (rid_arrival _ (inv_riders _ HI)) as (n & Hn & Hin).
  split; [|split].
  - intros E. rewrite E in Hin. destruct Hin.
  - exists n. repeat split; try assumption.
    destruct (rid_pending _ (inv_riders _ HI) n Hin) as [[_ E]|[Hlt _]]; [assumption | lia].
  - apply turn_never_aborts. assumption.
Qed.

Lemma pending_never_empty_witness :
  wait_ after_first_turn <> []
  /\ (exists n, users_ after_first_turn = S n /\ In (usertask n) (wait_ after_first_turn)
                /\ nextinst_ after_first_turn (usertask n) = 1)
  /\ exists r s', runUntil_turn 1000 after_first_turn = Ok (r, s').
Proof.
  apply (pending_never_empty gen_example 1000). exact after_first_turn_reachable.
Defined.

(** ** Order and uniqueness of the pending tasks *)

Section CountFacts.
Context {A : Type} (eqb : A -> A -> bool).
Hypothesis eqb_spec : forall x y, reflect (x = y) (eqb x y).

Lemma std_erase_count_ok (l : list A) v :
  std_count eqb l v <= 1 -> std_erase eqb l v = Ok (erase_first eqb l v).
Proof.
  intros H. unfold std_erase.
  destruct (Z.leb_spec (std_count eqb l v) 1); [reflexivity | lia].
Qed.

Lemma std_erase_count_abort (l : list A) v :
  1 < std_count eqb l v -> std_erase eqb l v = Abort (AssertionFailed 14).
Proof.
  intros H. unfold std_erase.
  destruct (Z.leb_spec (std_count eqb l v) 1); [lia | reflexivity].
Qed.

Lemma std_count_app (l1 l2 : list A) v :
  std_count eqb (l1 ++ l2) v = std_count eqb l1 v + std_count eqb l2 v.
Proof.
  induction l1 as [|x l1 IH]; cbn [std_count app]; [reflexivity | rewrite IH; lia].
Qed.

Lemma std_count_erase_same (l : list A) v :
  std_count eqb l v <= 1 -> std_count eqb (erase_first eqb l v) v = 0.
Proof.
  induction l as [|x l IH]; cbn [std_count erase_first]; [reflexivity|].
  change (erase_first eqb (x :: l) v)
    with (if eqb x v then l else x :: erase_first eqb l v).
  destruct (eqb_spec x v) as [E|E]; cbn [std_count].
  - pose proof (std_count_nonneg eqb l v). lia.
  - destruct (eqb_spec x v); [congruence|]. intros H. apply IH. lia.
Qed.

Lemma std_count_erase_other (l : list A) v q :
  q <> v -> std_count eqb (erase_first eqb l v) q = std_count eqb l q.
Proof.
  intros Hq. induction l as [|x l IH]; cbn [std_count erase_first]; [reflexivity|].
  change (erase_first eqb (x :: l) v)
    with (if eqb x v then l else x :: erase_first eqb l v).
  destruct (eqb_spec x v) as [E|E]; cbn [std_count].
  - subst. destruct (eqb_spec v q); [congruence | lia].
  - rewrite IH. reflexivity.
Qed.

Lemma std_count_stable_insert (lt : A -> A -> bool) x (l : list A) q :
  std_count eqb (stable_insert lt x l) q = std_count eqb (x :: l) q.
Proof.
  induction l as [|y l IH]; cbn [std_count stable_insert]; [reflexivity|].
  destruct (lt y x); cbn [std_count]; [rewrite IH; cbn [std_count]; lia | reflexivity].
Qed.

Lemma std_count_stable_sort (lt : A -> A -> bool) (l : list A) q :
  std_count eqb (stable_sort lt l) q = std_count eqb l q.
Proof.
  induction l as [|y l IH]; cbn [std_count stable_sort]; [reflexivity|].
  rewrite std_count_stable_insert. cbn [std_count]. rewrite IH. reflexivity.
Qed.

Lemma std_count_In (l : list A) v : 0 < std_count eqb l v <-> In v l.
Proof.
  split.
  - intros H. destruct (in_dec (fun x y => reflect_dec _ _ (eqb_spec x y)) v l) as [|Hn];
      [assumption|]. rewrite (std_count_notin eqb eqb_spec) in H by assumption. lia.
  - intros H. pose proof (std_count_pos eqb eqb_spec l v H). lia.
Qed.
End CountFacts.

Lemma schedule_count_ok t step when_ s :
  std_count Task_eqb (wait_ s) t <= 1 ->
  schedule t step when_ s = Ok (tt, after_schedule t step when_ s).
Proof.
  intros H. unfold schedule, bind, modify, erase_wait. simpl.
  rewrite std_erase_count_ok by assumption. reflexivity.
Qed.

Lemma schedule_immediately_count_eq t step when_ s :
  std_count Task_eqb (wait_ s) t <= 1 ->
  schedule_immediately t step when_ s
  = if is_sorted (fun p q => updT (nexttime_ s) t when_ p <? updT (nexttime_ s) t when_ q)
         (t :: erase_first Task_eqb (wait_ s) t)
    then Ok (tt, after_immediately t step when_ s)
    else Abort (AssertionFailed 203).
Proof.
  intros H. unfold schedule_immediately, bind, modify, erase_wait, get, assert.
  cbv beta. rewrite std_erase_count_ok by assumption. reflexivity.
Qed.

(** After [schedule], and after [schedule_immediately] when it returns, the
    task is pending exactly once and the other tasks as often as before. *)
Lemma schedule_counts t step when_ s q :
  std_count Task_eqb (wait_ s) t <= 1 ->
  std_count Task_eqb (wait_ (after_schedule t step when_ s)) q
  = if Task_eqb q t then 1 else std_count Task_eqb (wait_ s) q.
Proof.
  intros H. cbn [after_schedule wait_ set_wait]. unfold sched_wait.
  rewrite std_count_stable_sort, std_count_app. simpl.
  destruct (Task_eqb_spec q t) as [->|Hne].
  - rewrite (std_count_erase_same _ Task_eqb_spec) by assumption.
    rewrite Task_eqb_refl. reflexivity.
  - rewrite (std_count_erase_other _ Task_eqb_spec) by assumption.
    rewrite Task_eqb_neq by congruence. lia.
Qed.

Lemma schedule_immediately_counts t step when_ s q :
  std_count Task_eqb (wait_ s) t <= 1 ->
  std_count Task_eqb (wait_ (after_immediately t step when_ s)) q
  = if Task_eqb q t then 1 else std_count Task_eqb (wait_ s) q.
Proof.
  intros H. cbn [after_immediately wait_ set_wait]. simpl.
  destruct (Task_eqb_spec q t) as [->|Hne].
  - rewrite (std_count_erase_same _ Task_eqb_spec) by assumption.
    rewrite Task_eqb_refl. reflexivity.
  - rewrite (std_count_erase_other _ Task_eqb_spec) by assumption.
    rewrite Task_eqb_neq by congruence. lia.
Qed.

(** C5.  In every state of a run each task has at most one entry in the
    pending sequence; [schedule] from such a state returns with the task
    pending exactly once and every other task as often as before, and so
    does [schedule_immediately] whenever it returns. *)
Theorem one_entry_per_task g deadline s :
  reachable g deadline s ->
  (forall t, std_count Task_eqb (wait_ s) t <= 1)
  /\ (forall t step when_,
        exists s', schedule t step when_ s = Ok (tt, s')
          /\ forall q, std_count Task_eqb (wait_ s') q
                       = if Task_eqb q t then 1 else std_count Task_eqb (wait_ s) q)
  /\ (forall t step when_ s',
        schedule_immediately t step when_ s = Ok (tt, s') ->
        forall q, std_count Task_eqb (wait_ s') q
                  = if Task_eqb q t then 1 else std_count Task_eqb (wait_ s) q).
Proof.
  intros Hr. pose proof (inv_nodup _ (reachable_Inv _ _ _ Hr)) as Hnd.
  assert (Hc : forall t, std_count Task_eqb (wait_ s) t <= 1).
  { intros t. apply (std_count_NoDup _ Task_eqb_spec). assumption. }
  split; [exact Hc|]. split.
  - intros t step when_. exists (after_schedule t step when_ s).
    split; [apply schedule_count_ok; auto|].
    intros q. apply schedule_counts. auto.
  - intros t step when_ s' E q.
    rewrite schedule_immediately_count_eq in E by auto.
    destruct (is_sorted _ _); [|discriminate].
    injection E as <-. apply schedule_immediately_counts. auto.
Qed.

Lemma one_entry_per_task_witness :
  (forall t, std_count Task_eqb (wait_ after_first_turn) t <= 1)
  /\ (forall t step when_,
        exists s', schedule t step when_ after_first_turn = Ok (tt, s')
          /\ forall q, std_count Task_eqb (wait_ s') q
                       = if Task_eqb q t then 1
                         else std_count Task_eqb (wait_ after_first_turn) q)
  /\ (forall t step when_ s',
        schedule_immediately t step when_ after_first_turn = Ok (tt, s') ->
        forall q, std_count Task_eqb (wait_ s') q
                  = if Task_eqb q t then 1
                    else std_count Task_eqb (wait_ after_first_turn) q).
Proof.
  apply (one_entry_per_task gen_example 1000). exact after_first_turn_reachable.
Defined.

(** In a sequence that ends with [t] and holds [t] nowhere else, [t] can be
    found at the end only. *)
Lemma snoc_split_unique {A} (l l1 l2 : list A) t :
  ~ In t l -> ~ In t l2 -> l ++ [t] = l1 ++ t :: l2 -> l2 = [] /\ l = l1.
Proof.
  intros Hl Hl2 E. destruct (exists_last (l := t :: l2)) as (l' & y & E'); [discriminate|].
  destruct l2 as [|x l2].
  - split; [reflexivity|]. apply app_inj_tail in E. tauto.
  - exfalso.
    assert (Hy : In y (x :: l2)).
    { destruct l' as [|z l']; simpl in E'.
      - discriminate.
      - injection E' as _ E'. rewrite E'. apply in_or_app. right. simpl. auto. }
    rewrite E' in E. rewrite app_assoc in E. apply app_inj_tail in E.
    destruct E as [_ ->]. tauto.
Qed.

(** C3.  [schedule] returns when the task has at most one pending entry;
    afterwards the task has the new resume point and time, the pending
    sequence is ordered by fire time, and the tasks of any one fire time
    are in their previous order, with the task just scheduled (scheduled
    again, if it was pending) after them: a pending task of equal fire time
    precedes it. *)
Theorem schedule_orders_by_time s t step when_ :
  std_count Task_eqb (wait_ s) t <= 1 ->
  exists s',
    schedule t step when_ s = Ok (tt, s')
    /\ nextinst_ s' t = step /\ nexttime_ s' t = when_
    /\ (forall q, q <> t -> nexttime_ s' q = nexttime_ s q)
    /\ sorted (nexttime_ s') (wait_ s')
    /\ (forall v, filter (fun q => nexttime_ s' q =? v) (wait_ s')
                  = filter (fun q => nexttime_ s' q =? v)
                      (erase_first Task_eqb (wait_ s) t ++ [t]))
    /\ (forall q, In q (wait_ s) -> q <> t -> nexttime_ s q = when_ ->
          exists l1 l2, wait_ s' = l1 ++ t :: l2 /\ In q l1).
Proof.
  intros Hc. exists (after_schedule t step when_ s).
  split; [apply schedule_count_ok; assumption|].
  cbn [after_schedule nextinst_ nexttime_ wait_ set_wait set_nexttime set_nextinst].
  set (tm := updT (nexttime_ s) t when_).
  assert (Hfilter : forall v, filter (fun q => tm q =? v) (sched_wait tm t (wait_ s))
                  = filter (fun q => tm q =? v) (erase_first Task_eqb (wait_ s) t ++ [t])).
  { intros v. unfold sched_wait. apply filter_stable_sort. }
  split; [apply updT_same|]. split; [apply updT_same|].
  split; [intros q Hq; apply updT_other; assumption|].
  split; [unfold sched_wait; apply sorted_stable_sort|].
  split; [exact Hfilter|].
  intros q Hq Hne Ht.
  assert (Hnotin : ~ In t (erase_first Task_eqb (wait_ s) t)).
  { intros H. apply (std_count_In _ Task_eqb_spec) in H.
    rewrite (std_count_erase_same _ Task_eqb_spec) in H by assumption. lia. }
  assert (Hin : In t (sched_wait tm t (wait_ s))) by (apply In_sched_wait; auto).
  destruct (in_split _ _ Hin) as (l1 & l2 & E).
  exists l1, l2. split; [exact E|].
  assert (Hone : std_count Task_eqb (sched_wait tm t (wait_ s)) t = 1).
  { pose proof (schedule_counts t step when_ s t Hc) as H.
    cbn [after_schedule wait_ set_wait] in H. fold tm in H.
    rewrite Task_eqb_refl in H. exact H. }
  assert (Hl2 : ~ In t l2).
  { intros H. apply (std_count_In _ Task_eqb_spec) in H.
    rewrite E, std_count_app in Hone. simpl in Hone. rewrite Task_eqb_refl in Hone.
    pose proof (std_count_nonneg Task_eqb l1 t). lia. }
  specialize (Hfilter when_). rewrite E in Hfilter.
  rewrite !filter_app in Hfilter. simpl in Hfilter.
  assert (Et : (tm t =? when_) = true) by (unfold tm; rewrite updT_same; apply Z.eqb_refl).
  rewrite Et in Hfilter. symmetry in Hfilter.
  apply snoc_split_unique in Hfilter.
  - destruct Hfilter as [_ Hf].
    assert (Hq1 : In q (filter (fun q0 => tm q0 =? when_) l1)).
    { rewrite <- Hf. apply filter_In. split.
      - apply (In_erase_first_neq _ Task_eqb_spec); assumption.
      - unfold tm. rewrite updT_other by assumption. apply Z.eqb_eq. assumption. }
    apply filter_In in Hq1. tauto.
  - intros H. apply filter_In in H. tauto.
  - intros H. apply filter_In in H. tauto.
Qed.

Lemma schedule_orders_by_time_witness :
  exists s',
    schedule elevatortask 4 70 three_pending = Ok (tt, s')
    /\ nextinst_ s' elevatortask = 4 /\ nexttime_ s' elevatortask = 70
    /\ (forall q, q <> elevatortask -> nexttime_ s' q = nexttime_ three_pending q)
    /\ sorted (nexttime_ s') (wait_ s')
    /\ (forall v, filter (fun q => nexttime_ s' q =? v) (wait_ s')
                  = filter (fun q => nexttime_ s' q =? v)
                      (erase_first Task_eqb (wait_ three_pending) elevatortask
                       ++ [elevatortask]))
    /\ (forall q, In q (wait_ three_pending) -> q <> elevatortask ->
          nexttime_ three_pending q = 70 ->
          exists l1 l2, wait_ s' = l1 ++ elevatortask :: l2 /\ In q l1).
Proof.
  apply (schedule_orders_by_time three_pending elevatortask 4 70).
  vm_compute. discriminate.
Defined.

(** ** Immediate scheduling *)

(** [schedule_immediately] fails on a task due later than a pending one:
    with the inactivity monitor due at 50, the car cannot be put in front
    for 100. *)
Lemma schedule_immediately_late_aborts :
  schedule_immediately elevatortask 3 100 three_pending = Abort (AssertionFailed 203).
Proof. vm_compute. reflexivity. Qed.

(** C4 (amended).  [schedule_immediately] puts the task at the very front,
    ahead also of the pending tasks of the same fire time, when no other
    pending task is due before the time given; when one is, the assertion
    of line 203 fails instead. *)
Theorem schedule_immediately_front s t step when_ :
  std_count Task_eqb (wait_ s) t <= 1 ->
  ((forall q, In q (wait_ s) -> q <> t -> when_ <= nexttime_ s q) ->
   sorted (nexttime_ s) (wait_ s) ->
   exists s',
     schedule_immediately t step when_ s = Ok (tt, s')
     /\ wait_ s' = t :: erase_first Task_eqb (wait_ s) t
     /\ nextinst_ s' t = step /\ nexttime_ s' t = when_
     /\ (forall q, q <> t -> nextinst_ s' q = nextinst_ s q
                              /\ nexttime_ s' q = nexttime_ s q))
  /\ ((exists q, In q (wait_ s) /\ q <> t /\ nexttime_ s q < when_) ->
      schedule_immediately t step when_ s = Abort (AssertionFailed 203)).
Proof.
  intros Hc.
  assert (Hnotin : ~ In t (erase_first Task_eqb (wait_ s) t)).
  { intros H. apply (std_count_In _ Task_eqb_spec) in H.
    rewrite (std_count_erase_same _ Task_eqb_spec) in H by assumption. lia. }
  rewrite schedule_immediately_count_eq by assumption. split.
  - intros Hle Hs. exists (after_immediately t step when_ s).
    rewrite sorted_is_sorted.
    + cbn [after_immediately wait_ nextinst_ nexttime_ set_wait set_nexttime set_nextinst].
      rewrite !updT_same. repeat split; try reflexivity; apply updT_other; assumption.
    + cbn [sorted]. split.
      * rewrite Forall_forall. intros y Hy. rewrite updT_same.
        assert (y <> t) by (intros ->; tauto).
        rewrite updT_other by assumption. apply Hle; [|assumption].
        eapply In_erase_first; eauto.
      * apply sorted_ext with (tm := nexttime_ s).
        -- intros x Hx. symmetry. apply updT_other. intros ->. tauto.
        -- apply sorted_erase_first. assumption.
  - intros (q & Hq & Hne & Hlt).
    destruct (is_sorted _ _) eqn:E; [|reflexivity]. exfalso.
    apply is_sorted_sorted in E. cbn [sorted] in E. destruct E as [E _].
    rewrite Forall_forall in E.
    specialize (E q (In_erase_first_neq _ Task_eqb_spec _ _ _ Hne Hq)).
    rewrite updT_same, updT_other in E by assumption. lia.
Qed.

Lemma schedule_immediately_front_witness :
  exists s',
    schedule_immediately elevatortask 3 50 three_pending = Ok (tt, s')
    /\ wait_ s' = elevatortask :: erase_first Task_eqb (wait_ three_pending) elevatortask
    /\ nextinst_ s' elevatortask = 3 /\ nexttime_ s' elevatortask = 50
    /\ (forall q, q <> elevatortask ->
          nextinst_ s' q = nextinst_ three_pending q
          /\ nexttime_ s' q = nexttime_ three_pending q).
Proof.
  apply (proj1 (schedule_immediately_front three_pending elevatortask 3 50
                  ltac:(vm_compute; discriminate))).
  - intros q Hq Hne. simpl in Hq.
    destruct Hq as [<-|[<-|[<-|[]]]]; vm_compute; discriminate.
  - simpl. repeat constructor; vm_compute; discriminate.
Defined.

(** ** Change of state in step E2 *)

Lemma schedule_keeps_state t step when_ s s' :
  schedule t step when_ s = Ok (tt, s') ->
  state_ s' = state_ s /\ floor_ s' = floor_ s.
Proof.
  unfold schedule, bind, modify, erase_wait. cbv beta iota.
  cbn [wait_ set_nextinst set_nexttime].
  destruct (std_erase Task_eqb (wait_ s) t); [|discriminate].
  intros E. injection E as <-. split; reflexivity.
Qed.

Lemma E2_sets_E2_state now s s' : E2 now s = Ok (tt, s') -> state_ s' = E2_state s.
Proof.
  unfold E2, E3, bind at 1, modify at 1. cbv beta iota.
  unfold bind at 1, modify at 1. cbv beta iota.
  unfold bind at 1, modify at 1. cbv beta iota.
  unfold bind.
  destruct (schedule e9task _ _ _) as [[[] s1]|] eqn:E1; [|discriminate].
  destruct (schedule e5task _ _ _) as [[[] s2]|] eqn:E2; [|discriminate].
  intros E3.
  apply schedule_keeps_state in E1, E2, E3.
  destruct E1 as [E1 _], E2 as [E2 _], E3 as [E3 _].
  rewrite E3, E2, E1. reflexivity.
Qed.

(** With a button call below as the only call, E2 takes a car that goes up
    to [Neutral], not to [GoingDown]. *)
Lemma E2_button_below_goes_neutral :
  state_ button_below = GoingUp
  /\ floor_ button_below = 2
  /\ callup_ button_below 0 = true
  /\ (forall j, floor_ button_below < j -> any_call button_below j = false)
  /\ exists s', E2 0 button_below = Ok (tt, s') /\ state_ s' = Neutral.
Proof.
  split; [reflexivity|]. split; [reflexivity|]. split; [reflexivity|]. split.
  - intros j Hj. unfold any_call, button_below, upd in *.
    cbn [callup_ calldown_ callcar_ set_callup set_state members_default floor_] in *.
    destruct (Z.eqb_spec j 0); [lia | reflexivity].
  - eexists. split; [vm_compute; reflexivity | reflexivity].
Qed.

(** C6 (amended).  In step E2 a car that goes up with no call above turns
    to [GoingDown] exactly when a destination button of the car is set for a
    floor below, and to [Neutral] otherwise, whatever the hall buttons below
    are; symmetrically for a car that goes down with no call below.  With a
    call in its direction, and when [Neutral], the car keeps its state. *)
Theorem E2_turns_for_car_calls now s s' :
  E2 now s = Ok (tt, s') ->
  (state_ s = GoingUp -> ~ call_above s (floor_ s) ->
     (state_ s' = GoingDown
      <-> exists j, 0 <= j <= 4 /\ j < floor_ s /\ callcar_ s j = true)
     /\ (state_ s' = Neutral
         <-> forall j, 0 <= j <= 4 -> j < floor_ s -> callcar_ s j = false))
  /\ (state_ s = GoingDown -> ~ call_below s (floor_ s) ->
     (state_ s' = GoingUp
      <-> exists j, 0 <= j <= 4 /\ floor_ s < j /\ callcar_ s j = true)
     /\ (state_ s' = Neutral
         <-> forall j, 0 <= j <= 4 -> floor_ s < j -> callcar_ s j = false))
  /\ (state_ s = GoingUp -> call_above s (floor_ s) -> state_ s' = GoingUp)
  /\ (state_ s = GoingDown -> call_below s (floor_ s) -> state_ s' = GoingDown)
  /\ (state_ s = Neutral -> state_ s' = Neutral).
Proof.
  intros E. rewrite (E2_sets_E2_state _ _ _ E). clear E s'. unfold E2_state.
  pose proof (wants_up_iff s) as Hu. pose proof (wants_down_iff s) as Hd.
  pose proof (passenger_up_iff s) as Pu. pose proof (passenger_down_iff s) as Pd.
  assert (Nd : passenger_wants_down (scan_calls s) = false
               <-> forall j, 0 <= j <= 4 -> j < floor_ s -> callcar_ s j = false).
  { rewrite <- not_true_iff_false, Pd. split.
    - intros H j Hj Hlt. destruct (callcar_ s j) eqn:Ec; [|reflexivity].
      exfalso. apply H. eauto.
    - intros H (j & Hj & Hlt & Hc). rewrite H in Hc by assumption. discriminate. }
  assert (Nu : passenger_wants_up (scan_calls s) = false
               <-> forall j, 0 <= j <= 4 -> floor_ s < j -> callcar_ s j = false).
  { rewrite <- not_true_iff_false, Pu. split.
    - intros H j Hj Hlt. destruct (callcar_ s j) eqn:Ec; [|reflexivity].
      exfalso. apply H. eauto.
    - intros H (j & Hj & Hlt & Hc). rewrite H in Hc by assumption. discriminate. }
  set (pu := passenger_wants_up (scan_calls s)) in *.
  set (pd := passenger_wants_down (scan_calls s)) in *.
  split; [|split; [|split; [|split]]].
  - intros Es Hna. rewrite Es. cbn [Direction_eqb andb].
    destruct (pu || waiter_wants_up (scan_calls s));
      [exfalso; apply Hna, Hu; reflexivity|].
    cbn [negb]. destruct pd.
    + split; split; intros H; try reflexivity; try discriminate.
      * apply Pd. reflexivity.
      * apply Nd in H. discriminate.
    + split; split; intros H; try reflexivity; try discriminate.
      * apply Pd in H. discriminate.
      * apply Nd. reflexivity.
  - intros Es Hnb. rewrite Es. cbn [Direction_eqb andb].
    destruct (pd || waiter_wants_down (scan_calls s));
      [exfalso; apply Hnb, Hd; reflexivity|].
    cbn [negb]. destruct pu.
    + split; split; intros H; try reflexivity; try discriminate.
      * apply Pu. reflexivity.
      * apply Nu in H. discriminate.
    + split; split; intros H; try reflexivity; try discriminate.
      * apply Pu in H. discriminate.
      * apply Nu. reflexivity.
  - intros Es Ha. rewrite Es. cbn [Direction_eqb andb].
    apply Hu in Ha. rewrite Ha. reflexivity.
  - intros Es Hb. rewrite Es. cbn [Direction_eqb andb].
    apply Hd in Hb. rewrite Hb. reflexivity.
  - intros Es. rewrite Es. reflexivity.
Qed.

Lemma E2_turns_for_car_calls_witness :
  exists s',
    E2 0 button_below = Ok (tt, s')
    /\ (state_ button_below = GoingUp ->
        ~ call_above button_below (floor_ button_below) ->
        (state_ s' = GoingDown
         <-> exists j, 0 <= j <= 4 /\ j < floor_ button_below
                       /\ callcar_ button_below j = true)
        /\ (state_ s' = Neutral
            <-> forall j, 0 <= j <= 4 -> j < floor_ button_below ->
                          callcar_ button_below j = false)).
Proof.
  destruct (E2 0 button_below) as [[[] s']|f] eqn:E; [|vm_compute in E; discriminate].
  exists s'. split; [reflexivity|].
  apply (E2_turns_for_car_calls 0 button_below s' E).
Defined.

(** ** The deadline argument *)

Lemma digits_value_nondigit acc s :
  match s with
  | String c _ => match digit_of c with Some _ => true | None => false end
  | EmptyString => false
  end = false ->
  digits_value acc s = acc.
Proof.
  destruct s as [|c s]; cbn [digits_value]; [reflexivity|].
  destruct (digit_of c); [discriminate | reflexivity].
Qed.

Lemma atoi_nonnumeric s : starts_number s = false -> atoi s = 0.
Proof.
  unfold starts_number, atoi.
  destruct (skip_spaces s) as [|c s']; [reflexivity|].
  destruct c as [[] [] [] [] [] [] [] []]; intros H;
    rewrite digits_value_nondigit by exact H; reflexivity.
Qed.

(** The first turn of the driver, with a deadline that is not positive,
    returns: the first arrival is due at time 0. *)
Lemma runUntil_nonpositive g fuel deadline :
  deadline <= 0 ->
  runUntil (S fuel) deadline [] (ctor_state g) = Some (Ok ([], ctor_state g)).
Proof.
  intros H. cbn [runUntil].
  rewrite (turn_returns deadline (ctor_state g) (usertask 0) []); [reflexivity | reflexivity|].
  cbn. lia.
Qed.

(** With a deadline argument that is no number the program prints nothing
    and ends with status 0. *)
Lemma main_nonnumeric_example :
  starts_number "abc" = false
  /\ main gen_example 1 ["go"%string; "abc"%string] = Some (Exited 0 []).
Proof. split; vm_compute; reflexivity. Qed.

(** C9 (amended).  A deadline argument in which [atoi] finds no number
    counts as the deadline 0: nothing is reported, the driver returns in its
    first turn without firing a task, and the exit status is 0. *)
Theorem main_nonnumeric_deadline g fuel prog arg :
  starts_number arg = false ->
  atoi arg = 0 /\ main g (S fuel) [prog; arg] = Some (Exited 0 []).
Proof.
  intros H. pose proof (atoi_nonnumeric arg H) as E. split; [exact E|].
  unfold main. rewrite ctor_eq. cbn [List.length nth].
  change (2 <=? Z.of_nat 2) with true. cbv iota. rewrite E.
  rewrite runUntil_nonpositive by lia. reflexivity.
Qed.

Lemma main_nonnumeric_deadline_witness :
  atoi "ten" = 0 /\ main gen_example 1 ["go"%string; "ten"%string] = Some (Exited 0 []).
Proof.
  apply (main_nonnumeric_deadline gen_example 0 "go" "ten"). reflexivity.
Defined.

(** ** A rider who gives up *)

(** The state [runUntil] returns is a state of the run. *)
Lemma runUntil_reachable g deadline fuel log s log' s' :
  reachable g deadline s ->
  runUntil fuel deadline log s = Some (Ok (log', s')) ->
  reachable g deadline s'.
Proof.
  revert log s. induction fuel as [|fuel IH]; intros log s Hr; [discriminate|].
  cbn [runUntil].
  destruct (runUntil_turn deadline s) as [[[line|] s1]|f] eqn:E.
  - apply IH. eapply reach_turn; eauto.
  - intros H. injection H as _ <-.
    pose proof (wp_inv _ _ _ _ _ (turn_keeps_Inv deadline s (reachable_Inv _ _ _ Hr)) E)
      as Hs.
    cbv beta iota in Hs. rewrite Hs. exact Hr.
  - discriminate.
Qed.

Lemma doors_open_for_nobody_reachable : reachable gen_walk 652 doors_open_for_nobody.
Proof.
  unfold doors_open_for_nobody.
  destruct (runUntil 40 652 [] (ctor_state gen_walk)) as [[[log s]|f]|] eqn:E.
  - apply (runUntil_reachable _ _ _ _ _ _ _ (reach_ctor _ _ _ (ctor_eq gen_walk)) E).
  - vm_compute in E. discriminate.
  - vm_compute in E. discriminate.
Qed.

(** C10.  A rider whose give-up step U4 fires when the car is not on the
    rider's floor with its doors busy leaves the floor's roster, and nothing
    else of the state changes: the button the rider pressed stays set.  And
    the car does come for such a button: in the run of [gen_walk] the only
    rider of floor 0 gives up at time 310, and at time 652 the car stands on
    floor 0 with its doors open, empty, the roster of the floor empty and
    the button still set. *)
Theorem U4_only_leaves_roster :
  (forall me s,
      nextinst_ s (usertask me) = 4 ->
      0 <= in_ s me <= 4 ->
      std_count Nat.eqb (queue_ s (in_ s me)) me <= 1 ->
      floor_ s <> in_ s me \/ d1_ s = false ->
      exists s',
        UserTask_resume me s = Ok (tt, s')
        /\ s' = set_queue (upd (queue_ s) (in_ s me)
                             (erase_first Nat.eqb (queue_ s (in_ s me)) me)) s
        /\ ~ In me (queue_ s' (in_ s me))
        /\ (forall f, f <> in_ s me -> queue_ s' f = queue_ s f)
        /\ callup_ s' = callup_ s /\ calldown_ s' = calldown_ s
        /\ callcar_ s' = callcar_ s /\ wait_ s' = wait_ s)
  /\ (reachable gen_walk 652 doors_open_for_nobody
      /\ floor_ doors_open_for_nobody = 0
      /\ d1_ doors_open_for_nobody = true
      /\ queue_ doors_open_for_nobody 0 = []
      /\ elevator_ doors_open_for_nobody = []
      /\ callup_ doors_open_for_nobody 0 = true
      /\ nextinst_ doors_open_for_nobody (usertask 1) = 4
      /\ in_ doors_open_for_nobody 1%nat = 0
      /\ ~ In (usertask 1) (wait_ doors_open_for_nobody)).
Proof.
  split.
  - intros me s Hi Hin Hc Hcond.
    eexists. split; [|split; [reflexivity|]].
    + unfold UserTask_resume, bind, get. rewrite Hi. cbn [Z.eqb Pos.eqb].
      unfold U4, bind, get, elevator_is_available.
      assert (Hb : negb (floor_ s =? in_ s me) || negb (d1_ s) = true).
      { destruct Hcond as [H|H].
        - apply Z.eqb_neq in H. rewrite H. reflexivity.
        - rewrite H. apply orb_true_r. }
      rewrite Hb. unfold when, erase_queue, bind, check_index.
      destruct (Z.leb_spec 0 (in_ s me)); [|lia].
      destruct (Z.ltb_spec (in_ s me) 5); [|lia].
      cbn [andb]. rewrite (std_erase_count_ok Nat.eqb) by assumption. reflexivity.
    + cbn [queue_ callup_ calldown_ callcar_ wait_ set_queue].
      split; [|split; [|repeat split]].
      * unfold upd. rewrite Z.eqb_refl. intros H.
        apply (std_count_In _ Nat.eqb_spec) in H.
        rewrite (std_count_erase_same _ Nat.eqb_spec) in H by assumption. lia.
      * intros f Hf. unfold upd. apply Z.eqb_neq in Hf. rewrite Hf. reflexivity.
  - split; [exact doors_open_for_nobody_reachable|].
    repeat split; try (vm_compute; reflexivity).
    vm_compute. intuition discriminate.
Qed.

Lemma U4_only_leaves_roster_witness :
  exists s',
    UserTask_resume 0 rider_waiting = Ok (tt, s')
    /\ s' = set_queue (upd (queue_ rider_waiting) (in_ rider_waiting 0%nat)
                         (erase_first Nat.eqb
                            (queue_ rider_waiting (in_ rider_waiting 0%nat)) 0%nat))
              rider_waiting
    /\ ~ In 0%nat (queue_ s' (in_ rider_waiting 0%nat))
    /\ (forall f, f <> in_ rider_waiting 0%nat -> queue_ s' f = queue_ rider_waiting f)
    /\ callup_ s' = callup_ rider_waiting /\ calldown_ s' = calldown_ rider_waiting
    /\ callcar_ s' = callcar_ rider_waiting /\ wait_ s' = wait_ rider_waiting.
Proof.
  apply (proj1 U4_only_leaves_roster 0%nat rider_waiting).
  - reflexivity.
  - vm_compute. split; discriminate.
  - vm_compute. discriminate.
  - left. vm_compute. discriminate.
Defined.

(** ** The resume points and the door flags in a run *)

(** X1.  In every state of a run the resume point of the car is one of the
    cases of the [switch] of [ElevatorTask::resume], so that its [default]
    branch with [assert(false)] is never taken, and the dormant car (resume
    point 1) is on floor 2, as step E1 asserts. *)
Theorem elevator_resume_points g deadline s :
  reachable g deadline s ->
  In (nextinst_ s elevatortask) [1; 2; 3; 4; 6; 7; 71; 8; 81]
  /\ (nextinst_ s elevatortask = 1 -> floor_ s = 2).
Proof.
  intros Hr. pose proof (inv_car _ (reachable_Inv _ _ _ Hr)) as HC.
  split; [exact (car_ei _ HC) | exact (car_idle _ HC)].
Qed.

Lemma elevator_resume_points_witness :
  In (nextinst_ doors_open_for_nobody elevatortask) [1; 2; 3; 4; 6; 7; 71; 8; 81]
  /\ (nextinst_ doors_open_for_nobody elevatortask = 1 -> floor_ doors_open_for_nobody = 2).
Proof.
  apply (elevator_resume_points gen_walk 652). exact doors_open_for_nobody_reachable.
Defined.

(** X2.  In every state of a run the two monitors are pending only with
    their own resume points, 5 and 9, which [E5Task::resume] and
    [E9Task::resume] assert; and the door monitor is pending only while the
    car is at step E4, its doors open. *)
Theorem monitors_resume_points g deadline s :
  reachable g deadline s ->
  (In e5task (wait_ s) -> nextinst_ s e5task = 5 /\ nextinst_ s elevatortask = 4)
  /\ (In e9task (wait_ s) -> nextinst_ s e9task = 9).
Proof.
  intros Hr. pose proof (inv_car _ (reachable_Inv _ _ _ Hr)) as HC.
  split; [exact (car_e5 _ HC) | exact (car_e9 _ HC)].
Qed.

Lemma monitors_resume_points_witness :
  In e5task (wait_ doors_open_for_nobody)
  /\ (In e5task (wait_ doors_open_for_nobody) ->
      nextinst_ doors_open_for_nobody e5task = 5
      /\ nextinst_ doors_open_for_nobody elevatortask = 4)
  /\ (In e9task (wait_ doors_open_for_nobody) ->
      nextinst_ doors_open_for_nobody e9task = 9).
Proof.
  split; [vm_compute; tauto|].
  apply (monitors_resume_points gen_walk 652). exact doors_open_for_nobody_reachable.
Defined.

(** X3.  In every state of a run the flag [d1_] (doors open, people getting
    in or out) is set exactly when the car is pending at step E4; and when
    [d3_] (doors open, nobody moving) is set, the car is at step E4 but not
    pending: it waits for the door monitor or for a rider who arrives. *)
Theorem doors_busy_iff_E4_pending g deadline s :
  reachable g deadline s ->
  (d1_ s = true <-> nextinst_ s elevatortask = 4 /\ In elevatortask (wait_ s))
  /\ (d3_ s = true -> nextinst_ s elevatortask = 4 /\ ~ In elevatortask (wait_ s)).
Proof.
  intros Hr. pose proof (inv_car _ (reachable_Inv _ _ _ Hr)) as HC.
  split; [exact (car_d1 _ HC)|].
  intros H3. destruct (car_d3 _ HC H3) as [He Hd]. split; [exact He|].
  intros Hin. assert (d1_ s = true) by (apply (car_d1 _ HC); auto). congruence.
Qed.

Lemma doors_busy_iff_E4_pending_witness :
  d1_ doors_open_for_nobody = true
  /\ (d1_ doors_open_for_nobody = true
      <-> nextinst_ doors_open_for_nobody elevatortask = 4
          /\ In elevatortask (wait_ doors_open_for_nobody))
  /\ (d3_ doors_open_for_nobody = true ->
      nextinst_ doors_open_for_nobody elevatortask = 4
      /\ ~ In elevatortask (wait_ doors_open_for_nobody)).
Proof.
  split; [vm_compute; reflexivity|].
  apply (doors_busy_iff_E4_pending gen_walk 652). exact doors_open_for_nobody_reachable.
Defined.

(** ** The rosters in a run *)

(** X4.  In every state of a run a rider is on at most one roster, and there
    once: no roster holds a rider twice, a rider on the roster of a floor is
    on the floor it came to, between 0 and 4, and a rider in the car is on
    no floor's roster. *)
Theorem rider_on_one_roster g deadline s :
  reachable g deadline s ->
  (forall f, NoDup (queue_ s f))
  /\ NoDup (elevator_ s)
  /\ (forall f u, In u (queue_ s f) -> in_ s u = f /\ 0 <= f <= 4)
  /\ (forall f f' u, In u (queue_ s f) -> In u (queue_ s f') -> f = f')
  /\ (forall f u, In u (elevator_ s) -> ~ In u (queue_ s f)).
Proof.
  intros Hr. pose proof (inv_riders _ (reachable_Inv _ _ _ Hr)) as HR.
  split; [exact (rid_nodup_queue _ HR)|].
  split; [exact (rid_nodup_elevator _ HR)|].
  split; [|split].
  - intros f u Hu. destruct (rid_queue _ HR f u Hu) as (Hlt & Hin & _).
    split; [exact Hin|]. rewrite <- Hin. apply (rid_fields _ HR u Hlt).
  - intros f f' u Hu Hu'.
    destruct (rid_queue _ HR f u Hu) as (_ & E & _).
    destruct (rid_queue _ HR f' u Hu') as (_ & E' & _). congruence.
  - intros f u Hu. apply (rid_elevator _ HR u Hu).
Qed.

Lemma rider_on_one_roster_witness :
  queue_ after_first_turn 0 = [0%nat]
  /\ (forall f, NoDup (queue_ after_first_turn f))
  /\ NoDup (elevator_ after_first_turn)
  /\ (forall f u, In u (queue_ after_first_turn f) ->
        in_ after_first_turn u = f /\ 0 <= f <= 4)
  /\ (forall f f' u, In u (queue_ after_first_turn f) ->
        In u (queue_ after_first_turn f') -> f = f')
  /\ (forall f u, In u (elevator_ after_first_turn) ->
        ~ In u (queue_ after_first_turn f)).
Proof.
  split; [vm_compute; reflexivity|].
  apply (rider_on_one_roster gen_example 1000). exact after_first_turn_reachable.
Defined.

(** ** The arrival generator *)

(** X5.  [createNewUser] always returns, drawing four numbers from the
    generator and changing nothing else: a floor of entry and a different
    destination, both between 0 and 4, a patience between 300 and 1200 and a
    time until the next arrival between 10 and 900. *)
Theorem createNewUser_ranges s :
  exists info s',
    createNewUser s = Ok (info, s')
    /\ 0 <= NewUserInfo.in_ info <= 4
    /\ 0 <= NewUserInfo.out_ info <= 4
    /\ NewUserInfo.in_ info <> NewUserInfo.out_ info
    /\ 300 <= NewUserInfo.giveuptime_ info <= 1200
    /\ 10 <= NewUserInfo.intertime_ info <= 900
    /\ drawn (rand_ s') = (drawn (rand_ s) + 4)%nat
    /\ outputs (rand_ s') = outputs (rand_ s)
    /\ s' = set_rand (rand_ s') s.
Proof.
  unfold createNewUser, bind, random_between, rand_call, ret.
  cbn [rand_ set_rand outputs drawn]. do 2 eexists. split; [reflexivity|].
  cbn [NewUserInfo.in_ NewUserInfo.out_ NewUserInfo.giveuptime_ NewUserInfo.intertime_
       rand_ set_rand outputs drawn].
  set (o := outputs (rand_ s)).
  set (n := drawn (rand_ s)).
  pose proof (Z.mod_pos_bound (o n mod 2 ^ 64) (1 + 4 - 0) ltac:(lia)).
  pose proof (Z.mod_pos_bound (o (S n) mod 2 ^ 64) (1 + 4 - 1) ltac:(lia)).
  pose proof (Z.mod_pos_bound (o (S (S n)) mod 2 ^ 64) (1 + 1200 - 300) ltac:(lia)).
  pose proof (Z.mod_pos_bound (o (S (S (S n))) mod 2 ^ 64) (1 + 900 - 10) ltac:(lia)).
  set (i := 0 + (o n mod 2 ^ 64) mod (1 + 4 - 0)) in *.
  set (r := 1 + (o (S n) mod 2 ^ 64) mod (1 + 4 - 1)) in *.
  pose proof (Z.mod_pos_bound (i + r) 5 ltac:(lia)).
  pose proof (Z.div_mod (i + r) 5 ltac:(lia)).
  repeat split; lia.
Qed.

(** ** Erasing and cancelling *)

Section EraseFacts.
Context {A : Type} (eqb : A -> A -> bool).
Hypothesis eqb_spec : forall x y, reflect (x = y) (eqb x y).

Lemma filter_notin (l : list A) v :
  ~ In v l -> filter (fun x => negb (eqb x v)) l = l.
Proof.
  induction l as [|x l IH]; cbn [filter In]; intros H; [reflexivity|].
  destruct (eqb_spec x v) as [E|E]; [tauto|]. cbn [negb]. rewrite IH; tauto.
Qed.

Lemma erase_first_filter (l : list A) v :
  std_count eqb l v <= 1 ->
  erase_first eqb l v = filter (fun x => negb (eqb x v)) l.
Proof.
  induction l as [|x l IH]; cbn [std_count filter]; intros H; [reflexivity|].
  change (erase_first eqb (x :: l) v)
    with (if eqb x v then l else x :: erase_first eqb l v).
  destruct (eqb_spec x v) as [E|E]; cbn [negb].
  - symmetry. apply filter_notin. intros Hin.
    apply (std_count_In _ eqb_spec) in Hin. lia.
  - rewrite IH by lia. reflexivity.
Qed.
End EraseFacts.

(** X6.  [std_erase] on a sequence that holds the value at most once
    removes every occurrence of it and keeps the other elements in their
    order; on a sequence that holds the value twice or more its assertion
    (line 14) fails. *)
Theorem std_erase_removes_every_occurrence (l : list nat) (v : nat) :
  (std_count Nat.eqb l v <= 1 ->
   std_erase Nat.eqb l v = Ok (filter (fun x => negb (Nat.eqb x v)) l))
  /\ (1 < std_count Nat.eqb l v ->
      std_erase Nat.eqb l v = Abort (AssertionFailed 14)).
Proof.
  split; intros H.
  - rewrite std_erase_count_ok by assumption.
    rewrite (erase_first_filter _ Nat.eqb_spec) by assumption. reflexivity.
  - apply std_erase_count_abort. assumption.
Qed.

Lemma std_erase_removes_every_occurrence_witness :
  std_erase Nat.eqb [3; 1; 2]%nat 1%nat
  = Ok (filter (fun x => negb (Nat.eqb x 1)) [3; 1; 2]%nat)
  /\ std_erase Nat.eqb [1; 3; 1]%nat 1%nat = Abort (AssertionFailed 14).
Proof.
  split.
  - apply (proj1 (std_erase_removes_every_occurrence [3; 1; 2]%nat 1%nat)).
    vm_compute. discriminate.
  - apply (proj2 (std_erase_removes_every_occurrence [1; 3; 1]%nat 1%nat)).
    vm_compute. reflexivity.
Defined.

Lemma set_wait_same s : set_wait (wait_ s) s = s.
Proof. destruct s; reflexivity. Qed.

(** X7.  [cancel] of a task that is pending at most once returns with the
    task not pending and nothing else changed: the other tasks keep their
    order, resume points and times.  For a task that is not pending it
    changes nothing, and a [schedule] of the task after it has the effect of
    that [schedule] alone. *)
Theorem cancel_removes_task t s :
  std_count Task_eqb (wait_ s) t <= 1 ->
  exists s',
    cancel t s = Ok (tt, s')
    /\ s' = set_wait (filter (fun q => negb (Task_eqb q t)) (wait_ s)) s
    /\ ~ In t (wait_ s')
    /\ (~ In t (wait_ s) -> s' = s)
    /\ (forall step when_, schedule t step when_ s' = schedule t step when_ s).
Proof.
  intros Hc. exists (after_cancel t s).
  assert (E : erase_first Task_eqb (wait_ s) t
              = filter (fun q => negb (Task_eqb q t)) (wait_ s)).
  { apply (erase_first_filter _ Task_eqb_spec). assumption. }
  assert (Hnotin : ~ In t (erase_first Task_eqb (wait_ s) t)).
  { intros H. apply (std_count_In _ Task_eqb_spec) in H.
    rewrite (std_count_erase_same _ Task_eqb_spec) in H by assumption. lia. }
  split; [|split; [|split; [|split]]].
  - unfold cancel, erase_wait. rewrite std_erase_count_ok by assumption. reflexivity.
  - unfold after_cancel. rewrite E. reflexivity.
  - exact Hnotin.
  - intros H. unfold after_cancel. rewrite E, (filter_notin _ Task_eqb_spec) by assumption.
    apply set_wait_same.
  - intros step when_.
    rewrite !schedule_count_ok.
    + unfold after_schedule, after_cancel, sched_wait. cbn [wait_ set_wait nexttime_ nextinst_].
      rewrite (erase_first_notin _ Task_eqb_spec _ _ Hnotin). reflexivity.
    + assumption.
    + unfold after_cancel. cbn [wait_ set_wait].
      rewrite (std_count_erase_same _ Task_eqb_spec) by assumption. lia.
Qed.

Lemma cancel_removes_task_witness :
  exists s',
    cancel e5task three_pending = Ok (tt, s')
    /\ s' = set_wait (filter (fun q => negb (Task_eqb q e5task)) (wait_ three_pending))
              three_pending
    /\ ~ In e5task (wait_ s')
    /\ (~ In e5task (wait_ three_pending) -> s' = three_pending)
    /\ (forall step when_,
          schedule e5task step when_ s' = schedule e5task step when_ three_pending).
Proof.
  apply (cancel_removes_task e5task three_pending). vm_compute. discriminate.
Defined.

(** ** The place of a scheduled task *)

Section SortFacts.
Context {A : Type} (tm : A -> Z).

Lemma filter_all (p : A -> bool) (l : list A) :
  Forall (fun x => p x = true) l -> filter p l = l.
Proof.
  induction 1 as [|x l Hx Hl IH]; cbn [filter]; [reflexivity|].
  rewrite Hx, IH. reflexivity.
Qed.

Lemma filter_none (p : A -> bool) (l : list A) :
  Forall (fun x => p x = false) l -> filter p l = [].
Proof.
  induction 1 as [|x l Hx Hl IH]; cbn [filter]; [reflexivity|].
  rewrite Hx, IH. reflexivity.
Qed.

(** Sorting a sorted sequence with one more element at its end: the
    element goes behind those that are not greater. *)
Lemma stable_sort_snoc (l : list A) x :
  sorted tm l ->
  stable_sort (fun p q => tm p <? tm q) (l ++ [x])
  = filter (fun q => tm q <=? tm x) l ++ x :: filter (fun q => tm x <? tm q) l.
Proof.
  induction l as [|y l IH]; [reflexivity|].
  intros [Hy Hl]. cbn [app stable_sort]. rewrite IH by assumption.
  cbn [filter]. destruct (Z.leb_spec (tm y) (tm x)) as [Hle|Hgt].
  - destruct (Z.ltb_spec (tm x) (tm y)); [lia|].
    cbn [app]. apply stable_insert_head.
    apply Forall_app. split; [|constructor; [assumption|]].
    + rewrite Forall_forall in *. intros z Hz. apply filter_In in Hz. apply Hy, Hz.
    + rewrite Forall_forall in *. intros z Hz. apply filter_In in Hz. apply Hy, Hz.
  - destruct (Z.ltb_spec (tm x) (tm y)); [|lia].
    rewrite filter_none, filter_all.
    + cbn [app stable_insert]. destruct (Z.ltb_spec (tm x) (tm y)); [|lia].
      f_equal. apply stable_insert_head. assumption.
    + revert Hy. apply Forall_impl. intros z Hz. apply Z.ltb_lt. lia.
    + revert Hy. apply Forall_impl. intros z Hz. apply Z.leb_gt. lia.
Qed.
End SortFacts.

(** X8.  In an ordered pending sequence [schedule] puts the task behind the
    tasks due at or before its time and before the tasks due after it. *)
Theorem schedule_position s t step when_ :
  std_count Task_eqb (wait_ s) t <= 1 ->
  sorted (nexttime_ s) (wait_ s) ->
  exists s',
    schedule t step when_ s = Ok (tt, s')
    /\ wait_ s'
       = filter (fun q => nexttime_ s q <=? when_) (erase_first Task_eqb (wait_ s) t)
         ++ t :: filter (fun q => when_ <? nexttime_ s q)
                   (erase_first Task_eqb (wait_ s) t).
Proof.
  intros Hc Hs. exists (after_schedule t step when_ s).
  split; [apply schedule_count_ok; assumption|].
  cbn [after_schedule wait_ set_wait]. unfold sched_wait.
  assert (Hnotin : ~ In t (erase_first Task_eqb (wait_ s) t)).
  { intros H. apply (std_count_In _ Task_eqb_spec) in H.
    rewrite (std_count_erase_same _ Task_eqb_spec) in H by assumption. lia. }
  set (rest := erase_first Task_eqb (wait_ s) t) in *.
  set (tm := updT (nexttime_ s) t when_).
  assert (Hext : forall q, In q rest -> tm q = nexttime_ s q).
  { intros q Hq. apply updT_other. intros ->. tauto. }
  assert (Et : tm t = when_) by apply updT_same.
  rewrite (stable_sort_snoc tm).
  - rewrite (filter_ext_in (fun q => tm q <=? tm t) (fun q => nexttime_ s q <=? when_) rest),
      (filter_ext_in (fun q => tm t <? tm q) (fun q => when_ <? nexttime_ s q) rest).
    + reflexivity.
    + intros q Hq. rewrite Et, (Hext q Hq). reflexivity.
    + intros q Hq. rewrite Et, (Hext q Hq). reflexivity.
  - apply sorted_ext with (tm := nexttime_ s).
    + intros q Hq. symmetry. apply Hext, Hq.
    + apply sorted_erase_first. assumption.
Qed.

Lemma schedule_position_witness :
  exists s',
    schedule elevatortask 4 70 three_pending = Ok (tt, s')
    /\ wait_ s'
       = filter (fun q => nexttime_ three_pending q <=? 70)
           (erase_first Task_eqb (wait_ three_pending) elevatortask)
         ++ elevatortask
            :: filter (fun q => 70 <? nexttime_ three_pending q)
                 (erase_first Task_eqb (wait_ three_pending) elevatortask).
Proof.
  apply (schedule_position three_pending elevatortask 4 70).
  - vm_compute. discriminate.
  - simpl. repeat constructor; vm_compute; discriminate.
Defined.

(** X9.  For a time before those of all the other pending tasks
    [schedule_immediately] and [schedule] do the same; [schedule_immediately]
    differs by going in front of the tasks of its own time. *)
Theorem schedule_immediately_is_schedule s t step when_ :
  std_count Task_eqb (wait_ s) t <= 1 ->
  sorted (nexttime_ s) (wait_ s) ->
  (forall q, In q (wait_ s) -> q <> t -> when_ < nexttime_ s q) ->
  schedule_immediately t step when_ s = schedule t step when_ s.
Proof.
  intros Hc Hs Hlt.
  assert (Hnotin : ~ In t (erase_first Task_eqb (wait_ s) t)).
  { intros H. apply (std_count_In _ Task_eqb_spec) in H.
    rewrite (std_count_erase_same _ Task_eqb_spec) in H by assumption. lia. }
  assert (Hrest : forall q, In q (erase_first Task_eqb (wait_ s) t) ->
                            when_ < nexttime_ s q).
  { intros q Hq. apply Hlt; [eapply In_erase_first; eauto | intros ->; tauto]. }
  assert (Hext : forall q, In q (erase_first Task_eqb (wait_ s) t) ->
                           updT (nexttime_ s) t when_ q = nexttime_ s q).
  { intros q Hq. apply updT_other. intros ->. tauto. }
  assert (Hsorted : sorted (updT (nexttime_ s) t when_)
                      (t :: erase_first Task_eqb (wait_ s) t)).
  { cbn [sorted]. split.
    - rewrite Forall_forall. intros q Hq. rewrite updT_same, Hext by assumption.
      specialize (Hrest q Hq). lia.
    - apply sorted_ext with (tm := nexttime_ s).
      + intros q Hq. symmetry. apply Hext, Hq.
      + apply sorted_erase_first. assumption. }
  rewrite schedule_immediately_count_eq, schedule_count_ok by assumption.
  rewrite sorted_is_sorted by exact Hsorted.
  unfold after_immediately, after_schedule, sched_wait.
  rewrite (stable_sort_snoc (updT (nexttime_ s) t when_)) by apply Hsorted.
  rewrite filter_none, filter_all; [reflexivity | |];
    rewrite Forall_forall; intros q Hq; rewrite updT_same, Hext by assumption;
    specialize (Hrest q Hq); [apply Z.ltb_lt | apply Z.leb_gt]; lia.
Qed.

Lemma schedule_immediately_is_schedule_witness :
  schedule_immediately elevatortask 3 40 three_pending
  = schedule elevatortask 3 40 three_pending.
Proof.
  apply (schedule_immediately_is_schedule three_pending elevatortask 3 40).
  - vm_compute. discriminate.
  - simpl. repeat constructor; vm_compute; discriminate.
  - intros q Hq Hne. simpl in Hq.
    destruct Hq as [<-|[<-|[<-|[]]]]; vm_compute; reflexivity.
Defined.

(** ** The choice of the decision subroutine *)

Lemma D3_loop_cons s j js d :
  D3_loop s (j :: js) d
  = if j =? floor_ s then D3_loop s js d
    else if any_call s j then j else D3_loop s js d.
Proof. reflexivity. Qed.

(** The search of step D3 stops at the first floor with a call. *)
Lemma D3_loop_first s js d j :
  sorted (fun j => j) js ->
  In j js -> j <> floor_ s -> any_call s j = true ->
  D3_loop s js d <= j /\ D3_loop s js d <> floor_ s
  /\ any_call s (D3_loop s js d) = true /\ In (D3_loop s js d) js.
Proof.
  induction js as [|j0 js IH]; intros Hs Hin Hne Hc; [destruct Hin|].
  destruct Hs as [H0 Hs].
  rewrite D3_loop_cons.
  destruct (Z.eqb_spec j0 (floor_ s)) as [E|E].
  - destruct Hin as [->|Hin]; [congruence|].
    destruct (IH Hs Hin Hne Hc) as (H1 & H2 & H3 & H4).
    repeat split; try assumption. cbn [In]. auto.
  - destruct (any_call s j0) eqn:Ec.
    + repeat split; try assumption; [|cbn [In]; auto].
      destruct Hin as [->|Hin]; [lia|].
      rewrite Forall_forall in H0. apply H0, Hin.
    + destruct Hin as [->|Hin]; [congruence|].
      destruct (IH Hs Hin Hne Hc) as (H1 & H2 & H3 & H4).
    repeat split; try assumption. cbn [In]. auto.
Qed.

Lemma floors_sorted : sorted (fun j => j) floors.
Proof. unfold floors. cbn [sorted]. repeat split; repeat constructor; lia. Qed.

Lemma classic_below s : call_below s (floor_ s) \/ ~ call_below s (floor_ s).
Proof.
  destruct (passenger_wants_down (scan_calls s) || waiter_wants_down (scan_calls s)) eqn:E.
  - left. apply wants_down_iff. exact E.
  - right. intros H. apply wants_down_iff in H. congruence.
Qed.

(** X10.  Called for a car in state [Neutral], and not for a dormant car
    with a call on floor 2, [decision] looks for a call from floor 0 upwards:
    the car is to go down whenever there is a call below it, also when there
    are calls above, and up only when all the calls are above.  A dormant car
    is then scheduled for step E6 after [delayBeforeHoming].  With no call on
    another floor, a call that does not come from step E6 changes nothing. *)
Theorem decision_prefers_lower_floors now fromE6 s :
  state_ s = Neutral ->
  (nextinst_ s elevatortask = 1 -> any_call s 2 = false) ->
  std_count Task_eqb (wait_ s) elevatortask <= 1 ->
  exists s',
    decision now fromE6 s = Ok (tt, s')
    /\ (call_below s (floor_ s) -> state_ s' = GoingDown)
    /\ (~ call_below s (floor_ s) -> call_above s (floor_ s) -> state_ s' = GoingUp)
    /\ (call_below s (floor_ s) \/ call_above s (floor_ s) ->
        nextinst_ s elevatortask = 1 ->
        nextinst_ s' elevatortask = 6
        /\ nexttime_ s' elevatortask = now + delayBeforeHoming
        /\ In elevatortask (wait_ s'))
    /\ (~ call_below s (floor_ s) -> ~ call_above s (floor_ s) ->
        fromE6 = false -> s' = s).
Proof.
  intros Est HD2 Hc.
  set (d := if fromE6 then 2 else -1).
  set (jj := D3_loop s floors d).
  assert (Hfound : forall j, 0 <= j <= 4 -> j <> floor_ s -> any_call s j = true ->
            jj <= j /\ jj <> floor_ s /\ any_call s jj = true /\ 0 <= jj <= 4).
  { intros j Hj Hne Hcall.
    destruct (D3_loop_first s floors d j floors_sorted) as (H1 & H2 & H3 & H4);
      try assumption; [apply In_floors; assumption|].
    apply In_floors in H4. auto. }
  assert (Hnone : ~ call_below s (floor_ s) -> ~ call_above s (floor_ s) -> jj = d).
  { intros Hb Ha. destruct (D3_loop_spec s floors d) as [[E _]|(Hin & Hne & Hcall)];
      [exact E|].
    apply In_floors in Hin. exfalso. fold jj in Hne, Hcall.
    destruct (Z.lt_total jj (floor_ s)) as [Hlt|[Heq|Hgt]]; [|tauto|].
    - apply Hb. exists jj. auto.
    - apply Ha. exists jj. auto. }
  assert (E : decision now fromE6 s
              = if negb (jj =? -1) then
                  (modify (set_state (if jj <? floor_ s then GoingDown
                                      else if jj >? floor_ s then GoingUp else Neutral)) ;;
                   when ((nextinst_ s elevatortask =? 1) && negb (jj =? 2))
                        (schedule elevatortask 6 (now + delayBeforeHoming))) s
                else Ok (tt, s)).
  { unfold decision. rewrite Est. cbn [Direction_eqb negb]. cbv iota.
    destruct (Z.eqb_spec (nextinst_ s elevatortask) 1) as [E1|E1].
    - rewrite (HD2 E1). reflexivity.
    - reflexivity. }
  rewrite E. clear E.
  assert (Hbelow : call_below s (floor_ s) -> 0 <= jj < floor_ s /\ any_call s jj = true).
  { intros (j & Hj & Hlt & Hcall).
    destruct (Hfound j Hj ltac:(lia) Hcall) as (H1 & H2 & H3 & H4). split; [lia | assumption]. }
  assert (Habove : ~ call_below s (floor_ s) -> call_above s (floor_ s) ->
                   (floor_ s < jj /\ 0 <= jj <= 4) /\ any_call s jj = true).
  { intros Hb (j & Hj & Hlt & Hcall).
    destruct (Hfound j Hj ltac:(lia) Hcall) as (H1 & H2 & H3 & H4).
    split; [|assumption]. split; [|assumption].
    destruct (Z.lt_total jj (floor_ s)) as [Hlt'|[Heq|Hgt]]; [|tauto|lia].
    exfalso. apply Hb. exists jj. auto. }
  destruct (Z.eqb_spec jj (-1)) as [Ejj|Ejj]; cbn [negb]; cbv iota.
  - exists s. split; [reflexivity|].
    split; [intros H; apply Hbelow in H; lia|].
    split; [intros Hb Ha; destruct (Habove Hb Ha); lia|].
    split; [|reflexivity].
    intros [H|H] _.
    + apply Hbelow in H. lia.
    + destruct (classic_below s) as [Hb|Hb].
      * apply Hbelow in Hb. lia.
      * destruct (Habove Hb H). lia.
  - unfold bind, modify, when.
    set (s1 := set_state _ s).
    destruct ((nextinst_ s elevatortask =? 1) && negb (jj =? 2)) eqn:Ed.
    + rewrite schedule_count_ok by exact Hc.
      eexists. split; [reflexivity|].
      cbn [after_schedule state_ nextinst_ nexttime_ wait_ set_wait set_nexttime
             set_nextinst]. unfold s1. cbn [state_ set_state nextinst_ nexttime_ wait_].
      split; [intros H; apply Hbelow in H;
              destruct (Z.ltb_spec jj (floor_ s)); [reflexivity | lia]|].
      split; [intros Hb Ha; destruct (Habove Hb Ha);
              destruct (Z.ltb_spec jj (floor_ s)); [lia|];
              destruct (Z.gtb_spec jj (floor_ s)); [reflexivity | lia]|].
      split.
      * intros _ _. rewrite !updT_same. repeat split.
        apply In_sched_wait. auto.
      * intros Hb Ha ->. specialize (Hnone Hb Ha). unfold d in Hnone. congruence.
    + eexists. split; [reflexivity|]. unfold ret, s1. cbn [state_ set_state nextinst_
        nexttime_ wait_].
      split; [intros H; apply Hbelow in H;
              destruct (Z.ltb_spec jj (floor_ s)); [reflexivity | lia]|].
      split; [intros Hb Ha; destruct (Habove Hb Ha);
              destruct (Z.ltb_spec jj (floor_ s)); [lia|];
              destruct (Z.gtb_spec jj (floor_ s)); [reflexivity | lia]|].
      split.
      * intros Hcall E1. exfalso.
        rewrite E1 in Ed. cbn [Z.eqb Pos.eqb andb] in Ed.
        apply negb_false_iff, Z.eqb_eq in Ed.
        specialize (HD2 E1).
        destruct Hcall as [H|H].
        -- apply Hbelow in H. rewrite Ed in H. destruct H. congruence.
        -- destruct (classic_below s) as [Hb|Hb].
           ++ apply Hbelow in Hb. rewrite Ed in Hb. destruct Hb. congruence.
           ++ destruct (Habove Hb H) as [_ Hx]. rewrite Ed in Hx. congruence.
      * intros Hb Ha ->. specialize (Hnone Hb Ha). unfold d in Hnone. congruence.
Qed.

Lemma decision_prefers_lower_floors_witness :
  call_below calls_both_sides (floor_ calls_both_sides)
  /\ call_above calls_both_sides (floor_ calls_both_sides)
  /\ exists s',
      decision 0 false calls_both_sides = Ok (tt, s')
      /\ (call_below calls_both_sides (floor_ calls_both_sides) -> state_ s' = GoingDown)
      /\ (~ call_below calls_both_sides (floor_ calls_both_sides) ->
          call_above calls_both_sides (floor_ calls_both_sides) -> state_ s' = GoingUp)
      /\ (call_below calls_both_sides (floor_ calls_both_sides)
          \/ call_above calls_both_sides (floor_ calls_both_sides) ->
          nextinst_ calls_both_sides elevatortask = 1 ->
          nextinst_ s' elevatortask = 6
          /\ nexttime_ s' elevatortask = 0 + delayBeforeHoming
          /\ In elevatortask (wait_ s'))
      /\ (~ call_below calls_both_sides (floor_ calls_both_sides) ->
          ~ call_above calls_both_sides (floor_ calls_both_sides) ->
          false = false -> s' = calls_both_sides).
Proof.
  split; [exists 0; vm_compute; intuition discriminate|].
  split; [exists 4; vm_compute; intuition discriminate|].
  apply (decision_prefers_lower_floors 0 false calls_both_sides).
  - reflexivity.
  - intros _. reflexivity.
  - vm_compute. discriminate.
Defined.

(** ** The driver *)

Lemma runUntil_more_fuel fuel k deadline log s r :
  runUntil fuel deadline log s = Some r ->
  runUntil (fuel + k) deadline log s = Some r.
Proof.
  revert log s. induction fuel as [|fuel IH]; intros log s; [discriminate|].
  cbn [runUntil Nat.add].
  destruct (runUntil_turn deadline s) as [[[line|] s']|f]; auto.
Qed.

(** A turn that fires a task before a deadline fires it before any later
    deadline; a turn returns only in front of a task due at the deadline or
    after it, and leaves the state as it is. *)
Lemma turn_cases deadline s :
  match runUntil_turn deadline s with
  | Ok (Some line, s') =>
      log_time line < deadline
      /\ forall deadline', deadline <= deadline' ->
           runUntil_turn deadline' s = Ok (Some line, s')
  | Ok (None, s') =>
      s' = s /\ exists t rest, wait_ s = t :: rest /\ deadline <= nexttime_ s t
  | Abort _ => True
  end.
Proof.
  unfold runUntil_turn, bind, get. destruct (wait_ s) as [|t rest] eqn:Hw.
  - exact I.
  - unfold assert at 1. cbn [negb]. cbv iota.
    destruct (Z.geb_spec (nexttime_ s t) deadline) as [Hge|Hlt].
    + unfold ret. split; [reflexivity|]. exists t, rest. split; [reflexivity | lia].
    + unfold modify at 1. cbv beta iota.
      destruct (resume t (set_wait rest s)) as [[[] s']|f] eqn:E; [|exact I].
      unfold ret. cbn [log_time]. split; [exact Hlt|].
      intros deadline' Hd. unfold assert. cbn [negb]. cbv iota.
      destruct (Z.geb_spec (nexttime_ s t) deadline'); [lia|].
      unfold modify. rewrite E. reflexivity.
Qed.

(** X11.  [runUntil] can be resumed: running to a deadline and then, from
    the state reached, to a later one prints the lines and reaches the state
    of a single run to the later deadline. *)
Theorem runUntil_resumes fuel1 fuel2 deadline1 deadline2 log0 s log1 s1 log2 s2 :
  deadline1 <= deadline2 ->
  runUntil fuel1 deadline1 log0 s = Some (Ok (log1, s1)) ->
  runUntil fuel2 deadline2 log1 s1 = Some (Ok (log2, s2)) ->
  runUntil (fuel1 + fuel2) deadline2 log0 s = Some (Ok (log2, s2)).
Proof.
  intros Hd. revert log0 s. induction fuel1 as [|fuel1 IH]; intros log0 s E1 E2;
    [discriminate|].
  cbn [runUntil Nat.add] in *.
  pose proof (turn_cases deadline1 s) as Ht.
  destruct (runUntil_turn deadline1 s) as [[[line|] s']|f] eqn:Et.
  - destruct Ht as [_ Ht]. rewrite (Ht deadline2 Hd). apply IH; assumption.
  - destruct Ht as [-> _]. injection E1 as <- <-.
    change (runUntil (S (fuel1 + fuel2)) deadline2 log0 s = Some (Ok (log2, s2))).
    replace (S (fuel1 + fuel2)) with (fuel2 + S fuel1)%nat by lia.
    apply runUntil_more_fuel. exact E2.
  - discriminate.
Qed.

Lemma runUntil_resumes_witness :
  exists log s, runUntil (20 + 40) 652 [] (ctor_state gen_walk) = Some (Ok (log, s)).
Proof.
  do 2 eexists.
  eapply (runUntil_resumes 20 40 200 652 [] (ctor_state gen_walk)).
  - lia.
  - vm_compute. reflexivity.
  - vm_compute. reflexivity.
Defined.

(** X12.  When [runUntil] returns, every line it has printed is for a time
    before the deadline, there is at most one line for each turn of the loop,
    and the first pending task of the state it leaves is due at the deadline
    or after it. *)
Theorem runUntil_stops_at_deadline fuel deadline s log s' :
  runUntil fuel deadline [] s = Some (Ok (log, s')) ->
  Forall (fun line => log_time line < deadline) log
  /\ (List.length log < fuel)%nat
  /\ exists t rest, wait_ s' = t :: rest /\ deadline <= nexttime_ s' t.
Proof.
  assert (H : forall log0,
             Forall (fun line => log_time line < deadline) log0 ->
             runUntil fuel deadline log0 s = Some (Ok (log, s')) ->
             Forall (fun line => log_time line < deadline) log
             /\ (List.length log < List.length log0 + fuel)%nat
             /\ exists t rest, wait_ s' = t :: rest /\ deadline <= nexttime_ s' t).
  { revert s. induction fuel as [|fuel IH]; intros s log0 H0 E; [discriminate|].
    cbn [runUntil] in E.
    pose proof (turn_cases deadline s) as Ht.
    destruct (runUntil_turn deadline s) as [[[line|] s1]|f] eqn:Et.
    - destruct Ht as [Hlt _].
      destruct (IH s1 (log0 ++ [line])) as (H1 & H2 & H3); try assumption.
      + apply Forall_app. split; [assumption | constructor; [assumption | constructor]].
      + rewrite length_app in H2. cbn [List.length] in H2. repeat split; [assumption | lia | assumption].
    - destruct Ht as [-> Ht]. injection E as <- <-.
      repeat split; [assumption | lia | assumption].
    - discriminate. }
  intros E. apply (H [] (Forall_nil _) E).
Qed.

Lemma runUntil_stops_at_deadline_witness :
  exists log,
    runUntil 40 652 [] (ctor_state gen_walk) = Some (Ok (log, doors_open_for_nobody))
    /\ Forall (fun line => log_time line < 652) log
    /\ (List.length log < 40)%nat
    /\ exists t rest, wait_ doors_open_for_nobody = t :: rest
                      /\ 652 <= nexttime_ doors_open_for_nobody t.
Proof.
  destruct (runUntil 40 652 [] (ctor_state gen_walk)) as [[[log s1]|]|] eqn:E;
    [|vm_compute in E; discriminate..].
  exists log.
  assert (Es : s1 = doors_open_for_nobody).
  { unfold doors_open_for_nobody. rewrite E. reflexivity. }
  rewrite <- Es. split; [reflexivity|].
  apply (runUntil_stops_at_deadline 40 652 (ctor_state gen_walk) log s1 E).
Defined.

(** ** What one firing does to the floor, the clock and the work left

    Three facts about the firing of a task at time [now], in a run up to the
    deadline [T], are read off the code of the steps together: by how much
    the floor of the car changes; that nothing is scheduled for a time
    before [now]; and that the pending tasks due before [T] carry, after the
    firing, less work than before.  The work of a pending task due at [tm]
    is [rank * growth ^ (T - tm)]: a firing costs the task its own work and
    adds tasks for later times, whose work is smaller by the factor
    [growth], or tasks of lower rank for the same time. *)

Lemma rank_bounds t inst : 1 <= rank t inst <= 3.
Proof.
  unfold rank. destruct t; try lia.
  - destruct ((inst =? 4) || (inst =? 6) || (inst =? 71) || (inst =? 81)); lia.
  - destruct (inst =? 1); lia.
Qed.

Lemma growth_pow_pos n : 0 <= n -> 0 < growth ^ n.
Proof. intros H. apply Z.pow_pos_nonneg; [reflexivity | assumption]. Qed.

Lemma work_nonneg T when_ t inst : 0 <= work T when_ t inst.
Proof.
  unfold work. destruct (Z.ltb_spec when_ T); [|lia].
  pose proof (rank_bounds t inst). pose proof (growth_pow_pos (T - when_) ltac:(lia)). nia.
Qed.

(** A task for a later time costs at most three units of the next lower
    power. *)
Lemma work_later now T when_ t inst :
  now < T -> now < when_ -> work T when_ t inst <= 3 * growth ^ (T - now - 1).
Proof.
  intros HT Hw. unfold work. destruct (Z.ltb_spec when_ T).
  - pose proof (rank_bounds t inst).
    assert (growth ^ (T - when_) <= growth ^ (T - now - 1)).
    { apply Z.pow_le_mono_r; [reflexivity | lia]. }
    pose proof (growth_pow_pos (T - when_) ltac:(lia)). nia.
  - pose proof (growth_pow_pos (T - now - 1) ltac:(lia)). lia.
Qed.

Lemma work_now now T t inst : now < T -> work T now t inst = rank t inst * growth ^ (T - now).
Proof. intros HT. unfold work. destruct (Z.ltb_spec now T); [reflexivity | lia]. Qed.

Lemma sumZ_app l1 l2 : sumZ (l1 ++ l2) = sumZ l1 + sumZ l2.
Proof. induction l1 as [|x l1 IH]; cbn [sumZ app] in *; lia. Qed.

Lemma sumZ_stable_insert {A} (f : A -> Z) lt x (l : list A) :
  sumZ (map f (stable_insert lt x l)) = f x + sumZ (map f l).
Proof.
  induction l as [|y l IH]; cbn [stable_insert]; [reflexivity|].
  destruct (lt y x); cbn [map sumZ] in *; lia.
Qed.

Lemma sumZ_stable_sort {A} (f : A -> Z) lt (l : list A) :
  sumZ (map f (stable_sort lt l)) = sumZ (map f l).
Proof.
  induction l as [|y l IH]; cbn [stable_sort]; [reflexivity|].
  rewrite sumZ_stable_insert. cbn [map sumZ] in *. lia.
Qed.

Lemma sumZ_erase_first {A} (f : A -> Z) eqb (l : list A) v :
  (forall x, 0 <= f x) -> sumZ (map f (erase_first eqb l v)) <= sumZ (map f l).
Proof.
  intros Hf. induction l as [|y l IH]; [reflexivity|].
  change (erase_first eqb (y :: l) v)
    with (if eqb y v then l else y :: erase_first eqb l v).
  destruct (eqb y v); cbn [map sumZ] in *; [specialize (Hf y)|]; lia.
Qed.

Lemma sumZ_map_ext {A} (f g : A -> Z) (l : list A) :
  (forall x, In x l -> f x = g x) -> sumZ (map f l) = sumZ (map g l).
Proof.
  induction l as [|y l IH]; intros H; [reflexivity|].
  cbn [map sumZ]. rewrite (H y) by (cbn [In]; auto).
  rewrite IH; [reflexivity|]. intros x Hx. apply H. cbn [In]. auto.
Qed.

Lemma erase_first_other_tasks w t :
  std_count Task_eqb w t <= 1 -> forall q, In q (erase_first Task_eqb w t) -> q <> t.
Proof.
  intros Hc q Hq ->. apply (std_count_In _ Task_eqb_spec) in Hq.
  rewrite (std_count_erase_same _ Task_eqb_spec) in Hq by assumption. lia.
Qed.

(** The work of the tasks an erasure leaves, under changed fields of the
    erased task. *)
Lemma potential_rest T tm tm' ni ni' (w : list Task) t :
  std_count Task_eqb w t <= 1 ->
  (forall q, q <> t -> tm' q = tm q /\ ni' q = ni q) ->
  sumZ (map (fun q => work T (tm' q) q (ni' q)) (erase_first Task_eqb w t))
  <= sumZ (map (fun q => work T (tm q) q (ni q)) w).
Proof.
  intros Hc Hext.
  rewrite (sumZ_map_ext _ (fun q => work T (tm q) q (ni q))).
  - apply sumZ_erase_first. intros x. apply work_nonneg.
  - intros q Hq. destruct (Hext q (erase_first_other_tasks w t Hc q Hq)) as [-> ->].
    reflexivity.
Qed.

Lemma potential_after_schedule T t step when_ s :
  std_count Task_eqb (wait_ s) t <= 1 ->
  potential T (after_schedule t step when_ s) <= potential T s + work T when_ t step.
Proof.
  intros Hc. unfold potential.
  cbn [after_schedule wait_ nexttime_ nextinst_ set_wait set_nexttime set_nextinst].
  unfold sched_wait. rewrite sumZ_stable_sort, map_app, sumZ_app.
  cbn [map sumZ]. rewrite !updT_same.
  pose proof (potential_rest T (nexttime_ s) (updT (nexttime_ s) t when_)
                (nextinst_ s) (updT (nextinst_ s) t step) (wait_ s) t Hc) as H.
  cbv beta in H. specialize (H ltac:(intros q Hq; rewrite !updT_other by assumption; auto)).
  lia.
Qed.

Lemma potential_after_immediately T t step when_ s :
  std_count Task_eqb (wait_ s) t <= 1 ->
  potential T (after_immediately t step when_ s) <= potential T s + work T when_ t step.
Proof.
  intros Hc. unfold potential.
  cbn [after_immediately wait_ nexttime_ nextinst_ set_wait set_nexttime set_nextinst].
  cbn [map sumZ]. rewrite !updT_same.
  pose proof (potential_rest T (nexttime_ s) (updT (nexttime_ s) t when_)
                (nextinst_ s) (updT (nextinst_ s) t step) (wait_ s) t Hc) as H.
  cbv beta in H. specialize (H ltac:(intros q Hq; rewrite !updT_other by assumption; auto)).
  lia.
Qed.

Lemma potential_after_cancel T t s :
  potential T (after_cancel t s) <= potential T s.
Proof.
  unfold potential. cbn [after_cancel wait_ nexttime_ nextinst_ set_wait].
  apply sumZ_erase_first. intros x. apply work_nonneg.
Qed.

Lemma not_before_after_schedule now t step when_ s :
  now <= when_ -> not_before now s -> not_before now (after_schedule t step when_ s).
Proof.
  unfold not_before. cbn [after_schedule wait_ nexttime_ set_wait set_nexttime set_nextinst].
  rewrite !Forall_forall. intros Hw H x Hx. apply In_sched_wait in Hx.
  unfold updT. destruct (Task_eqb_spec x t) as [->|Hne]; [assumption|].
  destruct Hx as [->|Hx]; [congruence | auto].
Qed.

Lemma not_before_after_immediately now t step when_ s :
  now <= when_ -> not_before now s -> not_before now (after_immediately t step when_ s).
Proof.
  unfold not_before.
  cbn [after_immediately wait_ nexttime_ set_wait set_nexttime set_nextinst].
  rewrite !Forall_forall. intros Hw H x Hx. apply In_imm_wait in Hx.
  unfold updT. destruct (Task_eqb_spec x t) as [->|Hne]; [assumption|].
  destruct Hx as [->|Hx]; [congruence | auto].
Qed.

Lemma not_before_after_cancel now t s :
  not_before now s -> not_before now (after_cancel t s).
Proof.
  unfold not_before. cbn [after_cancel wait_ nexttime_ set_wait].
  apply (Forall_erase_first Task_eqb).
Qed.

(** What the scheduler's operations return when they return. *)
Lemma schedule_returns t step when_ s a s' :
  schedule t step when_ s = Ok (a, s') ->
  std_count Task_eqb (wait_ s) t <= 1 /\ s' = after_schedule t step when_ s.
Proof.
  intros E. destruct (Z.leb_spec (std_count Task_eqb (wait_ s) t) 1) as [Hc|Hc].
  - rewrite schedule_count_ok in E by assumption. injection E as _ <-. auto.
  - exfalso. unfold schedule, bind, modify, erase_wait in E.
    cbn [wait_ set_nextinst set_nexttime] in E.
    rewrite std_erase_count_abort in E by assumption. discriminate.
Qed.

Lemma schedule_immediately_returns t step when_ s a s' :
  schedule_immediately t step when_ s = Ok (a, s') ->
  std_count Task_eqb (wait_ s) t <= 1 /\ s' = after_immediately t step when_ s.
Proof.
  intros E. destruct (Z.leb_spec (std_count Task_eqb (wait_ s) t) 1) as [Hc|Hc].
  - rewrite schedule_immediately_count_eq in E by assumption.
    destruct (is_sorted _ _); [|discriminate]. injection E as _ <-. auto.
  - exfalso. unfold schedule_immediately, bind, modify, erase_wait in E.
    cbn [wait_ set_nextinst set_nexttime] in E.
    rewrite std_erase_count_abort in E by assumption. discriminate.
Qed.

Lemma cancel_returns t s a s' :
  cancel t s = Ok (a, s') -> s' = after_cancel t s.
Proof.
  unfold cancel, erase_wait, after_cancel.
  destruct (std_erase Task_eqb (wait_ s) t) as [w|f] eqn:E; [|discriminate].
  intros H. injection H as _ <-.
  unfold std_erase in E. destruct (_ <=? 1); [|discriminate]. injection E as <-. reflexivity.
Qed.

(** *** The rules *)

Lemma Step_refl now T s : now < T -> Step now T 0 0 0 s s.
Proof. intros HT. constructor; [lia | auto | lia]. Qed.

Lemma Step_trans now T z1 d1 f1 z2 d2 f2 s s1 s2 :
  Step now T z1 d1 f1 s s1 -> Step now T z2 d2 f2 s1 s2 ->
  Step now T (z1 + z2) (d1 + d2) (f1 + f2) s s2.
Proof.
  intros [F1 C1 P1] [F2 C2 P2]. constructor; [lia | auto | nia].
Qed.

(** A change of fields that the three facts do not look at. *)
Lemma Step_frame now T s s' :
  floor_ s' = floor_ s -> wait_ s' = wait_ s ->
  nexttime_ s' = nexttime_ s -> nextinst_ s' = nextinst_ s ->
  Step now T 0 0 0 s s'.
Proof.
  intros Hf Hw Ht Hi. constructor.
  - lia.
  - unfold not_before. rewrite Hw, Ht. auto.
  - unfold potential. rewrite Hw, Ht, Hi. lia.
Qed.

Lemma does_ret {A} now T (a : A) : does now T 0 0 0 (ret a).
Proof.
  intros s a' s' E. injection E as _ <-.
  apply Step_frame; reflexivity.
Qed.

Lemma does_bind {A B} now T z1 d1 f1 z2 d2 f2 (m : M A) (k : A -> M B) :
  does now T z1 d1 f1 m -> (forall a, does now T z2 d2 f2 (k a)) ->
  does now T (z1 + z2) (d1 + d2) (f1 + f2) (bind m k).
Proof.
  intros Hm Hk s b s' E. unfold bind in E.
  destruct (m s) as [[a s1]|f] eqn:Em; [|discriminate].
  eapply Step_trans; [eapply Hm | eapply Hk]; eassumption.
Qed.

Lemma does_weaken {A} now T z d f z' d' (m : M A) :
  now < T -> does now T z d f m -> z <= z' -> d <= d' -> does now T z' d' f m.
Proof.
  intros HT H Hz Hd s a s' E. destruct (H s a s' E) as [F C P].
  constructor; [assumption | assumption|].
  pose proof (growth_pow_pos (T - now) ltac:(lia)).
  pose proof (growth_pow_pos (T - now - 1) ltac:(lia)). nia.
Qed.

Lemma does_get {A} now T (f : Sim -> A) : does now T 0 0 0 (get f).
Proof. intros s a s' E. injection E as _ <-. apply Step_frame; reflexivity. Qed.

Lemma does_modify now T (f : Sim -> Sim) :
  (forall s, floor_ (f s) = floor_ s /\ wait_ (f s) = wait_ s
             /\ nexttime_ (f s) = nexttime_ s /\ nextinst_ (f s) = nextinst_ s) ->
  does now T 0 0 0 (modify f).
Proof.
  intros H s a s' E. injection E as _ <-. destruct (H s) as (H1 & H2 & H3 & H4).
  apply Step_frame; assumption.
Qed.

Lemma does_set_floor now T c :
  does now T 0 0 c (modify (fun s => set_floor (floor_ s + c) s)).
Proof.
  intros s a s' E. injection E as _ <-. constructor.
  - reflexivity.
  - auto.
  - unfold potential. cbn [wait_ nexttime_ nextinst_ set_floor]. lia.
Qed.

Lemma does_assert now T line b : does now T 0 0 0 (assert line b).
Proof.
  intros s a s' E. unfold assert in E. destruct b; [|discriminate].
  injection E as _ <-. apply Step_frame; reflexivity.
Qed.

Lemma does_check_index now T i : does now T 0 0 0 (check_index i).
Proof.
  intros s a s' E. unfold check_index in E. destruct (_ && _); [|discriminate].
  injection E as _ <-. apply Step_frame; reflexivity.
Qed.

Lemma does_if {A} now T z1 d1 z2 d2 f (c : bool) (m1 m2 : M A) :
  now < T -> does now T z1 d1 f m1 -> does now T z2 d2 f m2 ->
  does now T (Z.max z1 z2) (Z.max d1 d2) f (if c then m1 else m2).
Proof.
  intros HT H1 H2. destruct c; eapply does_weaken; eauto; lia.
Qed.

Lemma does_when now T z d (c : bool) (m : M unit) :
  now < T -> does now T z d 0 m -> does now T (Z.max z 0) (Z.max d 0) 0 (when c m).
Proof.
  intros HT H. unfold when. apply does_if; [assumption | assumption | apply does_ret].
Qed.

Lemma does_match_option {A B} now T z1 d1 z2 d2 f (o : option B)
      (m1 : B -> M A) (m2 : M A) :
  now < T -> (forall b, does now T z1 d1 f (m1 b)) -> does now T z2 d2 f m2 ->
  does now T (Z.max z1 z2) (Z.max d1 d2) f
       (match o with Some b => m1 b | None => m2 end).
Proof.
  intros HT H1 H2. destruct o; eapply does_weaken; eauto; lia.
Qed.

Lemma does_schedule now T t step when_ :
  now < T -> now < when_ -> does now T 0 3 0 (schedule t step when_).
Proof.
  intros HT Hw s a s' E. apply schedule_returns in E. destruct E as [Hc ->].
  constructor.
  - cbn [after_schedule floor_ set_wait set_nexttime set_nextinst]. lia.
  - apply not_before_after_schedule. lia.
  - pose proof (potential_after_schedule T t step when_ s Hc).
    pose proof (work_later now T when_ t step HT Hw). lia.
Qed.

Lemma does_schedule_immediately now T t step :
  now < T -> does now T (rank t step) 0 0 (schedule_immediately t step now).
Proof.
  intros HT s a s' E. apply schedule_immediately_returns in E. destruct E as [Hc ->].
  constructor.
  - cbn [after_immediately floor_ set_wait set_nexttime set_nextinst]. lia.
  - apply not_before_after_immediately. lia.
  - pose proof (potential_after_immediately T t step now s Hc).
    rewrite (work_now now T t step HT) in H. lia.
Qed.

Lemma does_cancel now T t : now < T -> does now T 0 0 0 (cancel t).
Proof.
  intros HT s a s' E. apply cancel_returns in E. subst s'. constructor.
  - cbn [after_cancel floor_ set_wait]. lia.
  - apply not_before_after_cancel.
  - pose proof (potential_after_cancel T t s). lia.
Qed.

Lemma does_erase_queue now T f me : does now T 0 0 0 (erase_queue f me).
Proof.
  intros s a s' E. unfold erase_queue, bind, check_index in E.
  destruct (_ && _); [|discriminate].
  destruct (std_erase Nat.eqb (queue_ s f) me); [|discriminate].
  injection E as _ <-. apply Step_frame; reflexivity.
Qed.

Lemma does_erase_elevator now T me : does now T 0 0 0 (erase_elevator me).
Proof.
  intros s a s' E. unfold erase_elevator in E.
  destruct (std_erase Nat.eqb (elevator_ s) me); [|discriminate].
  injection E as _ <-. apply Step_frame; reflexivity.
Qed.

(** The arrival generator changes the generator only; what it returns is in
    its ranges. *)
Lemma does_createNewUser {A} now T z d f (k : NewUserInfo.t -> M A) :
  (forall info,
      300 <= NewUserInfo.giveuptime_ info <= 1200 ->
      10 <= NewUserInfo.intertime_ info <= 900 ->
      does now T z d f (k info)) ->
  does now T z d f (bind createNewUser k).
Proof.
  intros Hk s a s' E. unfold bind in E.
  destruct (createNewUser_ok s) as (info & g & E1 & _ & _ & _ & Hg & Hi).
  rewrite E1 in E. destruct (Hk info Hg Hi _ _ _ E) as [F C P].
  constructor; assumption.
Qed.

(** A scheduling in a state [s1] that differs from [s] in the fields of the
    scheduled task only. *)
Lemma Step_fresh_schedule now T t step when_ s s1 :
  now < T -> now < when_ ->
  wait_ s1 = wait_ s -> floor_ s1 = floor_ s ->
  (forall q, q <> t -> nexttime_ s1 q = nexttime_ s q /\ nextinst_ s1 q = nextinst_ s q) ->
  std_count Task_eqb (wait_ s) t <= 1 ->
  Step now T 0 3 0 s (after_schedule t step when_ s1).
Proof.
  intros HT Hw Ewait Efloor Eother Hc. constructor.
  - cbn [after_schedule floor_ set_wait set_nexttime set_nextinst]. lia.
  - intros H. unfold not_before in *.
    cbn [after_schedule wait_ nexttime_ set_wait set_nexttime set_nextinst].
    rewrite Ewait. rewrite Forall_forall in *. intros x Hx. apply In_sched_wait in Hx.
    unfold updT at 1. destruct (Task_eqb_spec x t) as [->|Hne]; [lia|].
    destruct Hx as [->|Hx]; [congruence|].
    destruct (Eother x Hne) as [-> _]. apply H, Hx.
  - unfold potential.
    cbn [after_schedule wait_ nexttime_ nextinst_ set_wait set_nexttime set_nextinst].
    unfold sched_wait. rewrite sumZ_stable_sort, map_app, sumZ_app.
    cbn [map sumZ]. rewrite !updT_same, Ewait.
    pose proof (potential_rest T (nexttime_ s) (updT (nexttime_ s1) t when_)
                  (nextinst_ s) (updT (nextinst_ s1) t step) (wait_ s) t Hc) as H.
    cbv beta in H.
    assert (Hext : forall q, q <> t ->
              updT (nexttime_ s1) t when_ q = nexttime_ s q
              /\ updT (nextinst_ s1) t step q = nextinst_ s q).
    { intros q Hq. rewrite !updT_other by assumption. apply Eother, Hq. }
    specialize (H Hext).
    pose proof (work_later now T when_ t step HT Hw). lia.
Qed.

Lemma bind_returns {A B} (m : M A) (k : A -> M B) s b s' :
  bind m k s = Ok (b, s') -> exists a s1, m s = Ok (a, s1) /\ k a s1 = Ok (b, s').
Proof.
  unfold bind. destruct (m s) as [[a s1]|]; [eauto | discriminate].
Qed.

Lemma make_shared_returns s u s1 :
  make_shared_UserTask s = Ok (u, s1) ->
  u = users_ s /\ wait_ s1 = wait_ s /\ floor_ s1 = floor_ s
  /\ (forall q, q <> usertask u ->
        nexttime_ s1 q = nexttime_ s q /\ nextinst_ s1 q = nextinst_ s q).
Proof.
  unfold make_shared_UserTask. intros E. injection E as Eu Es1. subst u s1.
  cbn [wait_ floor_ nexttime_ nextinst_ set_users set_out set_in set_nexttime set_nextinst].
  repeat split; try reflexivity; apply updT_other; assumption.
Qed.

(** A new task object and its first scheduling: whatever the fields of the
    new handle were, they count from the scheduling on. *)
Lemma does_make_shared_schedule {A} now T z d f step when_ (k : M A) :
  now < T -> now < when_ -> does now T z d f k ->
  does now T z (3 + d) f
       (bind make_shared_UserTask
             (fun t => bind (schedule (usertask t) step when_) (fun _ => k))).
Proof.
  intros HT Hw Hk s a s' E.
  apply bind_returns in E. destruct E as (u & s1 & E1 & E).
  apply bind_returns in E. destruct E as ([] & s2 & E2 & E).
  apply schedule_returns in E2. destruct E2 as [Hc Es2].
  apply make_shared_returns in E1. destruct E1 as (Eu & Ew & Ef & Eo).
  assert (S1 : Step now T 0 3 0 s s2).
  { rewrite Es2. apply Step_fresh_schedule; try assumption. rewrite <- Ew. exact Hc. }
  exact (Step_trans now T 0 3 0 z d f s s2 s' S1 (Hk _ _ _ E)).
Qed.

(** The decision subroutine schedules the car at most once, for later. *)
Lemma does_decision now T fromE6 : now < T -> does now T 0 3 0 (decision now fromE6).
Proof.
  intros HT s a s' E. unfold decision in E.
  assert (R : forall s0, Step now T 0 3 0 s0 s0).
  { intros s0. pose proof (growth_pow_pos (T - now - 1) ltac:(lia)).
    constructor; [lia | auto | lia]. }
  destruct (negb (Direction_eqb (state_ s) Neutral)); [injection E as _ <-; apply R|].
  destruct ((nextinst_ s elevatortask =? 1) && any_call s 2).
  - apply (does_schedule now T _ _ _ HT) in E; [exact E|].
    unfold durationOfDoorOpenFromDecisionSubroutine. lia.
  - destruct (negb (_ =? -1)); [|injection E as _ <-; apply R].
    unfold bind, modify, when in E.
    destruct (_ && _).
    + apply (does_schedule now T _ _ _ HT) in E; [|unfold delayBeforeHoming; lia].
      destruct E as [F C P]. constructor; assumption.
    + injection E as _ <-.
      pose proof (growth_pow_pos (T - now - 1) ltac:(lia)).
      constructor; [cbn [floor_ set_state]; lia | auto|].
      unfold potential. cbn [wait_ nexttime_ nextinst_ set_state]. lia.
Qed.

(** *** The steps *)

Lemma does_sub {A} now T z d f z' d' f' (m : M A) :
  now < T -> does now T z d f m -> z <= z' -> d <= d' -> f = f' ->
  does now T z' d' f' m.
Proof. intros HT H Hz Hd <-. eapply does_weaken; eauto. Qed.

Lemma does_if' {A} now T z1 d1 f1 z2 d2 f2 f (c : bool) (m1 m2 : M A) :
  now < T -> does now T z1 d1 f1 m1 -> does now T z2 d2 f2 m2 ->
  f1 = f -> f2 = f ->
  does now T (Z.max z1 z2) (Z.max d1 d2) f (if c then m1 else m2).
Proof. intros HT H1 H2 <- <-. apply does_if; assumption. Qed.

Lemma does_when' now T z d f (c : bool) (m : M unit) :
  now < T -> does now T z d f m -> f = 0 ->
  does now T (Z.max z 0) (Z.max d 0) 0 (when c m).
Proof. intros HT H ->. apply does_when; assumption. Qed.

Lemma does_match_option' {A B} now T z1 d1 f1 z2 d2 f2 f (o : option B)
      (m1 : B -> M A) (m2 : M A) :
  now < T -> (forall b, does now T z1 d1 f1 (m1 b)) -> does now T z2 d2 f2 m2 ->
  f1 = f -> f2 = f ->
  does now T (Z.max z1 z2) (Z.max d1 d2) f
       (match o with Some b => m1 b | None => m2 end).
Proof. intros HT H1 H2 <- <-. apply does_match_option; assumption. Qed.

Lemma does_schedule_immediately' now T t step z :
  now < T -> rank t step = z -> does now T z 0 0 (schedule_immediately t step now).
Proof. intros HT <-. apply does_schedule_immediately. assumption. Qed.

Lemma does_set_floor_down now T c :
  does now T 0 0 (- c) (modify (fun s => set_floor (floor_ s - c) s)).
Proof.
  intros s a s' E. injection E as _ <-. constructor.
  - cbn [floor_ set_floor]. lia.
  - auto.
  - unfold potential. cbn [wait_ nexttime_ nextinst_ set_floor]. lia.
Qed.

Ltac later :=
  unfold durationBeforeRapidDoorClose, durationBeforeInactivity, durationBeforeDoorClose,
    durationOfDoorOpen, durationOfLeaving, durationOfEntering, delayAfterDoorFlutter,
    durationOfDoorClose, durationOfUpwardAcceleration, durationOfDownwardAcceleration,
    durationOfDoorOpenFromDecisionSubroutine, delayBeforeHoming, durationOfUpwardTravel,
    durationOfUpwardDeceleration, durationOfDownwardTravel,
    durationOfDownwardDeceleration in *;
  lia.

(** The summary of a computation, by its syntax. *)
Ltac does_go HT :=
  cbv zeta;
  lazymatch goal with
  | |- does _ _ _ _ _ (bind createNewUser _) =>
      apply does_createNewUser; intros ? ? ?; does_go HT
  | |- does _ _ _ _ _ (bind make_shared_UserTask _) =>
      eapply does_make_shared_schedule; [exact HT | later | does_go HT]
  | |- does _ _ _ _ _ (bind _ _) =>
      eapply does_bind; [does_go HT | intros ?; does_go HT]
  | |- does _ _ _ _ _ (ret _) => apply does_ret
  | |- does _ _ _ _ _ (get _) => apply does_get
  | |- does _ _ _ _ _ (modify (fun s => set_floor (floor_ s + _) s)) => apply does_set_floor
  | |- does _ _ _ _ _ (modify (fun s => set_floor (floor_ s - _) s)) =>
      apply does_set_floor_down
  | |- does _ _ _ _ _ (modify _) => apply does_modify; intros; repeat split; reflexivity
  | |- does _ _ _ _ _ (assert _ _) => apply does_assert
  | |- does _ _ _ _ _ (check_index _) => apply does_check_index
  | |- does _ _ _ _ _ (when _ _) =>
      eapply does_when'; [exact HT | does_go HT | reflexivity]
  | |- does _ _ _ _ _ (schedule_immediately _ _ _) =>
      eapply does_schedule_immediately'; [exact HT | vm_compute; reflexivity]
  | |- does _ _ _ _ _ (schedule _ _ _) => apply does_schedule; [exact HT | later]
  | |- does _ _ _ _ _ (cancel _) => apply does_cancel; exact HT
  | |- does _ _ _ _ _ (erase_queue _ _) => apply does_erase_queue
  | |- does _ _ _ _ _ (erase_elevator _) => apply does_erase_elevator
  | |- does _ _ _ _ _ (decision _ _) => apply does_decision; exact HT
  | |- does _ _ _ _ _ (if _ then _ else _) =>
      eapply does_if'; [exact HT | does_go HT | does_go HT | reflexivity | reflexivity]
  | |- does _ _ _ _ _ (match _ with Some _ => _ | None => _ end) =>
      eapply does_match_option';
      [exact HT | intros ?; does_go HT | does_go HT | reflexivity | reflexivity]
  | |- does _ _ _ _ _ (E3 _) => unfold E3; does_go HT
  | |- does _ _ _ _ _ (U2 _ _ _) => unfold U2; does_go HT
  | |- does _ _ _ _ _ (U3 _ _ _ _ _) => unfold U3; does_go HT
  end.

Ltac does_step HT :=
  eapply does_sub; [exact HT | does_go HT | cbn; lia | cbn; lia | reflexivity].

Section Steps.
Variables now T : Time.
Hypothesis HT : now < T.

Lemma does_E1 :
  does now T 0 0 0 (sim <- get (fun s => s) ;; assert 342 (floor_ sim =? 2)).
Proof. does_step HT. Qed.

Lemma does_E2 : does now T 0 9 0 (E2 now).
Proof. unfold E2. does_step HT. Qed.

Lemma does_E3 : does now T 0 9 0 (E3 now).
Proof. unfold E3. does_step HT. Qed.

Lemma does_E4 : does now T 1 3 0 (E4 now).
Proof. unfold E4. does_step HT. Qed.

Lemma does_E6 : does now T 1 6 0 (E6 now).
Proof. unfold E6. does_step HT. Qed.

Lemma does_E7 : does now T 0 3 1 (E7 now).
Proof. unfold E7. does_step HT. Qed.

Lemma does_E71 : does now T 1 3 0 (E71 now).
Proof. unfold E71. does_step HT. Qed.

Lemma does_E8 : does now T 0 3 (-1) (E8 now).
Proof. unfold E8. does_step HT. Qed.

Lemma does_E81 : does now T 1 3 0 (E81 now).
Proof. unfold E81. does_step HT. Qed.

Lemma does_E5 (inst : Z) :
  does now T 0 3 0
       (assert 514 (inst =? 5) ;;
        sim <- get (fun s => s) ;;
        if d1_ sim then schedule e5task 5 (now + delayAfterDoorFlutter)
        else modify (set_d3 false) ;;
             schedule elevatortask 6 (now + durationOfDoorClose)).
Proof. does_step HT. Qed.

Lemma does_E9 (inst : Z) :
  does now T 0 3 0
       (assert 529 (inst =? 9) ;; modify (set_d2 false) ;; decision now false).
Proof. does_step HT. Qed.

Lemma does_U1 me : does now T 2 9 0 (U1 me now).
Proof. unfold U1. does_step HT. Qed.

Lemma does_U4 me : does now T 0 0 0 (U4 me).
Proof. unfold U4. does_step HT. Qed.

Lemma does_U5 me : does now T 0 3 0 (U5 me now).
Proof. unfold U5. does_step HT. Qed.

Lemma does_U6 me : does now T 0 0 0 (U6 me).
Proof. unfold U6. does_step HT. Qed.
End Steps.

(** *** A firing *)

Lemma Step_sub now T z d f z' d' f' s s' :
  now < T -> Step now T z d f s s' -> z <= z' -> d <= d' -> f = f' ->
  Step now T z' d' f' s s'.
Proof.
  intros HT [F C P] Hz Hd <-. constructor; [assumption | assumption|].
  pose proof (growth_pow_pos (T - now) ltac:(lia)).
  pose proof (growth_pow_pos (T - now - 1) ltac:(lia)). nia.
Qed.

Lemma get_returns {A} (f : Sim -> A) s a s1 : get f s = Ok (a, s1) -> a = f s /\ s1 = s.
Proof. intros E. injection E as <- <-. auto. Qed.

Ltac open_resume E :=
  apply bind_returns in E; destruct E as (? & ? & Eg1 & E);
  apply get_returns in Eg1; destruct Eg1 as [-> ->];
  apply bind_returns in E; destruct E as (? & ? & Eg2 & E);
  apply get_returns in Eg2; destruct Eg2 as [-> ->].

Ltac close_step HT lem E :=
  eapply Step_sub;
  [exact HT | eapply (lem _ _ HT); exact E | vm_compute; discriminate
  | vm_compute; discriminate | reflexivity].

(** The summary of the firing of the task [t], by its resume point. *)
Lemma resume_step T t s s' :
  nexttime_ s t < T -> resume t s = Ok (tt, s') ->
  Step (nexttime_ s t) T (rank t (nextinst_ s t) - 1) 15
       (floor_change t (nextinst_ s t)) s s'.
Proof.
  intros HT E. destruct t as [| | |me]; cbn [resume] in E.
  - unfold ElevatorTask_resume in E. open_resume E.
    unfold rank, floor_change.
    set (now := nexttime_ s elevatortask) in *.
    remember (nextinst_ s elevatortask) as inst eqn:Einst.
    destruct (Z.eqb_spec inst 1) as [->|N1]; [close_step HT does_E1 E|].
    destruct (Z.eqb_spec inst 2) as [->|N2]; [close_step HT does_E2 E|].
    destruct (Z.eqb_spec inst 3) as [->|N3]; [close_step HT does_E3 E|].
    destruct (Z.eqb_spec inst 4) as [->|N4]; [close_step HT does_E4 E|].
    destruct (Z.eqb_spec inst 6) as [->|N6]; [close_step HT does_E6 E|].
    destruct (Z.eqb_spec inst 7) as [->|N7]; [close_step HT does_E7 E|].
    destruct (Z.eqb_spec inst 71) as [->|N71]; [close_step HT does_E71 E|].
    destruct (Z.eqb_spec inst 8) as [->|N8]; [close_step HT does_E8 E|].
    destruct (Z.eqb_spec inst 81) as [->|N81]; [close_step HT does_E81 E|].
    discriminate.
  - unfold E5Task_resume in E. open_resume E.
    eapply Step_sub;
      [exact HT | eapply (does_E5 _ _ HT); exact E | vm_compute; discriminate
      | vm_compute; discriminate | reflexivity].
  - unfold E9Task_resume in E. open_resume E.
    eapply Step_sub;
      [exact HT | eapply (does_E9 _ _ HT); exact E | vm_compute; discriminate
      | vm_compute; discriminate | reflexivity].
  - unfold UserTask_resume in E. open_resume E.
    unfold rank, floor_change.
    set (now := nexttime_ s (usertask me)) in *.
    remember (nextinst_ s (usertask me)) as inst eqn:Einst.
    destruct (Z.eqb_spec inst 1) as [E1|N1].
    { eapply Step_sub;
        [exact HT | eapply (does_U1 _ _ HT); exact E | vm_compute; discriminate
        | vm_compute; discriminate | reflexivity]. }
    destruct (Z.eqb_spec inst 4) as [E4|N4].
    { eapply Step_sub;
        [exact HT | eapply (does_U4 _ _ HT); exact E | vm_compute; discriminate
        | vm_compute; discriminate | reflexivity]. }
    destruct (Z.eqb_spec inst 5) as [E5|N5].
    { eapply Step_sub;
        [exact HT | eapply (does_U5 _ _ HT); exact E | vm_compute; discriminate
        | vm_compute; discriminate | reflexivity]. }
    destruct (Z.eqb_spec inst 6) as [E6|N6].
    { eapply Step_sub;
        [exact HT | eapply (does_U6 _ _ HT); exact E | vm_compute; discriminate
        | vm_compute; discriminate | reflexivity]. }
    eapply Step_sub;
      [exact HT | eapply (does_ret _ _ tt); exact E | vm_compute; discriminate
      | vm_compute; discriminate | reflexivity].
Qed.

(** A turn of the driver that fires a task. *)
Lemma turn_fired deadline s line s' :
  runUntil_turn deadline s = Ok (Some line, s') ->
  exists t rest,
    wait_ s = t :: rest /\ nexttime_ s t < deadline /\ line = log_line s t
    /\ resume t (set_wait rest s) = Ok (tt, s').
Proof.
  unfold runUntil_turn, bind, get. destruct (wait_ s) as [|t rest] eqn:Hw.
  - discriminate.
  - unfold assert at 1. cbn [negb]. cbv iota.
    destruct (Z.geb_spec (nexttime_ s t) deadline) as [Hge|Hlt]; [discriminate|].
    unfold modify at 1. cbv beta iota.
    destruct (resume t (set_wait rest s)) as [[[] s1]|f] eqn:E; [|discriminate].
    intros H. injection H as <- <-. exists t, rest. auto.
Qed.

Lemma turn_step deadline s line s' :
  runUntil_turn deadline s = Ok (Some line, s') ->
  exists t rest,
    wait_ s = t :: rest /\ nexttime_ s t < deadline /\ line = log_line s t
    /\ Step (nexttime_ s t) deadline (rank t (nextinst_ s t) - 1) 15
            (floor_change t (nextinst_ s t)) (set_wait rest s) s'.
Proof.
  intros E. destruct (turn_fired _ _ _ _ E) as (t & rest & Hw & Hlt & Hl & Er).
  exists t, rest.
  split; [exact Hw|]. split; [exact Hlt|]. split; [exact Hl|].
  exact (resume_step deadline t (set_wait rest s) s' Hlt Er).
Qed.

(** X13.  The car changes floor only when its task fires at step E7, by one
    floor up, or at step E8, by one floor down: every other firing of any
    task leaves the floor as it is. *)
Theorem floor_changes_in_E7_E8 deadline s line s' :
  runUntil_turn deadline s = Ok (Some line, s') ->
  floor_ s' = floor_ s + floor_change (log_task line) (log_inst line)
  /\ (floor_ s' <> floor_ s ->
      log_task line = elevatortask /\ (log_inst line = 7 \/ log_inst line = 8)).
Proof.
  intros E. destruct (turn_step _ _ _ _ E) as (t & rest & Hw & Hlt & -> & St).
  cbn [log_line log_task log_inst].
  pose proof (st_floor _ _ _ _ _ _ _ St) as F. cbn [floor_ set_wait] in F.
  split; [exact F|]. intros Hne. unfold floor_change in F.
  destruct t; try lia. split; [reflexivity|].
  destruct (Z.eqb_spec (nextinst_ s elevatortask) 7); [auto|].
  destruct (Z.eqb_spec (nextinst_ s elevatortask) 8); [auto | lia].
Qed.

Lemma floor_changes_in_E7_E8_witness :
  exists line,
    runUntil_turn 1000 (ctor_state gen_example) = Ok (Some line, after_first_turn)
    /\ floor_ after_first_turn
       = floor_ (ctor_state gen_example) + floor_change (log_task line) (log_inst line)
    /\ (floor_ after_first_turn <> floor_ (ctor_state gen_example) ->
        log_task line = elevatortask /\ (log_inst line = 7 \/ log_inst line = 8)).
Proof.
  destruct (runUntil_turn 1000 (ctor_state gen_example)) as [[[line|] s1]|] eqn:E;
    [|vm_compute in E; discriminate..].
  exists line.
  assert (Es : s1 = after_first_turn).
  { unfold after_first_turn. rewrite E. reflexivity. }
  rewrite <- Es. split; [reflexivity|].
  apply (floor_changes_in_E7_E8 1000 (ctor_state gen_example) line s1 E).
Defined.

(** *** The clock *)

Lemma sorted_head_bound {A} (tm : A -> Z) x l :
  sorted tm (x :: l) -> Forall (fun y => tm x <= tm y) l.
Proof. intros [H _]. exact H. Qed.

Lemma sorted_snoc {A} (tm : A -> Z) l x :
  sorted tm l -> Forall (fun y => tm y <= tm x) l -> sorted tm (l ++ [x]).
Proof.
  induction l as [|y l IH]; cbn [app sorted]; intros Hs Hb.
  - split; [constructor | exact I].
  - destruct Hs as [Hy Hl]. inversion Hb; subst. split.
    + apply Forall_app. split; [assumption | constructor; [assumption | constructor]].
    + apply IH; assumption.
Qed.

(** After a firing at [now], in a state of the invariant, nothing is pending
    for a time before [now]. *)
Lemma turn_not_before deadline s line s' :
  Inv s -> runUntil_turn deadline s = Ok (Some line, s') ->
  not_before (log_time line) s'
  /\ Forall (fun t => log_time line <= nexttime_ s t) (wait_ s).
Proof.
  intros HI E. destruct (turn_step _ _ _ _ E) as (t & rest & Hw & Hlt & -> & St).
  cbn [log_line log_time].
  pose proof (inv_sorted _ HI) as Hs. rewrite Hw in Hs.
  pose proof (sorted_head_bound _ _ _ Hs) as Hb.
  split.
  - apply (st_clock _ _ _ _ _ _ _ St). exact Hb.
  - rewrite Hw. constructor; [lia | exact Hb].
Qed.

Lemma runUntil_log_sorted fuel deadline lo log0 s log s' :
  Inv s -> not_before lo s ->
  sorted log_time log0 -> Forall (fun l => log_time l <= lo) log0 ->
  runUntil fuel deadline log0 s = Some (Ok (log, s')) ->
  sorted log_time log.
Proof.
  revert lo log0 s. induction fuel as [|fuel IH]; intros lo log0 s HI Hlo Hs Hb E;
    [discriminate|].
  cbn [runUntil] in E.
  pose proof (turn_cases deadline s) as Ht.
  destruct (runUntil_turn deadline s) as [[[line|] s1]|f] eqn:Et.
  - destruct (turn_not_before _ _ _ _ HI Et) as [Hnb Hall].
    assert (Hle : lo <= log_time line).
    { destruct (turn_fired _ _ _ _ Et) as (t & rest & Hw & _ & -> & _).
      cbn [log_line log_time]. unfold not_before in Hlo. rewrite Hw in Hlo.
      inversion Hlo; subst. assumption. }
    apply (IH (log_time line) (log0 ++ [line]) s1).
    + exact (wp_inv _ _ _ _ _ (turn_keeps_Inv deadline s HI) Et).
    + exact Hnb.
    + apply sorted_snoc; [assumption|].
      revert Hb. apply Forall_impl. intros l Hl. lia.
    + apply Forall_app. split.
      * revert Hb. apply Forall_impl. intros l Hl. lia.
      * constructor; [lia | constructor].
    + exact E.
  - injection E as <- _. exact Hs.
  - discriminate.
Qed.

(** *** Termination *)

Lemma sumZ_nonneg (l : list Z) : Forall (fun x => 0 <= x) l -> 0 <= sumZ l.
Proof. induction 1; cbn [sumZ]; lia. Qed.

Lemma potential_nonneg T s : 0 <= potential T s.
Proof.
  unfold potential. apply sumZ_nonneg. rewrite Forall_forall.
  intros x Hx. apply in_map_iff in Hx. destruct Hx as (t & <- & _). apply work_nonneg.
Qed.

(** A firing before the deadline leaves less work than there was. *)
Lemma turn_decreases deadline s line s' :
  runUntil_turn deadline s = Ok (Some line, s') ->
  potential deadline s' < potential deadline s.
Proof.
  intros E. destruct (turn_step _ _ _ _ E) as (t & rest & Hw & Hlt & _ & St).
  pose proof (st_potential _ _ _ _ _ _ _ St) as P.
  assert (E0 : potential deadline s
               = work deadline (nexttime_ s t) t (nextinst_ s t)
                 + potential deadline (set_wait rest s)).
  { unfold potential. rewrite Hw. reflexivity. }
  rewrite E0, (work_now _ _ _ _ Hlt).
  set (n := deadline - nexttime_ s t) in *.
  assert (Hn : growth ^ n = growth * growth ^ (n - 1)).
  { replace n with (Z.succ (n - 1)) at 1 by lia. apply Z.pow_succ_r. lia. }
  pose proof (growth_pow_pos (n - 1) ltac:(lia)) as Hpos.
  pose proof (rank_bounds t (nextinst_ s t)).
  unfold growth in *. nia.
Qed.

Lemma runUntil_returns_within deadline n :
  forall log s, Inv s -> potential deadline s < Z.of_nat n ->
    exists log' s', runUntil n deadline log s = Some (Ok (log', s')).
Proof.
  induction n as [|n IH]; intros log s HI Hp.
  - pose proof (potential_nonneg deadline s). lia.
  - cbn [runUntil].
    destruct (wp_ok _ _ _ (turn_keeps_Inv deadline s HI)) as (r & s1 & E & HQ).
    rewrite E. destruct r as [line|]; [|eauto].
    apply IH; [exact HQ|].
    pose proof (turn_decreases _ _ _ _ E). lia.
Qed.

Lemma runUntil_stops fuel deadline log0 s log s' :
  runUntil fuel deadline log0 s = Some (Ok (log, s')) ->
  exists t rest, wait_ s' = t :: rest /\ deadline <= nexttime_ s' t.
Proof.
  revert log0 s. induction fuel as [|fuel IH]; intros log0 s E; [discriminate|].
  cbn [runUntil] in E. pose proof (turn_cases deadline s) as Ht.
  destruct (runUntil_turn deadline s) as [[[line|] s1]|] eqn:Et.
  - eapply IH. exact E.
  - destruct Ht as [-> Ht]. injection E as _ <-. exact Ht.
  - discriminate.
Qed.

Lemma main_status g fuel argv status log :
  main g fuel argv = Some (Exited status log) -> status = 0.
Proof.
  unfold main. destruct (ElevatorSimulation_ctor (members_default g)) as [[[] sim]|];
    [|discriminate].
  match goal with |- context [runUntil fuel ?d [] sim] =>
    destruct (runUntil fuel d [] sim) as [[[log' s']|f']|] end;
    try discriminate.
  intros E. injection E as <- _. reflexivity.
Qed.

(** ** The riders of a run *)

(** X17.  In every state of a run exactly one rider is about to arrive: the
    rider created last is pending at step U1, and every other pending rider
    was created before and is past its arrival.  The riders on the rosters
    were created before the last one too. *)
Theorem one_arrival_pending g deadline s :
  reachable g deadline s ->
  (exists n, users_ s = S n /\ In (usertask n) (wait_ s)
             /\ nextinst_ s (usertask n) = 1)
  /\ (forall u, In (usertask u) (wait_ s) ->
        (nextinst_ s (usertask u) = 1 <-> S u = users_ s)
        /\ (S u <= users_ s)%nat)
  /\ (forall f u, In u (queue_ s f) -> (S u < users_ s)%nat)
  /\ (forall u, In u (elevator_ s) -> (S u < users_ s)%nat).
Proof.
  intros Hr. pose proof (inv_riders _ (reachable_Inv _ _ _ Hr)) as HR.
  split; [|split; [|split]].
  - destruct (rid_arrival _ HR) as (n & Hn & Hin). exists n.
    split; [exact Hn|]. split; [exact Hin|].
    destruct (rid_pending _ HR n Hin) as [[_ H]|[H _]]; [exact H | lia].
  - intros u Hu. destruct (rid_pending _ HR u Hu) as [[H1 H2]|[H1 H2]].
    + split; [tauto | lia].
    + split; [|lia]. split; [|lia]. intros E.
      destruct H2 as [H|[[H _]|[H _]]]; congruence.
  - intros f u Hu. apply (rid_queue _ HR f u Hu).
  - intros u Hu. apply (rid_elevator _ HR u Hu).
Qed.

Lemma one_arrival_pending_witness :
  (exists n, users_ after_first_turn = S n /\ In (usertask n) (wait_ after_first_turn)
             /\ nextinst_ after_first_turn (usertask n) = 1)
  /\ (forall u, In (usertask u) (wait_ after_first_turn) ->
        (nextinst_ after_first_turn (usertask u) = 1 <-> S u = users_ after_first_turn)
        /\ (S u <= users_ after_first_turn)%nat)
  /\ (forall f u, In u (queue_ after_first_turn f) -> (S u < users_ after_first_turn)%nat)
  /\ (forall u, In u (elevator_ after_first_turn) -> (S u < users_ after_first_turn)%nat).
Proof.
  apply (one_arrival_pending gen_example 1000). exact after_first_turn_reachable.
Defined.

(** ** The lines of the log *)

(** X19.  In a run the last column of a printed line tells which task has
    fired: the labels [E5] and [E9] are printed for the two monitors only,
    since the car is never at a resume point 5 or 9; a label of the car is
    one of nine, and a label of a rider begins with [U]. *)
Theorem labels_tell_the_task g deadline s t rest :
  reachable g deadline s -> wait_ s = t :: rest ->
  (stateStr t (nextinst_ s t) = "E5"%string <-> t = e5task)
  /\ (stateStr t (nextinst_ s t) = "E9"%string <-> t = e9task)
  /\ (t = elevatortask ->
      In (stateStr t (nextinst_ s t))
         ["E1"; "E2"; "E3"; "E4"; "E6"; "E7"; "E71"; "E8"; "E81"]%string)
  /\ (forall u, t = usertask u ->
      exists digits, stateStr t (nextinst_ s t) = String "U" digits).
Proof.
  intros Hr Hw. pose proof (inv_car _ (reachable_Inv _ _ _ Hr)) as HC.
  pose proof (car_ei _ HC) as He. unfold ei in He.
  assert (Hcar : In (String.append "E" (to_string (nextinst_ s elevatortask)))
                    ["E1"; "E2"; "E3"; "E4"; "E6"; "E7"; "E71"; "E8"; "E81"]%string).
  { cbn [In] in He.
    destruct He as [H|[H|[H|[H|[H|[H|[H|[H|[H|[]]]]]]]]]]; rewrite <- H;
      vm_compute; tauto. }
  destruct t as [| | |u]; cbn [stateStr].
  - split; [|split; [|split]].
    + split; [|discriminate]. intros E. rewrite E in Hcar. exfalso.
      cbn [In] in Hcar. intuition discriminate.
    + split; [|discriminate]. intros E. rewrite E in Hcar. exfalso.
      cbn [In] in Hcar. intuition discriminate.
    + intros _. exact Hcar.
    + intros u Hu. discriminate.
  - split; [|split; [|split]].
    + split; reflexivity.
    + split; discriminate.
    + discriminate.
    + intros u Hu. discriminate.
  - split; [|split; [|split]].
    + split; discriminate.
    + split; reflexivity.
    + discriminate.
    + intros u Hu. discriminate.
  - split; [|split; [|split]].
    + split; [|discriminate]. cbn [String.append]. discriminate.
    + split; [|discriminate]. cbn [String.append]. discriminate.
    + discriminate.
    + intros u' _. eexists. cbn [String.append]. reflexivity.
Qed.

Lemma labels_tell_the_task_witness :
  exists t rest,
    wait_ doors_open_for_nobody = t :: rest
    /\ (stateStr t (nextinst_ doors_open_for_nobody t) = "E5"%string <-> t = e5task)
    /\ (stateStr t (nextinst_ doors_open_for_nobody t) = "E9"%string <-> t = e9task)
    /\ (t = elevatortask ->
        In (stateStr t (nextinst_ doors_open_for_nobody t))
           ["E1"; "E2"; "E3"; "E4"; "E6"; "E7"; "E71"; "E8"; "E81"]%string)
    /\ (forall u, t = usertask u ->
        exists digits, stateStr t (nextinst_ doors_open_for_nobody t) = String "U" digits).
Proof.
  destruct (wait_ doors_open_for_nobody) as [|t rest] eqn:E; [vm_compute in E; discriminate|].
  exists t, rest. split; [reflexivity|].
  apply (labels_tell_the_task gen_walk 652 doors_open_for_nobody t rest
           doors_open_for_nobody_reachable E).
Defined.

(** *** The columns of a line *)

Lemma ctor_not_before g : not_before 0 (ctor_state g).
Proof.
  unfold not_before, ctor_state.
  cbn [after_schedule wait_ nexttime_ set_wait set_nexttime set_nextinst set_users
         set_out set_in members_default].
  rewrite Forall_forall. intros x Hx. apply In_sched_wait in Hx.
  destruct Hx as [->|[]]. rewrite updT_same. lia.
Qed.

(** Nothing is ever pending for a time before 0. *)
Lemma reachable_not_before g deadline s : reachable g deadline s -> not_before 0 s.
Proof.
  induction 1 as [s0 E|s line s' Hr IH E].
  - rewrite ctor_eq in E. injection E as <-. apply ctor_not_before.
  - destruct (turn_not_before _ _ _ _ (reachable_Inv _ _ _ Hr) E) as [Hnb Hall].
    destruct (turn_fired _ _ _ _ E) as (t & rest & Hw & _ & -> & _).
    cbn [log_line log_time] in *.
    assert (H0 : 0 <= nexttime_ s t).
    { unfold not_before in IH. rewrite Hw in IH. inversion IH; assumption. }
    unfold not_before in *. revert Hnb. apply Forall_impl. intros q Hq. lia.
Qed.

Lemma print_04d_checked : forallb four_wide (seq 0 (Z.to_nat 10000)) = true.
Proof. vm_compute. reflexivity. Qed.

Lemma print_04d_length t : 0 <= t < 10000 -> String.length (print_04d t) = 4%nat.
Proof.
  intros Ht. pose proof print_04d_checked as H. rewrite forallb_forall in H.
  specialize (H (Z.to_nat t)). unfold four_wide in H.
  rewrite Z2Nat.id in H by lia. apply Nat.eqb_eq, H.
  apply in_seq. lia.
Qed.

Lemma string_of_length_4 (x : string) :
  String.length x = 4%nat ->
  exists c1 c2 c3 c4, x = String c1 (String c2 (String c3 (String c4 EmptyString))).
Proof.
  destruct x as [|c1 [|c2 [|c3 [|c4 [|c5 x]]]]]; cbn [String.length]; try discriminate.
  intros _. eauto.
Qed.

Lemma to_string_floor f :
  0 <= f <= 4 -> exists c, to_string f = String c EmptyString.
Proof.
  intros Hf.
  assert (H : f = 0 \/ f = 1 \/ f = 2 \/ f = 3 \/ f = 4) by lia.
  destruct H as [->|[->|[->|[->| ->]]]]; eexists; vm_compute; reflexivity.
Qed.

(** X20.  In a run to a deadline of at most 10000 the columns of the log
    are aligned: in every line printed the time takes exactly four
    characters and the floor one, so that the letter of the direction, the
    floor, the three door flags and the label of the task are at fixed
    places. *)
Theorem log_columns_aligned g deadline s line s' :
  reachable g deadline s -> deadline <= 10000 ->
  runUntil_turn deadline s = Ok (Some line, s') ->
  exists c1 c2 c3 c4 cf, print_line line = line_layout c1 c2 c3 c4 cf line.
Proof.
  intros Hr Hd E.
  pose proof (reachable_not_before _ _ _ Hr) as H0.
  pose proof (car_floor _ (inv_car _ (reachable_Inv _ _ _ Hr))) as Hf.
  destruct (turn_fired _ _ _ _ E) as (t & rest & Hw & Hlt & -> & _).
  assert (Ht : 0 <= nexttime_ s t).
  { unfold not_before in H0. rewrite Hw in H0. inversion H0; assumption. }
  destruct (string_of_length_4 _ (print_04d_length (nexttime_ s t) ltac:(lia)))
    as (c1 & c2 & c3 & c4 & E4).
  destruct (to_string_floor (floor_ s) Hf) as (cf & Ef).
  exists c1, c2, c3, c4, cf. unfold print_line, line_layout.
  cbn [log_line log_time log_state log_floor log_d1 log_d2 log_d3 log_task log_inst].
  rewrite E4, Ef. reflexivity.
Qed.

Lemma log_columns_aligned_witness :
  exists line c1 c2 c3 c4 cf,
    runUntil_turn 1000 (ctor_state gen_example) = Ok (Some line, after_first_turn)
    /\ print_line line = line_layout c1 c2 c3 c4 cf line.
Proof.
  destruct (runUntil_turn 1000 (ctor_state gen_example)) as [[[line|] s1]|] eqn:E;
    [|vm_compute in E; discriminate..].
  assert (Es : s1 = after_first_turn).
  { unfold after_first_turn. rewrite E. reflexivity. }
  destruct (log_columns_aligned gen_example 1000 (ctor_state gen_example) line s1)
    as (c1 & c2 & c3 & c4 & cf & H).
  - apply reach_ctor. apply ctor_eq.
  - lia.
  - exact E.
  - exists line, c1, c2, c3, c4, cf. rewrite <- Es. split; [reflexivity | exact H].
Defined.

(** ** People getting out and in *)

Lemma assert_returns line b s a s1 : assert line b s = Ok (a, s1) -> b = true /\ s1 = s.
Proof. unfold assert. destruct b; [|discriminate]. intros E. injection E as _ <-. auto. Qed.

Lemma check_index_returns i s a s1 :
  check_index i s = Ok (a, s1) -> 0 <= i < 5 /\ s1 = s.
Proof.
  unfold check_index. destruct (Z.leb_spec 0 i), (Z.ltb_spec i 5); cbn [andb];
    try discriminate.
  intros E. injection E as _ <-. split; [lia | reflexivity].
Qed.

Lemma modify_returns f s a s1 : modify f s = Ok (a, s1) -> s1 = f s.
Proof. intros E. injection E as _ <-. reflexivity. Qed.

Lemma erase_queue_returns f me s a s1 :
  erase_queue f me s = Ok (a, s1) ->
  std_count Nat.eqb (queue_ s f) me <= 1
  /\ s1 = set_queue (upd (queue_ s) f (erase_first Nat.eqb (queue_ s f) me)) s.
Proof.
  unfold erase_queue. intros E. apply bind_returns in E.
  destruct E as ([] & s0 & E0 & E). apply check_index_returns in E0. destruct E0 as [_ ->].
  unfold std_erase in E. destruct (Z.leb_spec (std_count Nat.eqb (queue_ s f) me) 1);
    [|discriminate].
  injection E as _ <-. auto.
Qed.

Lemma erase_elevator_returns me s a s1 :
  erase_elevator me s = Ok (a, s1) ->
  std_count Nat.eqb (elevator_ s) me <= 1
  /\ s1 = set_elevator (erase_first Nat.eqb (elevator_ s) me) s.
Proof.
  unfold erase_elevator, std_erase. intros E.
  destruct (Z.leb_spec (std_count Nat.eqb (elevator_ s) me) 1); [|discriminate].
  injection E as _ <-. auto.
Qed.

Ltac open_bind E x s1 E1 :=
  apply bind_returns in E; destruct E as (x & s1 & E1 & E).

(** A turn in a state of a run fires the first pending task, when it is due
    before the deadline. *)
Lemma turn_fires_head g deadline s t rest :
  reachable g deadline s -> wait_ s = t :: rest -> nexttime_ s t < deadline ->
  exists s',
    runUntil_turn deadline s = Ok (Some (log_line s t), s')
    /\ resume t (set_wait rest s) = Ok (tt, s')
    /\ Inv s'.
Proof.
  intros Hr Hw Hlt. pose proof (reachable_Inv _ _ _ Hr) as HI.
  destruct (wp_ok _ _ _ (resume_keeps_Inv s t rest HI Hw)) as ([] & s' & E & HI').
  exists s'. split; [|auto]. apply (turn_fires deadline s t rest s'); assumption.
Qed.

(** A state of a run is a state of the run with any later deadline. *)
Lemma reachable_later g deadline deadline' s :
  deadline <= deadline' -> reachable g deadline s -> reachable g deadline' s.
Proof.
  intros Hd. induction 1 as [s0 E|s line s' Hr IH E].
  - apply reach_ctor. exact E.
  - apply (reach_turn _ _ s line s' IH).
    pose proof (turn_cases deadline s) as Ht. rewrite E in Ht.
    destruct Ht as [_ Ht]. apply Ht. exact Hd.
Qed.

(** X21.  When the car fires at step E4 it serves one person: the first
    rider in the car who wants to get out here, or else the first rider on
    the roster of the floor.  That rider becomes the first pending task, for
    the same instant, at step U6 or U5, and the car comes back to step E4
    after [durationOfLeaving] or [durationOfEntering].  With nobody to serve
    the car sets [d3_] for [d1_] and is not scheduled again. *)
Theorem E4_serves_one_rider g deadline s rest :
  reachable g deadline s ->
  wait_ s = elevatortask :: rest ->
  nextinst_ s elevatortask = 4 ->
  nexttime_ s elevatortask < deadline ->
  exists s',
    runUntil_turn deadline s = Ok (Some (log_line s elevatortask), s')
    /\ match find (fun p => out_ s p =? floor_ s) (elevator_ s), queue_ s (floor_ s) with
       | Some p, _ =>
           (exists w, wait_ s' = usertask p :: w)
           /\ nextinst_ s' (usertask p) = 6
           /\ nexttime_ s' (usertask p) = nexttime_ s elevatortask
           /\ In elevatortask (wait_ s')
           /\ nextinst_ s' elevatortask = 4
           /\ nexttime_ s' elevatortask = nexttime_ s elevatortask + durationOfLeaving
       | None, p :: _ =>
           (exists w, wait_ s' = usertask p :: w)
           /\ nextinst_ s' (usertask p) = 5
           /\ nexttime_ s' (usertask p) = nexttime_ s elevatortask
           /\ In elevatortask (wait_ s')
           /\ nextinst_ s' elevatortask = 4
           /\ nexttime_ s' elevatortask = nexttime_ s elevatortask + durationOfEntering
       | None, [] =>
           s' = set_d3 true (set_d1 false (set_wait rest s))
       end.
Proof.
  intros Hr Hw He Hlt.
  destruct (turn_fires_head _ _ _ _ _ Hr Hw Hlt) as (s' & Et & E & HI').
  exists s'. split; [exact Et|].
  destruct (pop_facts _ _ _ (reachable_Inv _ _ _ Hr) Hw) as [HWQ Hnotin].
  set (now := nexttime_ s elevatortask) in *.
  cbn [resume] in E. unfold ElevatorTask_resume in E.
  open_bind E now' s1 E1. apply get_returns in E1. destruct E1 as [-> ->].
  open_bind E ins0 s1 E1. apply get_returns in E1. destruct E1 as [-> ->].
  cbn [nextinst_ nexttime_ set_wait] in E. rewrite He in E. cbn [Z.eqb Pos.eqb] in E.
  fold now in E. unfold E4 in E.
  open_bind E sim s1 E1. apply get_returns in E1. destruct E1 as [-> ->].
  open_bind E u1 s1 E1. apply assert_returns in E1. destruct E1 as [_ ->].
  cbv zeta in E.
  open_bind E u2 s1 E1. apply check_index_returns in E1. destruct E1 as [_ ->].
  cbn [out_ floor_ elevator_ queue_ nextinst_ set_wait] in E.
  destruct (find (fun p => out_ s p =? floor_ s) (elevator_ s)) as [p|].
  - open_bind E u3 s1 E1. apply schedule_immediately_returns in E1. destruct E1 as [_ ->].
    apply schedule_returns in E. destruct E as [_ ->].
    split; [apply (handed_rider_in_front now s rest p 6 durationOfLeaving HWQ);
            unfold durationOfLeaving; lia|].
    cbn [after_schedule after_immediately wait_ nextinst_ nexttime_ set_wait set_nexttime
           set_nextinst].
    rewrite !updT_same. rewrite !(updT_other _ elevatortask) by discriminate.
    rewrite !updT_same. repeat split. apply In_sched_wait. auto.
  - destruct (queue_ s (floor_ s)) as [|p q]; cbn [find] in E.
    + open_bind E u3 s1 E1. apply modify_returns in E1. subst s1.
      apply modify_returns in E. exact E.
    + open_bind E u3 s1 E1. apply assert_returns in E1. destruct E1 as [_ ->].
      open_bind E u4 s1 E1. apply schedule_immediately_returns in E1. destruct E1 as [_ ->].
      apply schedule_returns in E. destruct E as [_ ->].
      split; [apply (handed_rider_in_front now s rest p 5 durationOfEntering HWQ);
              unfold durationOfEntering; lia|].
      cbn [after_schedule after_immediately wait_ nextinst_ nexttime_ set_wait set_nexttime
             set_nextinst].
      rewrite !updT_same. rewrite !(updT_other _ elevatortask) by discriminate.
      rewrite !updT_same. repeat split. apply In_sched_wait. auto.
Qed.

Lemma E4_serves_one_rider_witness :
  exists rest s',
    wait_ doors_open_for_nobody = elevatortask :: rest
    /\ runUntil_turn 700 doors_open_for_nobody
       = Ok (Some (log_line doors_open_for_nobody elevatortask), s')
    /\ match find (fun p => out_ doors_open_for_nobody p =? floor_ doors_open_for_nobody)
               (elevator_ doors_open_for_nobody),
             queue_ doors_open_for_nobody (floor_ doors_open_for_nobody) with
       | Some p, _ =>
           (exists w, wait_ s' = usertask p :: w)
           /\ nextinst_ s' (usertask p) = 6
           /\ nexttime_ s' (usertask p) = nexttime_ doors_open_for_nobody elevatortask
           /\ In elevatortask (wait_ s')
           /\ nextinst_ s' elevatortask = 4
           /\ nexttime_ s' elevatortask
              = nexttime_ doors_open_for_nobody elevatortask + durationOfLeaving
       | None, p :: _ =>
           (exists w, wait_ s' = usertask p :: w)
           /\ nextinst_ s' (usertask p) = 5
           /\ nexttime_ s' (usertask p) = nexttime_ doors_open_for_nobody elevatortask
           /\ In elevatortask (wait_ s')
           /\ nextinst_ s' elevatortask = 4
           /\ nexttime_ s' elevatortask
              = nexttime_ doors_open_for_nobody elevatortask + durationOfEntering
       | None, [] =>
           s' = set_d3 true (set_d1 false (set_wait rest doors_open_for_nobody))
       end.
Proof.
  destruct (wait_ doors_open_for_nobody) as [|t rest] eqn:Hw;
    [vm_compute in Hw; discriminate|].
  assert (Et : t = elevatortask).
  { revert Hw. vm_compute. intros Hw. injection Hw as <- _. reflexivity. }
  subst t. exists rest.
  destruct (E4_serves_one_rider gen_walk 700 doors_open_for_nobody rest) as (s' & H).
  - apply (reachable_later gen_walk 652 700); [lia|].
    exact doors_open_for_nobody_reachable.
  - exact Hw.
  - vm_compute. reflexivity.
  - vm_compute. reflexivity.
  - exists s'. split; [reflexivity | exact H].
Defined.

Lemma UserTask_resume_at me s :
  UserTask_resume me s
  = (let now := nexttime_ s (usertask me) in
     let inst := nextinst_ s (usertask me) in
     if inst =? 1 then U1 me now
     else if inst =? 4 then U4 me
     else if inst =? 5 then U5 me now
     else if inst =? 6 then U6 me
     else ret tt) s.
Proof. reflexivity. Qed.

Lemma U5_returns me now s s' : U5 me now s = Ok (tt, s') -> s' = after_U5 me now s.
Proof.
  intros E. unfold U5 in E.
  open_bind E sim s1 E1. apply get_returns in E1. destruct E1 as [-> ->].
  open_bind E u1 s1 E1. apply erase_queue_returns in E1. destruct E1 as [Hc ->].
  open_bind E u2 s1 E1. apply modify_returns in E1. subst s1.
  open_bind E u3 s1 E1. apply check_index_returns in E1. destruct E1 as [_ ->].
  open_bind E u4 s1 E1. apply modify_returns in E1. subst s1.
  unfold when in E. unfold after_U5. cbv zeta.
  destruct (Direction_eqb (state_ s) Neutral).
  - open_bind E u5 s1 E1. apply modify_returns in E1. subst s1.
    apply schedule_returns in E. destruct E as [_ ->]. reflexivity.
  - injection E as <-. reflexivity.
Qed.

(** X22.  A rider who fires at step U5 gets in: the rider goes from the
    roster of the floor to the front of the roster of the car, the
    destination button of the car is set, and the rider is no longer
    pending.  If the car is [Neutral], the rider gives it its direction and
    the door monitor is scheduled after [durationBeforeRapidDoorClose];
    otherwise the direction stays. *)
Theorem rider_gets_in g deadline s me rest :
  reachable g deadline s ->
  wait_ s = usertask me :: rest ->
  nextinst_ s (usertask me) = 5 ->
  nexttime_ s (usertask me) < deadline ->
  exists s',
    runUntil_turn deadline s = Ok (Some (log_line s (usertask me)), s')
    /\ elevator_ s' = me :: elevator_ s
    /\ queue_ s' = upd (queue_ s) (in_ s me) (erase_first Nat.eqb (queue_ s (in_ s me)) me)
    /\ (forall f, ~ In me (queue_ s' f))
    /\ callcar_ s' = upd (callcar_ s) (out_ s me) true
    /\ ~ In (usertask me) (wait_ s')
    /\ (state_ s = Neutral ->
        state_ s' = (if in_ s me <? out_ s me then GoingUp else GoingDown)
        /\ In e5task (wait_ s')
        /\ nexttime_ s' e5task = nexttime_ s (usertask me) + durationBeforeRapidDoorClose)
    /\ (state_ s <> Neutral -> state_ s' = state_ s /\ wait_ s' = rest).
Proof.
  intros Hr Hw Hi Hlt.
  destruct (turn_fires_head _ _ _ _ _ Hr Hw Hlt) as (s' & Et & E & HI').
  exists s'. split; [exact Et|].
  destruct (pop_facts _ _ _ (reachable_Inv _ _ _ Hr) Hw) as [HWQ Hnotin].
  cbn [resume] in E. rewrite UserTask_resume_at in E. cbv zeta in E.
  change (nextinst_ (set_wait rest s) (usertask me)) with (nextinst_ s (usertask me)) in E.
  rewrite Hi in E. cbn [Z.eqb Pos.eqb] in E.
  apply U5_returns in E.
  assert (Hroster : forall f, ~ In me (queue_ s' f)).
  { apply (rid_elevator _ (inv_riders _ HI') me). rewrite E. unfold after_U5. cbv zeta.
    destruct (Direction_eqb _ _);
      cbn [elevator_ after_schedule set_state set_callcar set_elevator set_wait
             set_nexttime set_nextinst In]; auto. }
  clear HI' Et. revert Hroster. rewrite E. clear E. intros Hroster.
  unfold after_U5 in *. cbv zeta in *.
  change (state_ (set_wait rest s)) with (state_ s) in *.
  destruct (state_ s) eqn:Est; cbn [Direction_eqb] in *.
  - split; [reflexivity|]. split; [reflexivity|]. split; [exact Hroster|].
    split; [reflexivity|]. split; [exact Hnotin|].
    split; [discriminate|]. intros _. split; [exact Est | reflexivity].
  - split; [reflexivity|]. split; [reflexivity|]. split; [exact Hroster|].
    split; [reflexivity|]. split; [exact Hnotin|].
    split; [discriminate|]. intros _. split; [exact Est | reflexivity].
  - split; [reflexivity|]. split; [reflexivity|]. split; [exact Hroster|].
    split; [reflexivity|].
    cbn [after_schedule wait_ state_ nexttime_ set_state set_callcar set_elevator
           set_queue set_wait set_nexttime set_nextinst].
    split; [intros H; apply In_sched_wait in H; destruct H as [H|H];
            [discriminate | exact (Hnotin H)]|].
    split; [|congruence].
    intros _. split; [reflexivity|]. split; [apply In_sched_wait; auto | apply updT_same].
Qed.

Lemma first_rider_at_door_reachable : reachable gen_walk 700 first_rider_at_door.
Proof.
  unfold first_rider_at_door.
  destruct (runUntil 40 171 [] (ctor_state gen_walk)) as [[[log s]|f]|] eqn:E;
    [|vm_compute in E; discriminate..].
  assert (Hr : reachable gen_walk 700 s).
  { apply (reachable_later gen_walk 171 700); [lia|].
    apply (runUntil_reachable _ _ _ _ _ _ _ (reach_ctor _ _ _ (ctor_eq gen_walk)) E). }
  destruct (runUntil_turn 700 s) as [[[line|] s1]|] eqn:E1.
  - apply (reach_turn _ _ s line s1 Hr E1).
  - exact Hr.
  - exact Hr.
Qed.

Lemma rider_gets_in_witness :
  exists rest s',
    wait_ first_rider_at_door = usertask 0 :: rest
    /\ runUntil_turn 700 first_rider_at_door
       = Ok (Some (log_line first_rider_at_door (usertask 0)), s')
    /\ elevator_ s' = 0%nat :: elevator_ first_rider_at_door
    /\ queue_ s'
       = upd (queue_ first_rider_at_door) (in_ first_rider_at_door 0%nat)
           (erase_first Nat.eqb
              (queue_ first_rider_at_door (in_ first_rider_at_door 0%nat)) 0%nat)
    /\ (forall f, ~ In 0%nat (queue_ s' f))
    /\ callcar_ s' = upd (callcar_ first_rider_at_door) (out_ first_rider_at_door 0%nat) true
    /\ ~ In (usertask 0) (wait_ s')
    /\ (state_ first_rider_at_door = Neutral ->
        state_ s' = (if in_ first_rider_at_door 0%nat <? out_ first_rider_at_door 0%nat
                     then GoingUp else GoingDown)
        /\ In e5task (wait_ s')
        /\ nexttime_ s' e5task
           = nexttime_ first_rider_at_door (usertask 0) + durationBeforeRapidDoorClose)
    /\ (state_ first_rider_at_door <> Neutral ->
        state_ s' = state_ first_rider_at_door /\ wait_ s' = rest).
Proof.
  destruct (wait_ first_rider_at_door) as [|t rest] eqn:Hw;
    [vm_compute in Hw; discriminate|].
  assert (Et : t = usertask 0).
  { revert Hw. vm_compute. intros Hw. injection Hw as <- _. reflexivity. }
  subst t. exists rest.
  destruct (rider_gets_in gen_walk 700 first_rider_at_door 0%nat rest) as (s' & H).
  - exact first_rider_at_door_reachable.
  - exact Hw.
  - vm_compute. reflexivity.
  - vm_compute. reflexivity.
  - exists s'. split; [reflexivity | exact H].
Defined.

(** X23.  A rider who fires at step U6 gets out and is gone: the rider
    leaves the roster of the car, is on no roster of a floor and is not
    pending again; nothing else changes. *)
Theorem rider_gets_out g deadline s me rest :
  reachable g deadline s ->
  wait_ s = usertask me :: rest ->
  nextinst_ s (usertask me) = 6 ->
  nexttime_ s (usertask me) < deadline ->
  exists s',
    runUntil_turn deadline s = Ok (Some (log_line s (usertask me)), s')
    /\ s' = set_elevator (erase_first Nat.eqb (elevator_ s) me) (set_wait rest s)
    /\ ~ In me (elevator_ s')
    /\ (forall f, ~ In me (queue_ s' f))
    /\ ~ In (usertask me) (wait_ s').
Proof.
  intros Hr Hw Hi Hlt.
  destruct (turn_fires_head _ _ _ _ _ Hr Hw Hlt) as (s' & Et & E & HI').
  exists s'. split; [exact Et|].
  pose proof (reachable_Inv _ _ _ Hr) as HI.
  destruct (pop_facts _ _ _ HI Hw) as [HWQ Hnotin].
  cbn [resume] in E. rewrite UserTask_resume_at in E. cbv zeta in E.
  change (nextinst_ (set_wait rest s) (usertask me)) with (nextinst_ s (usertask me)) in E.
  rewrite Hi in E. cbn [Z.eqb Pos.eqb] in E.
  unfold U6 in E. apply erase_elevator_returns in E. destruct E as [Hc E].
  change (elevator_ (set_wait rest s)) with (elevator_ s) in *.
  split; [exact E|]. rewrite E.
  cbn [elevator_ queue_ wait_ set_elevator set_wait].
  split; [|split; [|exact Hnotin]].
  - intros H. apply (std_count_In _ Nat.eqb_spec) in H.
    rewrite (std_count_erase_same _ Nat.eqb_spec) in H by assumption. lia.
  - intros f H. destruct (rid_queue _ (inv_riders _ HI) f me H) as (_ & _ & [H4|[H5 _]]);
      congruence.
Qed.

Lemma first_rider_leaving_reachable : reachable gen_walk 700 first_rider_leaving.
Proof.
  unfold first_rider_leaving.
  destruct (runUntil 40 335 [] (ctor_state gen_walk)) as [[[log s]|f]|] eqn:E;
    [|vm_compute in E; discriminate..].
  assert (Hr : reachable gen_walk 700 s).
  { apply (reachable_later gen_walk 335 700); [lia|].
    apply (runUntil_reachable _ _ _ _ _ _ _ (reach_ctor _ _ _ (ctor_eq gen_walk)) E). }
  destruct (runUntil_turn 700 s) as [[[line|] s1]|] eqn:E1.
  - apply (reach_turn _ _ s line s1 Hr E1).
  - exact Hr.
  - exact Hr.
Qed.

Lemma rider_gets_out_witness :
  exists rest s',
    wait_ first_rider_leaving = usertask 0 :: rest
    /\ runUntil_turn 700 first_rider_leaving
       = Ok (Some (log_line first_rider_leaving (usertask 0)), s')
    /\ s' = set_elevator (erase_first Nat.eqb (elevator_ first_rider_leaving) 0%nat)
              (set_wait rest first_rider_leaving)
    /\ ~ In 0%nat (elevator_ s')
    /\ (forall f, ~ In 0%nat (queue_ s' f))
    /\ ~ In (usertask 0) (wait_ s').
Proof.
  destruct (wait_ first_rider_leaving) as [|t rest] eqn:Hw;
    [vm_compute in Hw; discriminate|].
  assert (Et : t = usertask 0).
  { revert Hw. vm_compute. intros Hw. injection Hw as <- _. reflexivity. }
  subst t. exists rest.
  destruct (rider_gets_out gen_walk 700 first_rider_leaving 0%nat rest) as (s' & H).
  - exact first_rider_leaving_reachable.
  - exact Hw.
  - vm_compute. reflexivity.
  - vm_compute. reflexivity.
  - exists s'. split; [reflexivity | exact H].
Defined.

(** ** A rider who arrives *)








Lemma make_shared_eq s : make_shared_UserTask s = Ok (users_ s, after_make_shared s).
Proof. reflexivity. Qed.








(** ** Where the moving car stops *)

Lemma should_stop_up s :
  callcar_ s (floor_ s) || callup_ s (floor_ s)
  || (((floor_ s =? 2) || calldown_ s (floor_ s))
      && negb (passenger_wants_up (scan_calls s) || waiter_wants_up (scan_calls s))) = true
  <-> stops_going_up s.
Proof.
  unfold stops_going_up. rewrite <- wants_up_iff.
  destruct (Z.eqb_spec (floor_ s) 2) as [E2|E2];
    destruct (callcar_ s (floor_ s)), (callup_ s (floor_ s)), (calldown_ s (floor_ s)),
      (passenger_wants_up (scan_calls s) || waiter_wants_up (scan_calls s));
    cbn [orb andb negb]; intuition (try discriminate; try congruence).
Qed.

Lemma should_stop_down s :
  callcar_ s (floor_ s) || calldown_ s (floor_ s)
  || (((floor_ s =? 2) || callup_ s (floor_ s))
      && negb (passenger_wants_down (scan_calls s) || waiter_wants_down (scan_calls s)))
     = true
  <-> stops_going_down s.
Proof.
  unfold stops_going_down. rewrite <- wants_down_iff.
  destruct (Z.eqb_spec (floor_ s) 2) as [E2|E2];
    destruct (callcar_ s (floor_ s)), (callup_ s (floor_ s)), (calldown_ s (floor_ s)),
      (passenger_wants_down (scan_calls s) || waiter_wants_down (scan_calls s));
    cbn [orb andb negb]; intuition (try discriminate; try congruence).
Qed.

Lemma ElevatorTask_resume_at s :
  ElevatorTask_resume s
  = (let now := nexttime_ s elevatortask in
     let inst := nextinst_ s elevatortask in
     if inst =? 1 then (sim <- get (fun s => s) ;; assert 342 (floor_ sim =? 2))
     else if inst =? 2 then E2 now
     else if inst =? 3 then E3 now
     else if inst =? 4 then E4 now
     else if inst =? 6 then E6 now
     else if inst =? 7 then E7 now
     else if inst =? 71 then E71 now
     else if inst =? 8 then E8 now
     else if inst =? 81 then E81 now
     else assert 505 false) s.
Proof. reflexivity. Qed.

Lemma E71_returns now s s' :
  E71 now s = Ok (tt, s') ->
  s' = (if callcar_ s (floor_ s) || callup_ s (floor_ s)
           || (((floor_ s =? 2) || calldown_ s (floor_ s))
               && negb (passenger_wants_up (scan_calls s)
                        || waiter_wants_up (scan_calls s)))
        then after_schedule elevatortask 2 (now + durationOfUpwardDeceleration) s
        else after_immediately elevatortask 7 now s).
Proof.
  intros E. unfold E71 in E.
  open_bind E sim s1 E1. apply get_returns in E1. destruct E1 as [-> ->].
  cbv zeta in E.
  open_bind E u1 s1 E1. apply check_index_returns in E1. destruct E1 as [_ ->].
  destruct (_ || _ || _).
  - apply schedule_returns in E. destruct E as [_ ->]. reflexivity.
  - apply schedule_immediately_returns in E. destruct E as [_ ->]. reflexivity.
Qed.

Lemma E81_returns now s s' :
  E81 now s = Ok (tt, s') ->
  s' = (if callcar_ s (floor_ s) || calldown_ s (floor_ s)
           || (((floor_ s =? 2) || callup_ s (floor_ s))
               && negb (passenger_wants_down (scan_calls s)
                        || waiter_wants_down (scan_calls s)))
        then after_schedule elevatortask 2 (now + durationOfDownwardDeceleration) s
        else after_immediately elevatortask 8 now s).
Proof.
  intros E. unfold E81 in E.
  open_bind E sim s1 E1. apply get_returns in E1. destruct E1 as [-> ->].
  cbv zeta in E.
  open_bind E u1 s1 E1. apply check_index_returns in E1. destruct E1 as [_ ->].
  destruct (_ || _ || _).
  - apply schedule_returns in E. destruct E as [_ ->]. reflexivity.
  - apply schedule_immediately_returns in E. destruct E as [_ ->]. reflexivity.
Qed.

Lemma car_came_up_reachable : reachable gen_walk 86 car_came_up.
Proof.
  unfold car_came_up.
  destruct (runUntil 40 86 [] (ctor_state gen_walk)) as [[[log s]|f]|] eqn:E.
  - apply (runUntil_reachable _ _ _ _ _ _ _ (reach_ctor _ _ _ (ctor_eq gen_walk)) E).
  - vm_compute in E. discriminate.
  - vm_compute in E. discriminate.
Qed.

Lemma car_came_down_reachable : reachable gen_walk 292 car_came_down.
Proof.
  unfold car_came_down.
  destruct (runUntil 40 292 [] (ctor_state gen_walk)) as [[[log s]|f]|] eqn:E.
  - apply (runUntil_reachable _ _ _ _ _ _ _ (reach_ctor _ _ _ (ctor_eq gen_walk)) E).
  - vm_compute in E. discriminate.
  - vm_compute in E. discriminate.
Qed.

(** X25.  A car that has gone up a floor (step E7, continued) stops there
    exactly when its destination button or the up button of the floor is
    set, or when the floor is the home floor 2 or has its down button set
    and no other floor above has any button set: it is then pending at step
    E2 after [durationOfUpwardDeceleration].  Otherwise it is the first
    pending task, at step E7 for the same instant.  Neither case changes
    the floor, the direction or a button. *)
Theorem E7_stop_rule g deadline s rest :
  reachable g deadline s ->
  wait_ s = elevatortask :: rest ->
  nextinst_ s elevatortask = 71 ->
  nexttime_ s elevatortask < deadline ->
  exists s',
    runUntil_turn deadline s = Ok (Some (log_line s elevatortask), s')
    /\ floor_ s' = floor_ s /\ state_ s' = state_ s
    /\ callcar_ s' = callcar_ s /\ callup_ s' = callup_ s /\ calldown_ s' = calldown_ s
    /\ (stops_going_up s ->
        In elevatortask (wait_ s')
        /\ nextinst_ s' elevatortask = 2
        /\ nexttime_ s' elevatortask
           = nexttime_ s elevatortask + durationOfUpwardDeceleration)
    /\ (~ stops_going_up s ->
        wait_ s' = elevatortask :: rest
        /\ nextinst_ s' elevatortask = 7
        /\ nexttime_ s' elevatortask = nexttime_ s elevatortask).
Proof.
  intros Hr Hw He Hlt.
  destruct (turn_fires_head _ _ _ _ _ Hr Hw Hlt) as (s' & Et & E & _).
  exists s'. split; [exact Et|].
  destruct (pop_facts _ _ _ (reachable_Inv _ _ _ Hr) Hw) as [_ Hnotin].
  cbn [resume] in E. rewrite ElevatorTask_resume_at in E. cbv zeta in E.
  change (nextinst_ (set_wait rest s) elevatortask) with (nextinst_ s elevatortask) in E.
  change (nexttime_ (set_wait rest s) elevatortask) with (nexttime_ s elevatortask) in E.
  rewrite He in E. cbn [Z.eqb Pos.eqb] in E.
  apply E71_returns in E.
  pose proof (should_stop_up (set_wait rest s)) as Hs.
  change (stops_going_up (set_wait rest s)) with (stops_going_up s) in Hs.
  destruct (_ || _ || _); subst s';
    cbn [after_schedule after_immediately floor_ state_ callcar_ callup_ calldown_ wait_
           nextinst_ nexttime_ set_wait set_nexttime set_nextinst];
    rewrite !updT_same; repeat (split; [reflexivity|]).
  - split; [|intros H; destruct H; apply Hs; reflexivity].
    intros _. rewrite In_sched_wait. auto.
  - split; [intros H; apply Hs in H; discriminate|].
    intros _. rewrite (erase_first_notin Task_eqb Task_eqb_spec) by exact Hnotin. auto.
Qed.

Lemma E7_stop_rule_witness :
  exists rest s',
    wait_ car_came_up = elevatortask :: rest
    /\ runUntil_turn 700 car_came_up = Ok (Some (log_line car_came_up elevatortask), s')
    /\ floor_ s' = floor_ car_came_up /\ state_ s' = state_ car_came_up
    /\ callcar_ s' = callcar_ car_came_up /\ callup_ s' = callup_ car_came_up
    /\ calldown_ s' = calldown_ car_came_up
    /\ (stops_going_up car_came_up ->
        In elevatortask (wait_ s')
        /\ nextinst_ s' elevatortask = 2
        /\ nexttime_ s' elevatortask
           = nexttime_ car_came_up elevatortask + durationOfUpwardDeceleration)
    /\ (~ stops_going_up car_came_up ->
        wait_ s' = elevatortask :: rest
        /\ nextinst_ s' elevatortask = 7
        /\ nexttime_ s' elevatortask = nexttime_ car_came_up elevatortask).
Proof.
  destruct (wait_ car_came_up) as [|t rest] eqn:Hw; [vm_compute in Hw; discriminate|].
  assert (Et : t = elevatortask).
  { revert Hw. vm_compute. intros Hw. injection Hw as <- _. reflexivity. }
  subst t. exists rest.
  destruct (E7_stop_rule gen_walk 700 car_came_up rest) as (s' & H).
  - apply (reachable_later gen_walk 86 700); [lia|]. exact car_came_up_reachable.
  - exact Hw.
  - vm_compute. reflexivity.
  - vm_compute. reflexivity.
  - exists s'. split; [reflexivity | exact H].
Defined.

(** X26.  A car that has gone down a floor (step E8, continued) stops there
    exactly when its destination button or the down button of the floor is
    set, or when the floor is the home floor 2 or has its up button set and
    no other floor below has any button set: it is then pending at step E2
    after [durationOfDownwardDeceleration].  Otherwise it is the first
    pending task, at step E8 for the same instant.  Neither case changes
    the floor, the direction or a button. *)
Theorem E8_stop_rule g deadline s rest :
  reachable g deadline s ->
  wait_ s = elevatortask :: rest ->
  nextinst_ s elevatortask = 81 ->
  nexttime_ s elevatortask < deadline ->
  exists s',
    runUntil_turn deadline s = Ok (Some (log_line s elevatortask), s')
    /\ floor_ s' = floor_ s /\ state_ s' = state_ s
    /\ callcar_ s' = callcar_ s /\ callup_ s' = callup_ s /\ calldown_ s' = calldown_ s
    /\ (stops_going_down s ->
        In elevatortask (wait_ s')
        /\ nextinst_ s' elevatortask = 2
        /\ nexttime_ s' elevatortask
           = nexttime_ s elevatortask + durationOfDownwardDeceleration)
    /\ (~ stops_going_down s ->
        wait_ s' = elevatortask :: rest
        /\ nextinst_ s' elevatortask = 8
        /\ nexttime_ s' elevatortask = nexttime_ s elevatortask).
Proof.
  intros Hr Hw He Hlt.
  destruct (turn_fires_head _ _ _ _ _ Hr Hw Hlt) as (s' & Et & E & _).
  exists s'. split; [exact Et|].
  destruct (pop_facts _ _ _ (reachable_Inv _ _ _ Hr) Hw) as [_ Hnotin].
  cbn [resume] in E. rewrite ElevatorTask_resume_at in E. cbv zeta in E.
  change (nextinst_ (set_wait rest s) elevatortask) with (nextinst_ s elevatortask) in E.
  change (nexttime_ (set_wait rest s) elevatortask) with (nexttime_ s elevatortask) in E.
  rewrite He in E. cbn [Z.eqb Pos.eqb] in E.
  apply E81_returns in E.
  pose proof (should_stop_down (set_wait rest s)) as Hs.
  change (stops_going_down (set_wait rest s)) with (stops_going_down s) in Hs.
  destruct (_ || _ || _); subst s';
    cbn [after_schedule after_immediately floor_ state_ callcar_ callup_ calldown_ wait_
           nextinst_ nexttime_ set_wait set_nexttime set_nextinst];
    rewrite !updT_same; repeat (split; [reflexivity|]).
  - split; [|intros H; destruct H; apply Hs; reflexivity].
    intros _. rewrite In_sched_wait. auto.
  - split; [intros H; apply Hs in H; discriminate|].
    intros _. rewrite (erase_first_notin Task_eqb Task_eqb_spec) by exact Hnotin. auto.
Qed.

Lemma E8_stop_rule_witness :
  exists rest s',
    wait_ car_came_down = elevatortask :: rest
    /\ runUntil_turn 700 car_came_down
       = Ok (Some (log_line car_came_down elevatortask), s')
    /\ floor_ s' = floor_ car_came_down /\ state_ s' = state_ car_came_down
    /\ callcar_ s' = callcar_ car_came_down /\ callup_ s' = callup_ car_came_down
    /\ calldown_ s' = calldown_ car_came_down
    /\ (stops_going_down car_came_down ->
        In elevatortask (wait_ s')
        /\ nextinst_ s' elevatortask = 2
        /\ nexttime_ s' elevatortask
           = nexttime_ car_came_down elevatortask + durationOfDownwardDeceleration)
    /\ (~ stops_going_down car_came_down ->
        wait_ s' = elevatortask :: rest
        /\ nextinst_ s' elevatortask = 8
        /\ nexttime_ s' elevatortask = nexttime_ car_came_down elevatortask).
Proof.
  destruct (wait_ car_came_down) as [|t rest] eqn:Hw; [vm_compute in Hw; discriminate|].
  assert (Et : t = elevatortask).
  { revert Hw. vm_compute. intros Hw. injection Hw as <- _. reflexivity. }
  subst t. exists rest.
  destruct (E8_stop_rule gen_walk 700 car_came_down rest) as (s' & H).
  - apply (reachable_later gen_walk 292 700); [lia|]. exact car_came_down_reachable.
  - exact Hw.
  - vm_compute. reflexivity.
  - vm_compute. reflexivity.
  - exists s'. split; [reflexivity | exact H].
Defined.

(** ** The car prepares to move *)

Lemma set_state_same s : set_state (state_ s) s = s.
Proof. destruct s. reflexivity. Qed.

(** Called by a car that is not dormant, the decision subroutine changes
    nothing but the direction, and that only from [Neutral]. *)
Lemma decision_of_busy_car now fromE6 s s' :
  nextinst_ s elevatortask <> 1 ->
  decision now fromE6 s = Ok (tt, s') ->
  exists d, s' = set_state d s /\ (state_ s <> Neutral -> d = state_ s).
Proof.
  intros Hi E. unfold decision in E.
  apply Z.eqb_neq in Hi. rewrite Hi in E. cbn [andb] in E.
  destruct (state_ s) eqn:Es; cbn [Direction_eqb negb] in E.
  1, 2: injection E as <-; exists (state_ s); rewrite set_state_same;
    split; [reflexivity | intros _; exact Es].
  destruct (negb (_ =? -1)).
  - open_bind E u1 s1 E1. apply modify_returns in E1. subst s1.
    injection E as <-. eexists. split; [reflexivity | intros H; destruct H; reflexivity].
  - injection E as <-. exists (state_ s). rewrite set_state_same.
    split; [reflexivity | intros H; destruct H; reflexivity].
Qed.

Lemma E6_returns now s s' :
  nextinst_ s elevatortask = 6 ->
  E6 now s = Ok (tt, s') ->
  exists d, s' = after_E6 now d s /\ (state_ s <> Neutral -> d = state_ s).
Proof.
  intros Hi E. unfold E6 in E.
  open_bind E sim s1 E1. apply get_returns in E1. destruct E1 as [-> ->].
  open_bind E u1 s1 E1. apply assert_returns in E1. destruct E1 as [_ ->].
  open_bind E u2 s1 E1. apply check_index_returns in E1. destruct E1 as [_ ->].
  open_bind E u3 s1 E1. apply modify_returns in E1. subst s1.
  open_bind E u4 s2 E1.
  open_bind E u5 s3 Eb.
  assert (Ec : s3 = after_E6_clear s).
  { unfold after_E6_clear, when in *.
    destruct (negb (Direction_eqb (state_ s) GoingDown));
      [apply modify_returns in E1 | injection E1 as <-]; subst s2;
      (destruct (negb (Direction_eqb (state_ s) GoingUp));
       [apply modify_returns in Eb | injection Eb as <-]); subst s3; reflexivity. }
  clear E1 Eb. subst s3.
  open_bind E u6 s4 E1. destruct u6.
  apply decision_of_busy_car in E1.
  2:{ unfold after_E6_clear.
      destruct (negb (Direction_eqb (state_ s) GoingDown)),
        (negb (Direction_eqb (state_ s) GoingUp)); cbn; lia. }
  destruct E1 as (d & -> & Hd).
  exists d. split.
  2:{ assert (Hst : state_ (after_E6_clear s) = state_ s).
      { unfold after_E6_clear.
        destruct (negb (Direction_eqb (state_ s) GoingDown)),
          (negb (Direction_eqb (state_ s) GoingUp)); reflexivity. }
      rewrite Hst in Hd. exact Hd. }
  open_bind E sim s1 E1. apply get_returns in E1. destruct E1 as [-> ->].
  unfold after_E6. cbv zeta.
  change (state_ (set_state d (after_E6_clear s))) with d in E.
  assert (Hd2 : d2_ (set_state d (after_E6_clear s)) = d2_ s).
  { unfold after_E6_clear.
    destruct (negb (Direction_eqb (state_ s) GoingDown)),
      (negb (Direction_eqb (state_ s) GoingUp)); reflexivity. }
  rewrite Hd2 in E.
  destruct (Direction_eqb d Neutral).
  - open_bind E u7 s1 E1. apply assert_returns in E1. destruct E1 as [_ ->].
    open_bind E u8 s1 E1. apply assert_returns in E1. destruct E1 as [_ ->].
    apply schedule_immediately_returns in E. destruct E as [_ ->]. reflexivity.
  - open_bind E u7 s1 E1.
    assert (Eb : s1 = if d2_ s then after_cancel e9task (set_state d (after_E6_clear s))
                      else set_state d (after_E6_clear s)).
    { unfold when in E1. destruct (d2_ s).
      - apply cancel_returns in E1. exact E1.
      - injection E1 as _ <-. reflexivity. }
    clear E1. subst s1.
    destruct (Direction_eqb d GoingUp);
      apply schedule_returns in E; destruct E as [_ ->]; reflexivity.
Qed.

Lemma after_E6_clear_fields s :
  floor_ (after_E6_clear s) = floor_ s
  /\ wait_ (after_E6_clear s) = wait_ s
  /\ nextinst_ (after_E6_clear s) = nextinst_ s
  /\ nexttime_ (after_E6_clear s) = nexttime_ s
  /\ callcar_ (after_E6_clear s) = upd (callcar_ s) (floor_ s) false
  /\ callup_ (after_E6_clear s)
     = (if Direction_eqb (state_ s) GoingDown then callup_ s
        else upd (callup_ s) (floor_ s) false)
  /\ calldown_ (after_E6_clear s)
     = (if Direction_eqb (state_ s) GoingUp then calldown_ s
        else upd (calldown_ s) (floor_ s) false).
Proof.
  unfold after_E6_clear.
  destruct (Direction_eqb (state_ s) GoingDown), (Direction_eqb (state_ s) GoingUp);
    cbn; auto 10.
Qed.

Lemma car_about_to_leave_reachable : reachable gen_walk 20 car_about_to_leave.
Proof.
  unfold car_about_to_leave.
  destruct (runUntil 40 20 [] (ctor_state gen_walk)) as [[[log s]|f]|] eqn:E.
  - apply (runUntil_reachable _ _ _ _ _ _ _ (reach_ctor _ _ _ (ctor_eq gen_walk)) E).
  - vm_compute in E. discriminate.
  - vm_compute in E. discriminate.
Qed.

(** X27.  When the car fires at step E6 it clears its destination button
    for the floor it is on, the up button of that floor unless it is going
    down, and the down button unless it is going up; the floor stays, and a
    direction other than [Neutral] stays.  Then, by the direction the
    decision subroutine leaves: [Neutral], the car is the first pending
    task, at step E1 for the same instant; going up or down, it is pending
    at step E7 or E8 after the acceleration time, and the inactivity monitor
    is no longer pending if [d2_] was set. *)
Theorem E6_prepares_to_move g deadline s rest :
  reachable g deadline s ->
  wait_ s = elevatortask :: rest ->
  nextinst_ s elevatortask = 6 ->
  nexttime_ s elevatortask < deadline ->
  exists s',
    runUntil_turn deadline s = Ok (Some (log_line s elevatortask), s')
    /\ floor_ s' = floor_ s
    /\ callcar_ s' = upd (callcar_ s) (floor_ s) false
    /\ callup_ s' = (if Direction_eqb (state_ s) GoingDown then callup_ s
                     else upd (callup_ s) (floor_ s) false)
    /\ calldown_ s' = (if Direction_eqb (state_ s) GoingUp then calldown_ s
                       else upd (calldown_ s) (floor_ s) false)
    /\ (state_ s <> Neutral -> state_ s' = state_ s)
    /\ match state_ s' with
       | Neutral =>
           wait_ s' = elevatortask :: rest
           /\ nextinst_ s' elevatortask = 1
           /\ nexttime_ s' elevatortask = nexttime_ s elevatortask
       | GoingUp =>
           In elevatortask (wait_ s')
           /\ nextinst_ s' elevatortask = 7
           /\ nexttime_ s' elevatortask
              = nexttime_ s elevatortask + durationOfUpwardAcceleration
           /\ (d2_ s = true -> ~ In e9task (wait_ s'))
       | GoingDown =>
           In elevatortask (wait_ s')
           /\ nextinst_ s' elevatortask = 8
           /\ nexttime_ s' elevatortask
              = nexttime_ s elevatortask + durationOfDownwardAcceleration
           /\ (d2_ s = true -> ~ In e9task (wait_ s'))
       end.
Proof.
  intros Hr Hw He Hlt.
  destruct (turn_fires_head _ _ _ _ _ Hr Hw Hlt) as (s' & Et & E & _).
  exists s'. split; [exact Et|].
  pose proof (reachable_Inv _ _ _ Hr) as HI.
  destruct (pop_facts _ _ _ HI Hw) as [_ Hnotin].
  assert (Hnd : NoDup rest).
  { pose proof (inv_nodup _ HI) as H. rewrite Hw in H. inversion H; assumption. }
  cbn [resume] in E. rewrite ElevatorTask_resume_at in E. cbv zeta in E.
  change (nextinst_ (set_wait rest s) elevatortask) with (nextinst_ s elevatortask) in E.
  change (nexttime_ (set_wait rest s) elevatortask) with (nexttime_ s elevatortask) in E.
  rewrite He in E. cbn [Z.eqb Pos.eqb] in E.
  apply E6_returns in E; [|exact He].
  destruct E as (d & -> & Hd).
  change (state_ (set_wait rest s)) with (state_ s) in Hd.
  destruct (after_E6_clear_fields (set_wait rest s)) as (F1 & F2 & F3 & F4 & F5 & F6 & F7).
  cbn [floor_ wait_ nextinst_ nexttime_ callcar_ callup_ calldown_ state_ set_wait]
    in F1, F2, F3, F4, F5, F6, F7.
  unfold after_E6. cbv zeta. change (d2_ (set_wait rest s)) with (d2_ s).
  destruct d; cbn [Direction_eqb].
  3:{ cbn [after_immediately floor_ state_ callcar_ callup_ calldown_ wait_ nextinst_
             nexttime_ set_wait set_nexttime set_nextinst set_state].
      rewrite F1, F2, F5, F6, F7, !updT_same.
      rewrite (erase_first_notin Task_eqb Task_eqb_spec) by exact Hnotin.
      repeat split; auto. }
  all: destruct (d2_ s);
    cbn [after_schedule after_cancel floor_ state_ callcar_ callup_ calldown_ wait_
           nextinst_ nexttime_ set_wait set_nexttime set_nextinst set_state];
    rewrite F1, F2, F5, F6, F7, !updT_same, !In_sched_wait;
    repeat (split; [solve [auto]|]);
    try (intros _ [H|H]; [discriminate|];
         exact (notin_erase_first Task_eqb Task_eqb_spec _ _ Hnd H));
    intros H; discriminate.
Qed.

Lemma E6_prepares_to_move_witness :
  exists rest s',
    wait_ car_about_to_leave = elevatortask :: rest
    /\ runUntil_turn 700 car_about_to_leave
       = Ok (Some (log_line car_about_to_leave elevatortask), s')
    /\ floor_ s' = floor_ car_about_to_leave
    /\ callcar_ s' = upd (callcar_ car_about_to_leave) (floor_ car_about_to_leave) false
    /\ callup_ s' = (if Direction_eqb (state_ car_about_to_leave) GoingDown
                     then callup_ car_about_to_leave
                     else upd (callup_ car_about_to_leave) (floor_ car_about_to_leave) false)
    /\ calldown_ s' = (if Direction_eqb (state_ car_about_to_leave) GoingUp
                       then calldown_ car_about_to_leave
                       else upd (calldown_ car_about_to_leave)
                              (floor_ car_about_to_leave) false)
    /\ (state_ car_about_to_leave <> Neutral -> state_ s' = state_ car_about_to_leave)
    /\ match state_ s' with
       | Neutral =>
           wait_ s' = elevatortask :: rest
           /\ nextinst_ s' elevatortask = 1
           /\ nexttime_ s' elevatortask = nexttime_ car_about_to_leave elevatortask
       | GoingUp =>
           In elevatortask (wait_ s')
           /\ nextinst_ s' elevatortask = 7
           /\ nexttime_ s' elevatortask
              = nexttime_ car_about_to_leave elevatortask + durationOfUpwardAcceleration
           /\ (d2_ car_about_to_leave = true -> ~ In e9task (wait_ s'))
       | GoingDown =>
           In elevatortask (wait_ s')
           /\ nextinst_ s' elevatortask = 8
           /\ nexttime_ s' elevatortask
              = nexttime_ car_about_to_leave elevatortask + durationOfDownwardAcceleration
           /\ (d2_ car_about_to_leave = true -> ~ In e9task (wait_ s'))
       end.
Proof.
  destruct (wait_ car_about_to_leave) as [|t rest] eqn:Hw;
    [vm_compute in Hw; discriminate|].
  assert (Et : t = elevatortask).
  { revert Hw. vm_compute. intros Hw. injection Hw as <- _. reflexivity. }
  subst t. exists rest.
  destruct (E6_prepares_to_move gen_walk 700 car_about_to_leave rest) as (s' & H).
  - apply (reachable_later gen_walk 20 700); [lia|]. exact car_about_to_leave_reachable.
  - exact Hw.
  - vm_compute. reflexivity.
  - vm_compute. reflexivity.
  - exists s'. split; [reflexivity | exact H].
Defined.

(** ** The car comes home *)

Lemma car_back_home_reachable : reachable gen_sparse 597 car_back_home.
Proof.
  unfold car_back_home.
  destruct (runUntil 40 597 [] (ctor_state gen_sparse)) as [[[log s]|f]|] eqn:E.
  - apply (runUntil_reachable _ _ _ _ _ _ _ (reach_ctor _ _ _ (ctor_eq gen_sparse)) E).
  - vm_compute in E. discriminate.
  - vm_compute in E. discriminate.
Qed.

(** In that state step E6 leaves the direction [Neutral]: the car is on
    floor 2 and resumes at E1 at once. *)
Lemma E6_neutral_only_at_home_witness :
  exists rest s',
    wait_ car_back_home = elevatortask :: rest
    /\ runUntil_turn 1000 car_back_home
       = Ok (Some (log_line car_back_home elevatortask), s')
    /\ state_ s' = Neutral
    /\ floor_ car_back_home = 2 /\ floor_ s' = 2
    /\ wait_ s' = elevatortask :: rest
    /\ nextinst_ s' elevatortask = 1
    /\ nexttime_ s' elevatortask = nexttime_ car_back_home elevatortask.
Proof.
  destruct (wait_ car_back_home) as [|t rest] eqn:Hw; [vm_compute in Hw; discriminate|].
  assert (Et : t = elevatortask).
  { revert Hw. vm_compute. intros Hw. injection Hw as <- _. reflexivity. }
  subst t. exists rest.
  destruct (E6_neutral_only_at_home gen_sparse 1000 car_back_home rest) as (s' & E & H).
  - apply (reachable_later gen_sparse 597 1000); [lia|]. exact car_back_home_reachable.
  - exact Hw.
  - vm_compute. reflexivity.
  - vm_compute. reflexivity.
  - exists s'. split; [reflexivity|]. split; [exact E|].
    assert (Hn : state_ match runUntil_turn 1000 car_back_home with
                        | Ok (_, s1) => s1
                        | Abort _ => car_back_home
                        end = Neutral) by (vm_compute; reflexivity).
    rewrite E in Hn. split; [exact Hn | exact (H Hn)].
Defined.

(** ** The times of a run and the type [int] *)

Section Keeps.
Variable hi : Time.

Lemma keeps_same {A} (m : M A) :
  (forall s a s', m s = Ok (a, s') -> nexttime_ s' = nexttime_ s) ->
  keeps_times hi m.
Proof. intros H s a s' E Hs t. rewrite (H _ _ _ E). apply Hs. Qed.

Lemma keeps_ret {A} (a : A) : keeps_times hi (ret a).
Proof. apply keeps_same. intros s a' s' E. injection E as _ <-. reflexivity. Qed.

Lemma keeps_get {A} (f : Sim -> A) : keeps_times hi (get f).
Proof. apply keeps_same. intros s a s' E. injection E as _ <-. reflexivity. Qed.

Lemma keeps_assert line b : keeps_times hi (assert line b).
Proof.
  apply keeps_same. intros s a s' E. apply assert_returns in E.
  destruct E as [_ ->]. reflexivity.
Qed.

Lemma keeps_check_index i : keeps_times hi (check_index i).
Proof.
  apply keeps_same. intros s a s' E. apply check_index_returns in E.
  destruct E as [_ ->]. reflexivity.
Qed.

Lemma keeps_modify f :
  (forall s, nexttime_ (f s) = nexttime_ s) -> keeps_times hi (modify f).
Proof.
  intros H. apply keeps_same. intros s a s' E. apply modify_returns in E.
  subst s'. apply H.
Qed.

Lemma keeps_cancel t : keeps_times hi (cancel t).
Proof.
  apply keeps_same. intros s a s' E. apply cancel_returns in E.
  subst s'. reflexivity.
Qed.

Lemma keeps_erase_queue f me : keeps_times hi (erase_queue f me).
Proof.
  apply keeps_same. intros s a s' E. apply erase_queue_returns in E.
  destruct E as [_ ->]. reflexivity.
Qed.

Lemma keeps_erase_elevator me : keeps_times hi (erase_elevator me).
Proof.
  apply keeps_same. intros s a s' E. apply erase_elevator_returns in E.
  destruct E as [_ ->]. reflexivity.
Qed.

Lemma keeps_bind {A B} (m : M A) (k : A -> M B) :
  keeps_times hi m -> (forall a, keeps_times hi (k a)) -> keeps_times hi (bind m k).
Proof.
  intros Hm Hk s b s' E Hs. apply bind_returns in E.
  destruct E as (a & s1 & E1 & E). exact (Hk a s1 b s' E (Hm s a s1 E1 Hs)).
Qed.

Lemma keeps_when (c : bool) m : keeps_times hi m -> keeps_times hi (when c m).
Proof. intros H. destruct c; [exact H | apply keeps_ret]. Qed.

Lemma keeps_schedule t step when_ :
  -1 <= when_ <= hi -> keeps_times hi (schedule t step when_).
Proof.
  intros Hw s a s' E Hs q. apply schedule_returns in E. destruct E as [_ ->].
  cbn [after_schedule nexttime_ set_wait set_nexttime set_nextinst].
  unfold updT. destruct (Task_eqb q t); [exact Hw | apply Hs].
Qed.

Lemma keeps_schedule_immediately t step when_ :
  -1 <= when_ <= hi -> keeps_times hi (schedule_immediately t step when_).
Proof.
  intros Hw s a s' E Hs q. apply schedule_immediately_returns in E.
  destruct E as [_ ->].
  cbn [after_immediately nexttime_ set_wait set_nexttime set_nextinst].
  unfold updT. destruct (Task_eqb q t); [exact Hw | apply Hs].
Qed.

(** The arrival generator changes the generator only; what it returns is
    in its ranges. *)
Lemma keeps_createNewUser {A} (k : NewUserInfo.t -> M A) :
  (forall info,
      300 <= NewUserInfo.giveuptime_ info <= 1200 ->
      10 <= NewUserInfo.intertime_ info <= 900 ->
      keeps_times hi (k info)) ->
  keeps_times hi (bind createNewUser k).
Proof.
  intros Hk s a s' E Hs. unfold bind in E.
  destruct (createNewUser_ok s) as (info & g & E1 & _ & _ & _ & Hg & Hi).
  rewrite E1 in E. exact (Hk info Hg Hi _ _ _ E Hs).
Qed.

(** A new handle has the time -1. *)
Lemma keeps_make_shared : keeps_times hi make_shared_UserTask.
Proof.
  intros s u s' E Hs q. rewrite make_shared_eq in E. injection E as _ <-.
  unfold after_make_shared.
  cbn [nexttime_ set_users set_out set_in set_nexttime set_nextinst].
  unfold updT. destruct (Task_eqb q (usertask (users_ s))); [|apply Hs].
  pose proof (Hs elevatortask). lia.
Qed.

Lemma keeps_decision now fromE6 :
  -1 <= now -> now + 1200 <= hi -> keeps_times hi (decision now fromE6).
Proof.
  intros Hlo Hhi s a s' E. unfold decision in E.
  destruct (negb (Direction_eqb (state_ s) Neutral)); [exact (keeps_ret _ _ _ _ E)|].
  destruct ((nextinst_ s elevatortask =? 1) && any_call s 2).
  - revert E. apply keeps_schedule.
    unfold durationOfDoorOpenFromDecisionSubroutine. lia.
  - destruct (negb (_ =? -1)); [|exact (keeps_ret _ _ _ _ E)].
    revert E. apply keeps_bind.
    + apply keeps_modify. reflexivity.
    + intros _. apply keeps_when. apply keeps_schedule.
      unfold delayBeforeHoming. lia.
Qed.
End Keeps.

(** The times a computation leaves, by its syntax. *)
Ltac keeps_go :=
  cbv zeta;
  lazymatch goal with
  | |- keeps_times _ (bind createNewUser _) =>
      apply keeps_createNewUser; intros ? ? ?; keeps_go
  | |- keeps_times _ (bind _ _) => apply keeps_bind; [keeps_go | intros ?; keeps_go]
  | |- keeps_times _ (ret _) => apply keeps_ret
  | |- keeps_times _ (get _) => apply keeps_get
  | |- keeps_times _ (modify _) => apply keeps_modify; intros; reflexivity
  | |- keeps_times _ (assert _ _) => apply keeps_assert
  | |- keeps_times _ (check_index _) => apply keeps_check_index
  | |- keeps_times _ (when _ _) => apply keeps_when; keeps_go
  | |- keeps_times _ (schedule_immediately _ _ _) => apply keeps_schedule_immediately; later
  | |- keeps_times _ (schedule _ _ _) => apply keeps_schedule; later
  | |- keeps_times _ (cancel _) => apply keeps_cancel
  | |- keeps_times _ (erase_queue _ _) => apply keeps_erase_queue
  | |- keeps_times _ (erase_elevator _) => apply keeps_erase_elevator
  | |- keeps_times _ make_shared_UserTask => apply keeps_make_shared
  | |- keeps_times _ (decision _ _) => apply keeps_decision; lia
  | |- keeps_times _ (if ?c then _ else _) => destruct c; keeps_go
  | |- keeps_times _ (match ?o with Some _ => _ | None => _ end) => destruct o; keeps_go
  | |- keeps_times _ (E2 _) => unfold E2; keeps_go
  | |- keeps_times _ (E3 _) => unfold E3; keeps_go
  | |- keeps_times _ (E4 _) => unfold E4; keeps_go
  | |- keeps_times _ (E6 _) => unfold E6; keeps_go
  | |- keeps_times _ (E7 _) => unfold E7; keeps_go
  | |- keeps_times _ (E71 _) => unfold E71; keeps_go
  | |- keeps_times _ (E8 _) => unfold E8; keeps_go
  | |- keeps_times _ (E81 _) => unfold E81; keeps_go
  | |- keeps_times _ (U1 _ _) => unfold U1; keeps_go
  | |- keeps_times _ (U2 _ _ _) => unfold U2; keeps_go
  | |- keeps_times _ (U3 _ _ _ _ _) => unfold U3; keeps_go
  | |- keeps_times _ (U4 _) => unfold U4; keeps_go
  | |- keeps_times _ (U5 _ _) => unfold U5; keeps_go
  | |- keeps_times _ (U6 _) => unfold U6; keeps_go
  end.

Section StepTimes.
Variables now hi : Time.
Hypothesis Hlo : -1 <= now.
Hypothesis Hhi : now + 1200 <= hi.

Lemma keeps_elevator (inst : Z) :
  keeps_times hi
    (if inst =? 1 then (sim <- get (fun s => s) ;; assert 342 (floor_ sim =? 2))
     else if inst =? 2 then E2 now
     else if inst =? 3 then E3 now
     else if inst =? 4 then E4 now
     else if inst =? 6 then E6 now
     else if inst =? 7 then E7 now
     else if inst =? 71 then E71 now
     else if inst =? 8 then E8 now
     else if inst =? 81 then E81 now
     else assert 505 false).
Proof. keeps_go. Qed.

Lemma keeps_E5 (inst : Z) :
  keeps_times hi
    (assert 514 (inst =? 5) ;;
     sim <- get (fun s => s) ;;
     if d1_ sim then schedule e5task 5 (now + delayAfterDoorFlutter)
     else modify (set_d3 false) ;;
          schedule elevatortask 6 (now + durationOfDoorClose)).
Proof. keeps_go. Qed.

Lemma keeps_E9 (inst : Z) :
  keeps_times hi
    (assert 529 (inst =? 9) ;; modify (set_d2 false) ;; decision now false).
Proof. keeps_go. Qed.

Lemma keeps_user me (inst : Z) :
  keeps_times hi
    (if inst =? 1 then U1 me now
     else if inst =? 4 then U4 me
     else if inst =? 5 then U5 me now
     else if inst =? 6 then U6 me
     else ret tt).
Proof. keeps_go. Qed.
End StepTimes.

(** A firing adds at most 1200 to the time of the task that fires. *)
Lemma resume_keeps_times hi t s s' :
  nexttime_ s t + 1200 <= hi -> times_within hi s ->
  resume t s = Ok (tt, s') -> times_within hi s'.
Proof.
  intros Hhi Hs E. pose proof (Hs t) as [Hlo _].
  destruct t as [| | |me]; cbn [resume] in E.
  - unfold ElevatorTask_resume in E. open_resume E.
    exact (keeps_elevator _ hi Hlo Hhi _ _ _ _ E Hs).
  - unfold E5Task_resume in E. open_resume E.
    exact (keeps_E5 _ hi Hlo Hhi _ _ _ _ E Hs).
  - unfold E9Task_resume in E. open_resume E.
    exact (keeps_E9 _ hi Hlo Hhi _ _ _ _ E Hs).
  - unfold UserTask_resume in E. open_resume E.
    exact (keeps_user _ hi Hlo Hhi me _ _ _ _ E Hs).
Qed.

Lemma turn_keeps_times deadline hi s line s' :
  deadline + 1199 <= hi -> times_within hi s ->
  runUntil_turn deadline s = Ok (Some line, s') -> times_within hi s'.
Proof.
  intros Hhi Hs E. destruct (turn_fired _ _ _ _ E) as (t & rest & Hw & Hlt & _ & Er).
  apply (resume_keeps_times hi t (set_wait rest s) s'); [|exact Hs | exact Er].
  cbn [nexttime_ set_wait]. lia.
Qed.

Lemma ctor_times_within g hi : 0 <= hi -> times_within hi (ctor_state g).
Proof.
  intros Hhi t. unfold ctor_state.
  cbn [after_schedule nexttime_ set_wait set_nexttime set_nextinst set_users set_out set_in
         members_default].
  unfold updT. destruct (Task_eqb t (usertask 0)); lia.
Qed.

Lemma reachable_times_within g deadline hi s :
  0 <= hi -> deadline + 1199 <= hi -> reachable g deadline s -> times_within hi s.
Proof.
  intros H0 Hhi. induction 1 as [s0 E|s line s' Hr IH E].
  - rewrite ctor_eq in E. injection E as <-. apply ctor_times_within. exact H0.
  - exact (turn_keeps_times deadline hi s line s' Hhi IH E).
Qed.

Lemma reachable_fits_int g deadline s :
  deadline_fits deadline -> reachable g deadline s ->
  forall t, fits_int (nexttime_ s t).
Proof.
  intros [_ Hd] Hr t.
  pose proof (reachable_times_within g deadline INT_MAX s) as H.
  unfold fits_int, INT_MAX, INT_MIN in *.
  specialize (H ltac:(lia) ltac:(lia) Hr t). lia.
Qed.

(** The times [runUntil] prints are those of firings: not before 0, and
    before the deadline. *)
Lemma runUntil_log_times g fuel deadline log0 s log s' :
  reachable g deadline s ->
  Forall (fun l => 0 <= log_time l < deadline) log0 ->
  runUntil fuel deadline log0 s = Some (Ok (log, s')) ->
  Forall (fun l => 0 <= log_time l < deadline) log.
Proof.
  revert log0 s. induction fuel as [|fuel IH]; intros log0 s Hr H0 E; [discriminate|].
  cbn [runUntil] in E.
  destruct (runUntil_turn deadline s) as [[[line|] s1]|f] eqn:Et.
  - apply (IH (log0 ++ [line]) s1); [exact (reach_turn _ _ _ _ _ Hr Et)| |exact E].
    apply Forall_app. split; [exact H0|]. constructor; [|constructor].
    destruct (turn_fired _ _ _ _ Et) as (t & rest & Hw & Hlt & -> & _).
    cbn [log_line log_time]. split; [|exact Hlt].
    pose proof (reachable_not_before _ _ _ Hr) as Hnb.
    unfold not_before in Hnb. rewrite Hw in Hnb. inversion Hnb; assumption.
  - injection E as <- _. exact H0.
  - discriminate.
Qed.

Lemma main_eq g fuel argv :
  main g fuel argv
  = match runUntil fuel (main_deadline argv) [] (ctor_state g) with
    | None => None
    | Some (Abort f) => Some (Aborted f)
    | Some (Ok (log, _)) => Some (Exited 0 log)
    end.
Proof. unfold main. rewrite ctor_eq. reflexivity. Qed.

(** X14.  The clock of a run never goes back.  For a deadline that is an
    [int] and at most [INT_MAX - 1200], the lines [runUntil] prints, from
    the state the constructor builds, are in the order of their times; each
    of these times is at least 0 and before the deadline, and every time
    the simulation has computed is a value of [int]. *)
Theorem log_times_never_decrease g fuel deadline log s' :
  deadline_fits deadline ->
  runUntil fuel deadline [] (ctor_state g) = Some (Ok (log, s')) ->
  sorted log_time log
  /\ Forall (fun l => 0 <= log_time l < deadline) log
  /\ forall t, fits_int (nexttime_ s' t).
Proof.
  intros Hd E.
  pose proof (reach_ctor g deadline _ (ctor_eq g)) as Hr0.
  split; [|split].
  - apply (runUntil_log_sorted fuel deadline 0 [] (ctor_state g) log s').
    + exact (wp_inv _ _ _ _ _ (ctor_Inv g) (ctor_eq g)).
    + apply ctor_not_before.
    + exact I.
    + constructor.
    + exact E.
  - apply (runUntil_log_times g fuel deadline [] (ctor_state g) log s' Hr0); [|exact E].
    constructor.
  - apply (reachable_fits_int g deadline s' Hd).
    exact (runUntil_reachable _ _ _ _ _ _ _ Hr0 E).
Qed.

Lemma log_times_never_decrease_witness :
  exists log,
    runUntil 40 652 [] (ctor_state gen_walk) = Some (Ok (log, doors_open_for_nobody))
    /\ sorted log_time log
    /\ Forall (fun l => 0 <= log_time l < 652) log
    /\ forall t, fits_int (nexttime_ doors_open_for_nobody t).
Proof.
  destruct (runUntil 40 652 [] (ctor_state gen_walk)) as [[[log s1]|]|] eqn:E;
    [|vm_compute in E; discriminate..].
  exists log.
  assert (Es : s1 = doors_open_for_nobody).
  { unfold doors_open_for_nobody. rewrite E. reflexivity. }
  rewrite <- Es. split; [reflexivity|].
  apply (log_times_never_decrease gen_walk 40 652 log s1); [|exact E].
  unfold deadline_fits, INT_MIN, INT_MAX. lia.
Defined.

(** X15.  [runUntil] returns, for every generator and every deadline that
    is an [int] and at most [INT_MAX - 1200]: from the state the constructor
    builds, enough turns of its loop reach a state whose first pending task
    is due at the deadline or later; no assertion fails on the way, and the
    times of that state are values of [int]. *)
Theorem runUntil_terminates g deadline :
  deadline_fits deadline ->
  exists fuel log s',
    runUntil fuel deadline [] (ctor_state g) = Some (Ok (log, s'))
    /\ reachable g deadline s'
    /\ (exists t rest, wait_ s' = t :: rest /\ deadline <= nexttime_ s' t)
    /\ forall t, fits_int (nexttime_ s' t).
Proof.
  intros Hd.
  set (n := S (Z.to_nat (potential deadline (ctor_state g)))).
  destruct (runUntil_returns_within deadline n [] (ctor_state g)) as (log & s' & E).
  - exact (wp_inv _ _ _ _ _ (ctor_Inv g) (ctor_eq g)).
  - pose proof (potential_nonneg deadline (ctor_state g)). unfold n. lia.
  - pose proof (runUntil_reachable _ _ _ _ _ _ _ (reach_ctor _ _ _ (ctor_eq g)) E) as Hr.
    exists n, log, s'. split; [exact E|]. split; [exact Hr|]. split.
    + exact (runUntil_stops _ _ _ _ _ _ E).
    + exact (reachable_fits_int g deadline s' Hd Hr).
Qed.

Lemma runUntil_terminates_witness :
  exists fuel log s',
    runUntil fuel 1000 [] (ctor_state gen_sparse) = Some (Ok (log, s'))
    /\ reachable gen_sparse 1000 s'
    /\ (exists t rest, wait_ s' = t :: rest /\ 1000 <= nexttime_ s' t)
    /\ forall t, fits_int (nexttime_ s' t).
Proof.
  apply (runUntil_terminates gen_sparse 1000).
  unfold deadline_fits, INT_MIN, INT_MAX. lia.
Defined.

(** X16.  When the deadline [main] takes from its arguments is an [int] and
    at most [INT_MAX - 1200], the program ends with exit status 0, whatever
    numbers the generator yields: [main] returns once the driver has had
    turns enough, having printed times that are not negative and before the
    deadline; with fewer turns it is still running; it never stops on a
    failed assertion. *)
Theorem main_exits_with_status_0 g argv :
  deadline_fits (main_deadline argv) ->
  (exists fuel log,
      main g fuel argv = Some (Exited 0 log)
      /\ Forall (fun l => 0 <= log_time l < main_deadline argv) log)
  /\ (forall fuel,
        main g fuel argv = None \/ exists log, main g fuel argv = Some (Exited 0 log)).
Proof.
  intros Hd. split.
  - set (deadline := main_deadline argv).
    set (n := S (Z.to_nat (potential deadline (ctor_state g)))).
    destruct (runUntil_returns_within deadline n [] (ctor_state g)) as (log & s' & E).
    + exact (wp_inv _ _ _ _ _ (ctor_Inv g) (ctor_eq g)).
    + pose proof (potential_nonneg deadline (ctor_state g)). unfold n. lia.
    + exists n, log. rewrite main_eq. fold deadline. rewrite E.
      split; [reflexivity|].
      apply (runUntil_log_times g n deadline [] (ctor_state g) log s');
        [apply reach_ctor, ctor_eq | constructor | exact E].
  - intros fuel. pose proof (main_never_aborts g fuel argv) as Hn.
    destruct (main g fuel argv) as [[status log|f]|] eqn:E.
    + right. exists log. rewrite (main_status _ _ _ _ _ E). reflexivity.
    + exfalso. apply (Hn f). reflexivity.
    + left. reflexivity.
Qed.

Lemma main_exits_with_status_0_witness :
  (exists fuel log,
      main gen_sparse fuel ["go"; "1000"]%string = Some (Exited 0 log)
      /\ Forall (fun l => 0 <= log_time l < main_deadline ["go"; "1000"]%string) log)
  /\ (forall fuel,
        main gen_sparse fuel ["go"; "1000"]%string = None
        \/ exists log, main gen_sparse fuel ["go"; "1000"]%string = Some (Exited 0 log)).
Proof.
  apply (main_exits_with_status_0 gen_sparse ["go"; "1000"]%string).
  vm_compute. split; discriminate.
Defined.

(** X18.  In a run to a deadline that is an [int] and at most
    [INT_MAX - 1200], every time the simulation computes is a value of
    [int]: in every state of the run the time of every task, pending or not,
    lies between -1 and 1199 past the deadline (or 0, for a negative
    deadline), the pending ones are not negative, and the task that fires
    next can add any delay up to 1200 to its time without leaving [int]. *)
Theorem times_fit_int g deadline s :
  deadline_fits deadline ->
  reachable g deadline s ->
  (forall t, -1 <= nexttime_ s t <= Z.max 0 (deadline + 1199)
             /\ fits_int (nexttime_ s t))
  /\ (forall t, In t (wait_ s) -> 0 <= nexttime_ s t)
  /\ (forall t rest d,
        wait_ s = t :: rest -> nexttime_ s t < deadline -> 0 <= d <= 1200 ->
        fits_int (nexttime_ s t + d)).
Proof.
  intros Hd Hr.
  pose proof (reachable_times_within g deadline (Z.max 0 (deadline + 1199)) s
                ltac:(lia) ltac:(lia) Hr) as Hs.
  pose proof (reachable_not_before _ _ _ Hr) as Hnb.
  unfold not_before in Hnb. rewrite Forall_forall in Hnb.
  unfold deadline_fits, fits_int, INT_MIN, INT_MAX in *.
  split; [|split].
  - intros t. pose proof (Hs t). lia.
  - exact Hnb.
  - intros t rest d Hw Hlt Hdd.
    assert (Hin : In t (wait_ s)) by (rewrite Hw; left; reflexivity).
    pose proof (Hnb t Hin). lia.
Qed.

Lemma times_fit_int_witness :
  (forall t, -1 <= nexttime_ car_back_home t <= Z.max 0 (597 + 1199)
             /\ fits_int (nexttime_ car_back_home t))
  /\ (forall t, In t (wait_ car_back_home) -> 0 <= nexttime_ car_back_home t)
  /\ (forall t rest d,
        wait_ car_back_home = t :: rest -> nexttime_ car_back_home t < 597 ->
        0 <= d <= 1200 -> fits_int (nexttime_ car_back_home t + d)).
Proof.
  apply (times_fit_int gen_sparse 597 car_back_home).
  - unfold deadline_fits, INT_MIN, INT_MAX. lia.
  - exact car_back_home_reachable.
Defined.
